(** * Model cache and acquisition subsystem

    A shallow embedding of [ModelCacheManager] (model-cache.ts) and
    [ModelConfigManager] (ml-config.ts).  Both classes are singletons whose
    methods are [async] functions over a file system, a clock, the network
    and a logger; here a method is a computation in a state-and-exception
    monad over an explicit [World]. *)

From Stdlib Require Import ZArith Lia List Bool Strings.Ascii Sorting.Sorted
  Sorting.Permutation.
From stdpp Require Import base gmap strings list pretty.

Open Scope string_scope.
Open Scope Z_scope.

(** ** Data model *)

(** [interface ModelCacheEntry]: JavaScript numbers holding integers (epoch
    milliseconds, byte counts) are integers of [Z]. *)
Module ModelCacheEntry.
Record t : Type := mk {
  path : string;
  lastUsed : Z;
  size : Z;
  version : string
}.
End ModelCacheEntry.

Inductive ModelType : Type := transcription | summarization.

Definition ModelType_eqb (a b : ModelType) : bool :=
  match a, b with
  | transcription, transcription => true
  | summarization, summarization => true
  | _, _ => false
  end.

(** [interface ModelConfig]. *)
Module ModelConfig.
Record t : Type := mk {
  name : string;
  type : ModelType;
  url : string;
  checksum : string;
  localPath : string;
  version : string;
  requiredDiskSpace : Z
}.

Definition with_localPath (p : string) (c : t) : t :=
  mk (name c) (type c) (url c) (checksum c) p (version c) (requiredDiskSpace c).
End ModelConfig.

(** ** [Map<string, V>]

    A JavaScript [Map] iterates in insertion order, which the eviction sweep
    observes through [Array.from(entries())]: an association list with
    [set] replacing in place and appending new keys. *)
Module JsMap.
Section Ops.
Context {V : Type}.

Fixpoint get (k : string) (m : list (string * V)) : option V :=
  match m with
  | [] => None
  | (k', v) :: m' => if String.eqb k k' then Some v else get k m'
  end.

Fixpoint set (k : string) (v : V) (m : list (string * V)) : list (string * V) :=
  match m with
  | [] => [(k, v)]
  | (k', v') :: m' =>
      if String.eqb k k' then (k, v) :: m' else (k', v') :: set k v m'
  end.

Fixpoint delete (k : string) (m : list (string * V)) : list (string * V) :=
  match m with
  | [] => []
  | (k', v') :: m' =>
      if String.eqb k k' then delete k m' else (k', v') :: delete k m'
  end.

(** [new Map(iterable)]: the pairs are [set] one after the other. *)
Definition of_entries (l : list (string * V)) : list (string * V) :=
  fold_left (fun m kv => set (fst kv) (snd kv) m) l [].

Definition keys (m : list (string * V)) : list string := map fst m.
End Ops.
End JsMap.

Abbreviation CacheIndex := (list (string * ModelCacheEntry.t)).

(** ** The world the two managers run in *)

(** File contents are only ever measured ([stat.size]) and digested
    (SHA-256 in hex), so a blob is its length and its digest. *)
Record Blob : Type := mkBlob { blob_size : Z; blob_sha256 : string }.

Inductive Node : Type :=
| File (b : Blob)
| Dir.

Record Stats : Type := mkStats { isFile : bool; stat_size : Z }.

(** What [fetch(url)] does: reject (network failure, or the abort raised by
    the five-minute timer), or resolve with a response whose body may still
    fail to arrive ([arrayBuffer()] rejecting). *)
Inductive Response : Type :=
| Rejected (reason : string)
| Resolved (ok : bool) (statusText : string) (body : option Blob).

Inductive Level : Type := info | warn | error.

Inductive Event : Type :=
| Log (lvl : Level) (message : string)
| Fetch (url : string).

(** The part of the environment the program cannot change. *)
Record Env : Type := mkEnv {
  denyUnlink : gset string;      (* paths whose unlink is refused (EPERM, EBUSY) *)
  denyWrite : gset string;       (* paths that cannot be created or written *)
  indexWritable : bool;          (* whether cache-index.json can be written *)
  clock : nat -> Z;              (* successive readings of Date.now() *)
  network : string -> Response
}.

Record World : Type := mkWorld {
  env : Env;
  files : gmap string Node;              (* the file system, index file apart *)
  indexFile : option CacheIndex;         (* cache-index.json, parsed; None: missing or corrupt *)
  cacheIndex : CacheIndex;               (* ModelCacheManager.cacheIndex *)
  modelConfigs : list ModelConfig.t;     (* ModelConfigManager.modelConfigs *)
  ticks : nat;                           (* readings of the clock so far *)
  trace : list Event                     (* log records and network requests, oldest first *)
}.

Definition set_files (f : gmap string Node) (w : World) : World :=
  mkWorld (env w) f (indexFile w) (cacheIndex w) (modelConfigs w) (ticks w) (trace w).
Definition set_indexFile (i : option CacheIndex) (w : World) : World :=
  mkWorld (env w) (files w) i (cacheIndex w) (modelConfigs w) (ticks w) (trace w).
Definition set_cacheIndex (i : CacheIndex) (w : World) : World :=
  mkWorld (env w) (files w) (indexFile w) i (modelConfigs w) (ticks w) (trace w).
Definition set_modelConfigs (c : list ModelConfig.t) (w : World) : World :=
  mkWorld (env w) (files w) (indexFile w) (cacheIndex w) c (ticks w) (trace w).
Definition set_ticks (n : nat) (w : World) : World :=
  mkWorld (env w) (files w) (indexFile w) (cacheIndex w) (modelConfigs w) n (trace w).
Definition add_event (e : Event) (w : World) : World :=
  mkWorld (env w) (files w) (indexFile w) (cacheIndex w) (modelConfigs w) (ticks w)
          (trace w ++ [e]).

(** ** Promises as a state-and-exception monad

    [await] is [let*]; a rejected promise is [Throw]; the world keeps every
    change made before the exception. *)
Inductive Result (A : Type) : Type :=
| Ok (a : A)
| Throw (message : string).
Arguments Ok {A} a.
Arguments Throw {A} message.

Definition M (A : Type) : Type := World -> Result A * World.

Definition ret {A} (a : A) : M A := fun w => (Ok a, w).

Definition throw {A} (message : string) : M A := fun w => (Throw message, w).

Definition bind {A B} (m : M A) (k : A -> M B) : M B :=
  fun w =>
    match m w with
    | (Ok a, w') => k a w'
    | (Throw e, w') => (Throw e, w')
    end.

Definition try_catch {A} (m : M A) (handler : string -> M A) : M A :=
  fun w =>
    match m w with
    | (Ok a, w') => (Ok a, w')
    | (Throw e, w') => handler e w'
    end.

Definition modify (f : World -> World) : M unit := fun w => (Ok tt, f w).

Definition gets {A} (f : World -> A) : M A := fun w => (Ok (f w), w).

Notation "'let*' x ':=' m 'in' k" := (bind m (fun x => k))
  (at level 10, x name, m at level 100, k at level 200).

(** ** Platform primitives *)

(** A JavaScript string in a condition: the empty string is falsy. *)
Definition truthy (s : string) : bool := negb (String.eqb s "").

Definition Date_now : M Z :=
  fun w => (Ok (clock (env w) (ticks w)), set_ticks (S (ticks w)) w).

Definition logger (lvl : Level) (message : string) : M unit :=
  modify (add_event (Log lvl message)).

(** [fs.stat]: the managers read [isFile()] and, of regular files only,
    [size]. *)
Definition fs_stat (p : string) : M Stats :=
  fun w =>
    match files w !! p with
    | Some (File b) => (Ok (mkStats true (blob_size b)), w)
    | Some Dir => (Ok (mkStats false 0), w)
    | None => (Throw "ENOENT", w)
    end.

Definition fs_access (p : string) : M unit :=
  fun w =>
    match files w !! p with
    | Some _ => (Ok tt, w)
    | None => (Throw "ENOENT", w)
    end.

Definition fs_readFile (p : string) : M Blob :=
  fun w =>
    match files w !! p with
    | Some (File b) => (Ok b, w)
    | Some Dir => (Throw "EISDIR", w)
    | None => (Throw "ENOENT", w)
    end.

(** Whether [fs.unlink p] would succeed. *)
Definition canUnlink (w : World) (p : string) : bool :=
  match files w !! p with
  | Some (File _) => bool_decide (p ∉ denyUnlink (env w))
  | _ => false
  end.

Definition fs_unlink (p : string) : M unit :=
  fun w =>
    if canUnlink w p then (Ok tt, set_files (delete p (files w)) w)
    else (Throw "unlink failed", w).

(** Whether [p] can be (over)written with a regular file. *)
Definition canWrite (w : World) (p : string) : bool :=
  match files w !! p with
  | Some Dir => false
  | _ => bool_decide (p ∉ denyWrite (env w))
  end.

(** A refused write leaves the path as it was. *)
Definition fs_writeFile (p : string) (b : Blob) : M unit :=
  fun w =>
    if canWrite w p then (Ok tt, set_files (<[p := File b]> (files w)) w)
    else (Throw "write failed", w).

Definition fs_copyFile (src dest : string) : M unit :=
  let* b := fs_readFile src in
  fs_writeFile dest b.

(** [fs.mkdir(p, { recursive: true })]: an existing directory is fine. *)
Definition fs_mkdir (p : string) : M unit :=
  fun w =>
    match files w !! p with
    | Some Dir => (Ok tt, w)
    | Some (File _) => (Throw "EEXIST", w)
    | None =>
        if bool_decide (p ∉ denyWrite (env w))
        then (Ok tt, set_files (<[p := Dir]> (files w)) w)
        else (Throw "EACCES", w)
    end.

(** [fetch(url, { signal })] up to the response headers. *)
Definition fetch (url : string) : M (bool * string * option Blob) :=
  fun w =>
    match network (env w) url with
    | Rejected reason => (Throw reason, add_event (Fetch url) w)
    | Resolved ok statusText body => (Ok (ok, statusText, body), add_event (Fetch url) w)
    end.

(** [response.arrayBuffer()]. *)
Definition arrayBuffer (body : option Blob) : M Blob :=
  match body with
  | Some b => ret b
  | None => throw "body stream failed"
  end.

(** The functions of [path], [process] and [crypto] the managers call on
    strings. *)
Class Platform : Type := {
  cwd : string;
  path_join : string -> string -> string;
  path_basename : string -> string;
  sha256_hex : string -> string
}.

(** ** ModelCacheManager (model-cache.ts) *)

Definition maxCacheSize : Z := 10 * 1024 * 1024 * 1024.

Definition maxModelAge : Z := 30 * 24 * 60 * 60 * 1000.

(** [Array.prototype.sort] with the comparator
    [(a, b) => a[1].lastUsed - b[1].lastUsed]: the sort is stable, so an
    element goes in front of the first element that is strictly later in
    time or equally old but behind it in the array. *)
Fixpoint sort_insert (x : string * ModelCacheEntry.t) (l : CacheIndex) : CacheIndex :=
  match l with
  | [] => [x]
  | y :: l' =>
      if ModelCacheEntry.lastUsed (snd x) <=? ModelCacheEntry.lastUsed (snd y)
      then x :: y :: l'
      else y :: sort_insert x l'
  end.

Definition sortByLastUsed (l : CacheIndex) : CacheIndex :=
  fold_right sort_insert [] l.

(** [sortedEntries.reduce((total, entry) => total + entry[1].size, 0)]. *)
Definition totalSize (l : CacheIndex) : Z :=
  fold_left (fun total entry => total + ModelCacheEntry.size (snd entry)) l 0.

Definition loadCacheIndex : M unit :=
  fun w =>
    match indexFile w with
    | Some entries => (Ok tt, set_cacheIndex (JsMap.of_entries entries) w)
    | None => (Ok tt, set_cacheIndex [] w)
    end.

Definition saveCacheIndex : M unit :=
  fun w =>
    if indexWritable (env w)
    then (Ok tt, set_indexFile (Some (cacheIndex w)) w)
    else logger error "Failed to save cache index" w.

(** The [while] loop of [manageCacheSize]; [sortedEntries.shift()] is the
    head of the list, [currentCacheSize] the local running total. *)
Fixpoint evictWhile (sortedEntries : CacheIndex) (currentCacheSize : Z) : M unit :=
  match sortedEntries with
  | [] => ret tt
  | (modelName, oldestEntry) :: sortedEntries' =>
      if maxCacheSize <? currentCacheSize then
        let* currentCacheSize' :=
          try_catch
            (let* _ := fs_unlink (ModelCacheEntry.path oldestEntry) in
             let* _ := modify (fun w => set_cacheIndex (JsMap.delete modelName (cacheIndex w)) w) in
             ret (currentCacheSize - ModelCacheEntry.size oldestEntry))
            (fun _ =>
               let* _ := logger warn "Failed to remove old cache entry" in
               ret currentCacheSize) in
        evictWhile sortedEntries' currentCacheSize'
      else ret tt
  end.

Definition manageCacheSize : M unit :=
  let* sortedEntries := gets (fun w => sortByLastUsed (cacheIndex w)) in
  let currentCacheSize := totalSize sortedEntries in
  let* _ := evictWhile sortedEntries currentCacheSize in
  saveCacheIndex.

Definition getModelFromCache (modelName : string) : M (option string) :=
  let* cacheEntry := gets (fun w => JsMap.get modelName (cacheIndex w)) in
  match cacheEntry with
  | None => ret None
  | Some cacheEntry =>
      let* hit :=
        try_catch
          (let* stats := fs_stat (ModelCacheEntry.path cacheEntry) in
           let* now := Date_now in
           let isRecent := now - ModelCacheEntry.lastUsed cacheEntry <? maxModelAge in
           if isFile stats && isRecent then
             let* now' := Date_now in
             let* _ := modify (fun w =>
               set_cacheIndex
                 (JsMap.set modelName
                    (ModelCacheEntry.mk (ModelCacheEntry.path cacheEntry) now'
                       (ModelCacheEntry.size cacheEntry)
                       (ModelCacheEntry.version cacheEntry))
                    (cacheIndex w)) w) in
             let* _ := saveCacheIndex in
             ret (Some (ModelCacheEntry.path cacheEntry))
           else ret None)
          (fun _ =>
             let* _ := modify (fun w => set_cacheIndex (JsMap.delete modelName (cacheIndex w)) w) in
             let* _ := saveCacheIndex in
             ret None) in
      ret hit
  end.

Fixpoint unlinkAll (entries : CacheIndex) : M unit :=
  match entries with
  | [] => ret tt
  | (_, entry) :: entries' =>
      let* _ := try_catch (fs_unlink (ModelCacheEntry.path entry)) (fun _ => ret tt) in
      unlinkAll entries'
  end.

Definition clearCache : M unit :=
  try_catch
    (let* entries := gets cacheIndex in
     let* _ := unlinkAll entries in
     let* _ := modify (set_cacheIndex []) in
     let* _ := saveCacheIndex in
     logger info "Model cache cleared completely")
    (fun _ => logger error "Failed to clear model cache").

Section Managers.
Context {P : Platform}.

Definition cacheDir : string := path_join cwd "model-cache".

Definition initializeCacheDirectory : M unit :=
  try_catch
    (let* _ := fs_mkdir cacheDir in loadCacheIndex)
    (fun _ =>
       let* _ := logger error "Failed to initialize model cache" in
       throw "Model cache initialization failed").

(** [path.join(cacheDir, `${hash}-${path.basename(modelPath)}`)] with
    [hash] the digest of [`${modelName}-${version}`]. *)
Definition cachedPathOf (modelName modelPath version : string) : string :=
  path_join cacheDir
    (sha256_hex (modelName +:+ "-" +:+ version) +:+ "-" +:+ path_basename modelPath).

Definition cacheModel (modelName modelPath version : string) : M string :=
  try_catch
    (let* stats := fs_stat modelPath in
     let cachedModelPath := cachedPathOf modelName modelPath version in
     let* _ := fs_copyFile modelPath cachedModelPath in
     let* now := Date_now in
     let cacheEntry := ModelCacheEntry.mk cachedModelPath now (stat_size stats) version in
     let* _ := modify (fun w =>
       set_cacheIndex (JsMap.set modelName cacheEntry (cacheIndex w)) w) in
     let* _ := saveCacheIndex in
     let* _ := manageCacheSize in
     ret cachedModelPath)
    (fun _ =>
       let* _ := logger error "Model caching failed" in
       throw "Model caching failed").
End Managers.

(** ** ModelConfigManager (ml-config.ts) *)

(** The pair [{ total, available }] the body of [getDiskSpace] returns:
    1 TB and 500 GB, in bytes. *)
Definition placeholderDiskSpace : Z * Z :=
  (1000 * 1024 * 1024 * 1024, 500 * 1024 * 1024 * 1024).

(** [getDiskSpace] is a placeholder: it probes nothing and resolves with
    the same pair at every call. *)
Definition getDiskSpace : M (Z * Z) := ret placeholderDiskSpace.

Definition checkDiskSpace (requiredSpace : Z) : M bool :=
  try_catch
    (let* space := getDiskSpace in
     ret (snd space >? requiredSpace))
    (fun _ => ret false).

Definition verifyModelChecksum (filePath expectedChecksum : string) : M bool :=
  try_catch
    (let* fileBuffer := fs_readFile filePath in
     ret (String.eqb (blob_sha256 fileBuffer) expectedChecksum))
    (fun _ =>
       let* _ := logger error "Checksum verification failed" in
       ret false).

(** A value of type [string | null] in a condition. *)
Definition truthy_path (p : option string) : bool :=
  match p with
  | Some s => truthy s
  | None => false
  end.

(** [modelConfig.localPath = p] on the object [configs.find] returned: the
    object is the one held in [this.modelConfigs], so the catalog changes. *)
Fixpoint assignLocalPath (modelType : ModelType) (p : string)
    (configs : list ModelConfig.t) : list ModelConfig.t :=
  match configs with
  | [] => []
  | c :: configs' =>
      if ModelType_eqb (ModelConfig.type c) modelType
      then ModelConfig.with_localPath p c :: configs'
      else c :: assignLocalPath modelType p configs'
  end.

Section ConfigManager.
Context {P : Platform}.

Definition modelsDir : string := path_join cwd "models".

Definition initializeModelDirectory : M unit :=
  try_catch
    (let* _ := fs_mkdir modelsDir in initializeCacheDirectory)
    (fun _ =>
       let* _ := logger error "Failed to create models directory" in
       throw "Model directory initialization failed").

Definition catalog : list ModelConfig.t :=
  [ ModelConfig.mk "whisper-small" transcription
      "https://huggingface.co/ggerganov/whisper.cpp/resolve/main/ggml-small.bin"
      "" (path_join modelsDir "whisper-small.bin") "1.0.0" (500 * 1024 * 1024);
    ModelConfig.mk "distilbart-summarization" summarization
      "https://huggingface.co/facebook/bart-large-cnn/resolve/main/pytorch_model.bin"
      "" (path_join modelsDir "summarization-model.bin") "1.0.0" (1024 * 1024 * 1024) ].

Definition getModelConfigs : M (list ModelConfig.t) :=
  let* configs := gets modelConfigs in
  if (0 <? length configs)%nat then ret configs
  else
    let* _ := initializeModelDirectory in
    let* _ := modify (set_modelConfigs catalog) in
    ret catalog.

(** The five-minute [AbortController] timer shows as a [Rejected] fetch
    or a body that fails; the inner [catch] only clears the timer and
    rethrows. *)
Definition downloadModel (config : ModelConfig.t) : M (option string) :=
  try_catch
    (let* hasEnoughSpace := checkDiskSpace (ModelConfig.requiredDiskSpace config) in
     if negb hasEnoughSpace then
       let* _ := logger error "Insufficient disk space for model download" in
       ret None
     else
       let* cachedModelPath := getModelFromCache (ModelConfig.name config) in
       if truthy_path cachedModelPath then ret cachedModelPath
       else
         let* _ := logger info "Downloading model" in
         try_catch
           (let* response := fetch (ModelConfig.url config) in
            if negb (fst (fst response)) then
              throw ("Download failed: " +:+ snd (fst response))
            else
              let* modelData := arrayBuffer (snd response) in
              let* _ := fs_writeFile (ModelConfig.localPath config) modelData in
              let* cached := cacheModel (ModelConfig.name config)
                               (ModelConfig.localPath config)
                               (ModelConfig.version config) in
              ret (Some cached))
           (fun fetchError => throw fetchError))
    (fun _ =>
       let* _ := logger error "Model download failed" in
       ret None).

Definition ensureModelAvailable (modelType : ModelType) : M (option ModelConfig.t) :=
  try_catch
    (let* configs := getModelConfigs in
     match find (fun config => ModelType_eqb (ModelConfig.type config) modelType) configs with
     | None =>
         let* _ := logger warn "No model configuration found" in
         ret None
     | Some modelConfig =>
         let* cachedModelPath := getModelFromCache (ModelConfig.name modelConfig) in
         if truthy_path cachedModelPath then
           let cachedPath := default "" cachedModelPath in
           let* _ := modify (fun w =>
             set_modelConfigs (assignLocalPath modelType cachedPath (modelConfigs w)) w) in
           ret (Some (ModelConfig.with_localPath cachedPath modelConfig))
         else
           let cacheExisting :=
             let* cached := cacheModel (ModelConfig.name modelConfig)
                              (ModelConfig.localPath modelConfig)
                              (ModelConfig.version modelConfig) in
             ret (if truthy cached then Some modelConfig else None) in
           try_catch
             (let* _ := fs_access (ModelConfig.localPath modelConfig) in
              if truthy (ModelConfig.checksum modelConfig) then
                let* checksumValid :=
                  verifyModelChecksum (ModelConfig.localPath modelConfig)
                    (ModelConfig.checksum modelConfig) in
                if negb checksumValid then
                  let* _ := logger warn "Model checksum invalid, re-downloading" in
                  ret None
                else cacheExisting
              else cacheExisting)
             (fun _ =>
                let* downloadedModelPath := downloadModel modelConfig in
                if truthy_path downloadedModelPath then
                  let downloadedPath := default "" downloadedModelPath in
                  let* _ := modify (fun w =>
                    set_modelConfigs
                      (assignLocalPath modelType downloadedPath (modelConfigs w)) w) in
                  ret (Some (ModelConfig.with_localPath downloadedPath modelConfig))
                else ret None)
     end)
    (fun _ =>
       let* _ := logger error "Model availability check failed" in
       ret None).
End ConfigManager.

(** ** MLModelManager.downloadModels (ml-models.ts) *)

Section ModelManager.
Context {P : Platform}.

(** [for (const config of configs) await ensureModelAvailable(config.type)]:
    the array is the catalog itself, of which [ensureModelAvailable] only
    ever reassigns [localPath] fields, so the types met are those of the
    list the loop started with. *)
Fixpoint ensureEach (configs : list ModelConfig.t) : M unit :=
  match configs with
  | [] => ret tt
  | config :: configs' =>
      let* _ := ensureModelAvailable (ModelConfig.type config) in
      ensureEach configs'
  end.

(** The [ModelError] thrown is represented by its message. *)
Definition downloadModels : M unit :=
  try_catch
    (let* configs := getModelConfigs in
     let* _ := ensureEach configs in
     logger info "All models downloaded and prepared")
    (fun _ =>
       let* _ := logger error "Model download process failed" in
       throw "Failed to prepare ML models").
End ModelManager.

(** ** Upload pipeline (audio-processor.ts, ml-service.ts) *)

(** The characters the class [[a-zA-Z0-9.-]] accepts. *)
Definition isSafeChar (c : ascii) : bool :=
  let n := nat_of_ascii c in
  ((97 <=? n) && (n <=? 122) || (65 <=? n) && (n <=? 90) ||
   (48 <=? n) && (n <=? 57) || (n =? 46) || (n =? 45))%nat.

(** [name.replace(/[^a-zA-Z0-9.-]/g, '_')], character by character. *)
Fixpoint sanitizeFileName (name : string) : string :=
  match name with
  | EmptyString => EmptyString
  | String c name' =>
      String (if isSafeChar c then c else "_"%char) (sanitizeFileName name')
  end.

(** An uploaded [File]: its name and its bytes. *)
Record UploadedFile : Type := mkUpload { upload_name : string; upload_data : Blob }.

Module TranscriptionOutcome.
Record t : Type := mk {
  transcription : string;
  summary : string;
  processingTime : Z
}.
End TranscriptionOutcome.

Definition MOCK_TRANSCRIPTION : string := "This is a mock transcription of the audio file.".

Definition MOCK_SUMMARY : string := "A brief summary of the transcribed text.".

(** The mocks of ml-service.ts resolve with constants after a delay. *)
Definition transcribeAudio (audioPath : string) : M string := ret MOCK_TRANSCRIPTION.

Definition summarizeText (text : string) : M string := ret MOCK_SUMMARY.

Fixpoint cleanupTempFiles (tempFiles : list string) : M unit :=
  match tempFiles with
  | [] => ret tt
  | file :: tempFiles' =>
      let* _ :=
        try_catch
          (let* _ := fs_unlink file in
           logger info "Temporary file deleted")
          (fun _ => logger warn "Failed to delete temporary file") in
      cleanupTempFiles tempFiles'
  end.

Section UploadPipeline.
Context {P : Platform}.

Definition uploadsDir : string := path_join cwd "uploads".

(** [path.join(uploadsDir, `${Date.now()}_${sanitizedFileName}`)]. *)
Definition uploadPathOf (now : Z) (name : string) : string :=
  path_join uploadsDir (pretty now +:+ "_" +:+ sanitizeFileName name).

Definition processAudioFile (audioFile : UploadedFile) : M string :=
  try_catch
    (let* _ := fs_mkdir uploadsDir in
     let* now := Date_now in
     let filePath := uploadPathOf now (upload_name audioFile) in
     let* _ := logger info "Processing audio file" in
     let* _ := fs_writeFile filePath (upload_data audioFile) in
     ret filePath)
    (fun _ =>
       let* _ := logger error "Failed to process audio file" in
       throw "File processing failed").

(** The [catch] block of [handleAudioTranscription], [tempFiles] being
    what the [try] block has pushed so far. *)
Definition audioProcessingFailed {A : Type} (tempFiles : list string)
    (message : string) : M A :=
  let* _ := cleanupTempFiles tempFiles in
  let* _ := logger error "Audio processing failed" in
  throw message.

(** One [try]: [tempFiles] is empty while [processAudioFile] runs and
    holds the saved path afterwards. *)
Definition handleAudioTranscription (audioFile : UploadedFile)
    : M TranscriptionOutcome.t :=
  let* originalPath :=
    try_catch (processAudioFile audioFile) (audioProcessingFailed []) in
  try_catch
    (let* transcription := transcribeAudio originalPath in
     let* summary := summarizeText transcription in
     let* _ := cleanupTempFiles [originalPath] in
     let* now := Date_now in
     ret (TranscriptionOutcome.mk transcription summary now))
    (audioProcessingFailed [originalPath]).
End UploadPipeline.

(** ** Decidable equality of index entries *)

#[global] Instance ModelCacheEntry_eq_dec : EqDecision ModelCacheEntry.t.
Proof. solve_decision. Defined.

(** ** Vocabulary of the statements *)

Definition entryKey (x : string * ModelCacheEntry.t) : string := fst x.
Definition entryPath (x : string * ModelCacheEntry.t) : string := ModelCacheEntry.path (snd x).
Definition entrySize (x : string * ModelCacheEntry.t) : Z := ModelCacheEntry.size (snd x).
Definition entryTime (x : string * ModelCacheEntry.t) : Z := ModelCacheEntry.lastUsed (snd x).

(** [a] is at least as old as [b]. *)
Definition olderEq (a b : string * ModelCacheEntry.t) : Prop := entryTime a <= entryTime b.

(** The invariant of a [Map]: one entry per key. *)
Definition uniqueKeys (m : CacheIndex) : Prop := NoDup (JsMap.keys m).

(** The world after one successful eviction: file unlinked, entry deleted. *)
Definition evictedWorld (x : string * ModelCacheEntry.t) (w : World) : World :=
  set_cacheIndex (JsMap.delete (entryKey x) (cacheIndex w))
    (set_files (delete (entryPath x) (files w)) w).

(** The world after one failed eviction: a warning, nothing else. *)
Definition skippedWorld (w : World) : World :=
  add_event (Log warn "Failed to remove old cache entry") w.

(** What holds each time the [while] condition of the sweep is tested:
    the entries still queued are entries of the index, and the running
    total is the total of the index. *)
Definition sweepInv (queued : CacheIndex) (currentCacheSize : Z) (w : World) : Prop :=
  uniqueKeys queued ∧ uniqueKeys (cacheIndex w) ∧
  (∀ x, x ∈ queued → x ∈ cacheIndex w) ∧
  currentCacheSize = totalSize (cacheIndex w).

(** The world [manageCacheSize] hands to [saveCacheIndex]. *)
Definition sweptWorld (w : World) : World :=
  snd (evictWhile (sortByLastUsed (cacheIndex w))
         (totalSize (sortByLastUsed (cacheIndex w))) w).

(** Every file of the entries [l] is there and may be unlinked, and no two
    entries share a file. *)
Definition allUnlinkable (w : World) (l : CacheIndex) : Prop :=
  NoDup (map entryPath l) ∧ Forall (fun x => canUnlink w (entryPath x) = true) l.

(** The index without the entries whose keys are those of [evicted]. *)
Definition withoutEvicted (evicted index : CacheIndex) : CacheIndex :=
  filter (fun x => entryKey x ∉ map entryKey evicted) index.

(** The world after a lookup found its file missing: entry deleted, index
    saved. *)
Definition purgedWorld (modelName : string) (w : World) : World :=
  snd (saveCacheIndex (set_cacheIndex (JsMap.delete modelName (cacheIndex w)) w)).

(** The world after a cache hit: two readings of the clock, the second one
    stored as [lastUsed], index saved. *)
Definition touchedWorld (modelName : string) (e : ModelCacheEntry.t) (w : World) : World :=
  snd (saveCacheIndex
         (set_cacheIndex
            (JsMap.set modelName
               (ModelCacheEntry.mk (ModelCacheEntry.path e) (clock (env w) (S (ticks w)))
                  (ModelCacheEntry.size e) (ModelCacheEntry.version e))
               (cacheIndex w))
            (set_ticks (S (S (ticks w))) w))).

(** A computation that leaves the observation [f] of the world alone. *)
Definition preserves {X A : Type} (f : World → X) (m : M A) : Prop :=
  ∀ w, f (snd (m w)) = f w.

(** Observations that ignore the managers' own state and the log. *)
Definition ignoresBookkeeping {X : Type} (f : World → X) : Prop :=
  (∀ w i, f (set_cacheIndex i w) = f w) ∧
  (∀ w i, f (set_indexFile i w) = f w) ∧
  (∀ w n, f (set_ticks n w) = f w) ∧
  (∀ w c, f (set_modelConfigs c w) = f w) ∧
  (∀ w lvl e, f (add_event (Log lvl e) w) = f w).

(** Observations that ignore the file system. *)
Definition ignoresFiles {X : Type} (f : World → X) : Prop :=
  ∀ w g, f (set_files g w) = f w.

(** Whether [checkDiskSpace] answers [true]. *)
Definition enoughSpace (w : World) (requiredSpace : Z) : bool :=
  match fst (checkDiskSpace requiredSpace w) with
  | Ok hasEnoughSpace => hasEnoughSpace
  | Throw _ => false
  end.

(** What a lookup answers. *)
Definition cachedPathAt (modelName : string) (w : World) : option string :=
  match fst (getModelFromCache modelName w) with
  | Ok p => p
  | Throw _ => None
  end.

(** The world after [logger.error('Model download failed', ...)]. *)
Definition downloadFailedWorld (w : World) : World :=
  add_event (Log error "Model download failed") w.

(** The ways a transfer fails once [fetch] has been called: the request is
    rejected (network down, or aborted by the timer), the status is not a
    success, the body does not arrive, or the file cannot be written. *)
Definition transferFails (w : World) (config : ModelConfig.t) : Prop :=
  match network (env w) (ModelConfig.url config) with
  | Rejected _ => True
  | Resolved false _ _ => True
  | Resolved true _ None => True
  | Resolved true _ (Some _) => canWrite w (ModelConfig.localPath config) = false
  end.

(** Whether [fs.mkdir(p, { recursive: true })] would succeed. *)
Definition canMkdir (w : World) (p : string) : bool :=
  match files w !! p with
  | Some Dir => true
  | Some (File _) => false
  | None => bool_decide (p ∉ denyWrite (env w))
  end.

(** A computation that never throws. *)
Definition total {A : Type} (m : M A) : Prop :=
  ∀ w, ∃ a, fst (m w) = Ok a.

(** Requests put on the network. *)
Definition fetchesOf (t : list Event) : list string :=
  omap (fun e => match e with Fetch u => Some u | Log _ _ => None end) t.

(** The requests made so far. *)
Definition fetched (w : World) : list string := fetchesOf (trace w).

Section InsertionVocabulary.
Context {P : Platform}.

(** The world [cacheModel] has built when it calls [manageCacheSize]:
    file copied, clock read, entry set, index saved. *)
Definition insertedWorld (modelName modelPath version : string) (b : Blob)
    (w : World) : World :=
  let cachedModelPath := cachedPathOf modelName modelPath version in
  let copied := set_files (<[cachedModelPath := File b]> (files w)) w in
  let cacheEntry :=
    ModelCacheEntry.mk cachedModelPath (clock (env w) (ticks w)) (blob_size b) version in
  snd (saveCacheIndex
         (set_cacheIndex (JsMap.set modelName cacheEntry (cacheIndex w))
            (set_ticks (S (ticks w)) copied))).
End InsertionVocabulary.

Section OrchestratorVocabulary.
Context {P : Platform}.

(** The statements of [ensureModelAvailable] that follow the cache miss:
    the inner [try] on the local file and its [catch]. *)
Definition ensureAfterMiss (modelType : ModelType) (modelConfig : ModelConfig.t)
    : M (option ModelConfig.t) :=
  let cacheExisting :=
    let* cached := cacheModel (ModelConfig.name modelConfig)
                     (ModelConfig.localPath modelConfig)
                     (ModelConfig.version modelConfig) in
    ret (if truthy cached then Some modelConfig else None) in
  try_catch
    (let* _ := fs_access (ModelConfig.localPath modelConfig) in
     if truthy (ModelConfig.checksum modelConfig) then
       let* checksumValid :=
         verifyModelChecksum (ModelConfig.localPath modelConfig)
           (ModelConfig.checksum modelConfig) in
       if negb checksumValid then
         let* _ := logger warn "Model checksum invalid, re-downloading" in
         ret None
       else cacheExisting
     else cacheExisting)
    (fun _ =>
       let* downloadedModelPath := downloadModel modelConfig in
       if truthy_path downloadedModelPath then
         let downloadedPath := default "" downloadedModelPath in
         let* _ := modify (fun w =>
           set_modelConfigs
             (assignLocalPath modelType downloadedPath (modelConfigs w)) w) in
         ret (Some (ModelConfig.with_localPath downloadedPath modelConfig))
       else ret None).

(** The world [downloadModel] hands to [cacheModel]: the request logged
    and sent, the body written to [localPath]. *)
Definition downloadedWorld (config : ModelConfig.t) (modelData : Blob) (w : World)
    : World :=
  set_files (<[ModelConfig.localPath config := File modelData]> (files w))
    (add_event (Fetch (ModelConfig.url config))
       (add_event (Log info "Downloading model") w)).
End OrchestratorVocabulary.

Section UploadVocabulary.
Context {P : Platform}.

(** The world once [processAudioFile] has made sure of the uploads
    directory. *)
Definition uploadsReady (w : World) : World := snd (fs_mkdir uploadsDir w).

(** The path [processAudioFile] saves an upload at when called in [w]. *)
Definition savedPath (audioFile : UploadedFile) (w : World) : string :=
  uploadPathOf (clock (env w) (ticks w)) (upload_name audioFile).

(** Whether [processAudioFile] can save the upload. *)
Definition canSave (audioFile : UploadedFile) (w : World) : bool :=
  canMkdir w uploadsDir && canWrite (uploadsReady w) (savedPath audioFile w).
End UploadVocabulary.

(** The characters of a string. *)
Fixpoint chars (s : string) : list ascii :=
  match s with
  | EmptyString => []
  | String c s' => c :: chars s'
  end.

(** ** Sample worlds *)

Definition GiB : Z := 1024 * 1024 * 1024.

Definition sampleEnv : Env :=
  mkEnv ∅ ∅ true (fun n => 1000 + Z.of_nat n) (fun _ => Rejected "offline").

Definition sampleEntry (p : string) (t s : Z) : ModelCacheEntry.t :=
  ModelCacheEntry.mk p t s "1.0.0".

Definition sampleFile (s : Z) : Node := File (mkBlob s "digest").

(** Four cached models of 5 GiB each, all files in place. *)
Definition lruIndex : CacheIndex :=
  [ ("a", sampleEntry "/cache/a" 30 (5 * GiB));
    ("b", sampleEntry "/cache/b" 10 (5 * GiB));
    ("c", sampleEntry "/cache/c" 20 (5 * GiB));
    ("d", sampleEntry "/cache/d" 40 (5 * GiB)) ].

Definition lruFiles : gmap string Node :=
  <["/cache/a" := sampleFile (5 * GiB)]>
    (<["/cache/b" := sampleFile (5 * GiB)]>
      (<["/cache/c" := sampleFile (5 * GiB)]>
        (<["/cache/d" := sampleFile (5 * GiB)]> ∅))).

Definition lruWorld : World :=
  mkWorld sampleEnv lruFiles None lruIndex [] 0 [].

(** A platform to run the managers on: POSIX-like joins and base names,
    and a stand-in for the digest of a string. *)
Fixpoint basenameFrom (last rest : string) : string :=
  match rest with
  | EmptyString => last
  | String c rest' =>
      if Ascii.eqb c "/"%char then basenameFrom "" rest'
      else basenameFrom (last +:+ String c "") rest'
  end.

Definition samplePlatform : Platform := {|
  cwd := "/app";
  path_join := fun a b => a +:+ "/" +:+ b;
  path_basename := basenameFrom "";
  sha256_hex := fun s => "sha256(" +:+ s +:+ ")"
|}.

(** Three cached models of 5 GiB each and a fourth model file of 5 GiB
    waiting to be cached. *)
Definition threeIndex : CacheIndex :=
  [ ("a", sampleEntry "/cache/a" 30 (5 * GiB));
    ("b", sampleEntry "/cache/b" 10 (5 * GiB));
    ("c", sampleEntry "/cache/c" 20 (5 * GiB)) ].

Definition threeWorld : World :=
  mkWorld sampleEnv
    (<["/cache/a" := sampleFile (5 * GiB)]>
      (<["/cache/b" := sampleFile (5 * GiB)]>
        (<["/cache/c" := sampleFile (5 * GiB)]>
          (<["/models/d.bin" := sampleFile (5 * GiB)]> ∅))))
    None threeIndex [] 0 [].

(** The same, the file of the oldest entry ["b"] having been removed
    behind the manager's back. *)
Definition staleWorld : World :=
  mkWorld sampleEnv
    (<["/cache/a" := sampleFile (5 * GiB)]>
      (<["/cache/c" := sampleFile (5 * GiB)]>
        (<["/models/d.bin" := sampleFile (5 * GiB)]> ∅)))
    None threeIndex [] 0 [].

(** One small cached model, its file in place, last used at time 0 and
    looked up thirty-one days later. *)
Definition expiredEntry : ModelCacheEntry.t := sampleEntry "/cache/m" 0 1024.

Definition expiredWorld : World :=
  mkWorld
    (mkEnv ∅ ∅ true (fun n => 31 * 24 * 60 * 60 * 1000 + Z.of_nat n)
       (fun _ => Rejected "offline"))
    (<["/cache/m" := sampleFile 1024]> ∅)
    (Some [("m", expiredEntry)]) [("m", expiredEntry)] [] 0 [].




(** An empty cache, and a server that answers 404. *)
Definition notFoundWorld : World :=
  mkWorld
    (mkEnv ∅ ∅ true (fun n => 1000 + Z.of_nat n)
       (fun _ => Resolved false "Not Found" None))
    ∅ None [] [] 0 [].

Definition whisperConfig : ModelConfig.t :=
  ModelConfig.mk "whisper-small" transcription
    "https://huggingface.co/ggerganov/whisper.cpp/resolve/main/ggml-small.bin"
    "" "/app/models/whisper-small.bin" "1.0.0" (500 * 1024 * 1024).

(** A fresh process (no catalog loaded, nothing cached, no model file)
    and a server that answers. *)
Definition roomyWorld : World :=
  mkWorld
    (mkEnv ∅ ∅ true (fun n => 1000 + Z.of_nat n)
       (fun _ => Resolved true "OK" (Some (mkBlob (400 * 1024 * 1024) "digest"))))
    ∅ None [] [] 0 [].

(** [roomyWorld] once the catalog has been loaded. *)
Definition roomyLoaded : World := snd (getModelConfigs (P := samplePlatform) roomyWorld).

(** A catalog whose transcription model declares 600 GiB, more than
    [getDiskSpace] reports, with a server that would answer. *)
Definition hungryConfig : ModelConfig.t :=
  ModelConfig.mk "hungry" transcription "https://example.org/hungry.bin"
    "" "/app/models/hungry.bin" "1.0.0" (600 * 1024 * 1024 * 1024).

Definition hungryWorld : World :=
  mkWorld
    (mkEnv ∅ ∅ true (fun n => 1000 + Z.of_nat n)
       (fun _ => Resolved true "OK" (Some (mkBlob 1024 "digest"))))
    ∅ None [] [hungryConfig] 0 [].

(** A catalog whose transcription model declares a checksum, and a local
    file with another digest. *)
Definition checkedConfig : ModelConfig.t :=
  ModelConfig.mk "whisper-small" transcription "https://example.org/whisper.bin"
    "0123abcd" "/app/models/whisper-small.bin" "1.0.0" (500 * 1024 * 1024).

Definition corruptWorld : World :=
  mkWorld
    (mkEnv ∅ ∅ true (fun n => 1000 + Z.of_nat n)
       (fun _ => Resolved true "OK" (Some (mkBlob 1024 "0123abcd"))))
    (<["/app/models/whisper-small.bin" := File (mkBlob 1024 "ffff0000")]> ∅)
    None [] [checkedConfig] 0 [].

(** A fresh process in which a regular file sits where the models
    directory should be. *)
Definition blockedWorld : World :=
  mkWorld sampleEnv (<["/app/models" := sampleFile 1]> ∅) None [] [] 0 [].

(** One cached model and a small model file waiting to be cached. *)
Definition quietWorld : World :=
  mkWorld sampleEnv
    (<["/cache/m" := sampleFile 1024]> (<["/models/s.bin" := sampleFile 2048]> ∅))
    None [("m", expiredEntry)] [] 0 [].

(** [roomyWorld] with the catalog loaded and ["whisper-small"] cached. *)
Definition warmWorld : World :=
  snd (ensureModelAvailable (P := samplePlatform) transcription roomyWorld).

(** The catalog loaded, the model file of ["whisper-small"] in place and
    nothing cached. *)
Definition localWorld : World :=
  mkWorld sampleEnv
    (<["/app/models/whisper-small.bin" := sampleFile 4096]> ∅)
    None [] (catalog (P := samplePlatform)) 0 [].

(** The same with the cache path of ["whisper-small"] write-protected and
    a server that answers. *)
Definition protectedWorld : World :=
  mkWorld
    (mkEnv ∅ {["/app/model-cache/sha256(whisper-small-1.0.0)-whisper-small.bin"]} true
       (fun n => 1000 + Z.of_nat n)
       (fun _ => Resolved true "OK" (Some (mkBlob 8192 "fresh"))))
    (<["/app/models/whisper-small.bin" := sampleFile 4096]> ∅)
    None [] (catalog (P := samplePlatform)) 0 [].

(** A fresh process without network. *)
Definition offlineWorld : World := mkWorld sampleEnv ∅ None [] [] 0 [].

(** An upload whose name has a space, a slash and a question mark. *)
Definition sampleUpload : UploadedFile :=
  mkUpload "my talk/1?.mp3" (mkBlob 100 "audio").

(** [offlineWorld] in which nothing under the uploads directory may be
    unlinked. *)
Definition stickyWorld : World :=
  mkWorld
    (mkEnv {["/app/uploads/1000_my_talk_1_.mp3"]} ∅ true (fun n => 1000 + Z.of_nat n)
       (fun _ => Rejected "offline"))
    ∅ None [] [] 0 [].

(** One cached model of 11 GiB whose file was removed behind the manager's
    back. *)
Definition stuckEntry : string * ModelCacheEntry.t :=
  ("big", sampleEntry "/cache/big" 10 (11 * GiB)).

Definition stuckWorld : World :=
  mkWorld sampleEnv ∅ None [stuckEntry] [] 0 [].

(** Two cached models of 6 GiB each, last used at the same instant, ["b"]
    inserted before ["a"]. *)
Definition tieIndex : CacheIndex :=
  [ ("b", sampleEntry "/cache/b" 10 (6 * GiB));
    ("a", sampleEntry "/cache/a" 10 (6 * GiB)) ].

Definition tieWorld : World :=
  mkWorld sampleEnv
    (<["/cache/a" := sampleFile (6 * GiB)]> (<["/cache/b" := sampleFile (6 * GiB)]> ∅))
    None tieIndex [] 0 [].

(** ** The model at work *)

(** The eviction sweep over four entries of 5 GiB keeps the two used last
    and unlinks the files of the other two. *)
Example manageCacheSize_lruWorld :
  map entryKey (sortByLastUsed (cacheIndex lruWorld)) = ["b"; "c"; "a"; "d"] ∧
  fst (manageCacheSize lruWorld) = Ok tt ∧
  map entryKey (cacheIndex (snd (manageCacheSize lruWorld))) = ["a"; "d"] ∧
  map fst (map_to_list (files (snd (manageCacheSize lruWorld)))) ≡ₚ ["/cache/a"; "/cache/d"] ∧
  totalSize (cacheIndex (snd (manageCacheSize lruWorld))) = 10 * GiB.
Proof. repeat split; vm_compute; reflexivity. Qed.

(** A fresh process with room on the disk and a server that answers:
    the model is downloaded to [localPath], copied into the cache and
    indexed, and the descriptor comes back with the cached path. *)
Example ensureModelAvailable_fresh :
  fst (ensureModelAvailable (P := samplePlatform) transcription roomyWorld)
  = Ok (Some (ModelConfig.with_localPath
                "/app/model-cache/sha256(whisper-small-1.0.0)-whisper-small.bin"
                whisperConfig)) ∧
  cacheIndex (snd (ensureModelAvailable (P := samplePlatform) transcription roomyWorld))
  = [("whisper-small",
      ModelCacheEntry.mk "/app/model-cache/sha256(whisper-small-1.0.0)-whisper-small.bin"
        1000 (400 * 1024 * 1024) "1.0.0")] ∧
  fetched (snd (ensureModelAvailable (P := samplePlatform) transcription roomyWorld))
  = ["https://huggingface.co/ggerganov/whisper.cpp/resolve/main/ggml-small.bin"] ∧
  files (snd (ensureModelAvailable (P := samplePlatform) transcription roomyWorld))
    !! "/app/models/whisper-small.bin"
  = Some (File (mkBlob (400 * 1024 * 1024) "digest")).
Proof. repeat split; vm_compute; reflexivity. Qed.

(** A cache hit refreshes [lastUsed] with the second reading of the clock
    and keeps the entry at its place in the index. *)
Example getModelFromCache_hit_lruWorld :
  fst (getModelFromCache "b" lruWorld) = Ok (Some "/cache/b") ∧
  map (fun x => (entryKey x, entryTime x))
    (cacheIndex (snd (getModelFromCache "b" lruWorld)))
  = [("a", 30); ("b", 1001); ("c", 20); ("d", 40)].
Proof. repeat split; vm_compute; reflexivity. Qed.

(** [clearCache] empties the index and unlinks every cached file. *)
Example clearCache_lruWorld :
  fst (clearCache lruWorld) = Ok tt ∧
  cacheIndex (snd (clearCache lruWorld)) = [] ∧
  indexFile (snd (clearCache lruWorld)) = Some [] ∧
  map_to_list (files (snd (clearCache lruWorld))) = [].
Proof. repeat split; vm_compute; reflexivity. Qed.

(** ** Facts about [JsMap] *)

Lemma JsMap_delete_filter {V} (k : string) (m : list (string * V)) :
  JsMap.delete k m = filter (fun x => fst x ≠ k) m.
Proof.
  induction m as [|[k' v] m IH]; simpl; [done|].
  destruct (String.eqb_spec k k') as [->|Hne].
  - rewrite filter_cons_False; [done | simpl; auto].
  - rewrite filter_cons_True; [by rewrite IH | simpl; auto].
Qed.

Lemma JsMap_elem_of_delete {V} (k : string) (m : list (string * V)) x :
  x ∈ JsMap.delete k m ↔ x ∈ m ∧ fst x ≠ k.
Proof. rewrite JsMap_delete_filter, list_elem_of_filter. tauto. Qed.

Lemma JsMap_delete_fresh {V} (k : string) (m : list (string * V)) :
  k ∉ JsMap.keys m → JsMap.delete k m = m.
Proof.
  induction m as [|[k' v] m IH]; simpl; [done|].
  rewrite not_elem_of_cons. intros [Hne Hm].
  destruct (String.eqb_spec k k'); [done|]. by rewrite IH.
Qed.

Lemma JsMap_keys_delete {V} (k k' : string) (m : list (string * V)) :
  k' ∈ JsMap.keys (JsMap.delete k m) ↔ k' ∈ JsMap.keys m ∧ k' ≠ k.
Proof.
  unfold JsMap.keys. rewrite !list_elem_of_fmap. split.
  - intros [x [-> Hx]]. apply JsMap_elem_of_delete in Hx as [Hx Hne]. eauto.
  - intros [[x [-> Hx]] Hne]. exists x. split; [done|].
    by apply JsMap_elem_of_delete.
Qed.

Lemma uniqueKeys_delete (k : string) (m : CacheIndex) :
  uniqueKeys m → uniqueKeys (JsMap.delete k m).
Proof.
  unfold uniqueKeys. induction m as [|[k' v] m IH]; simpl; [done|].
  rewrite NoDup_cons. intros [Hk' Hm].
  destruct (String.eqb_spec k k'); [auto|].
  simpl. apply NoDup_cons. split; [|auto].
  rewrite JsMap_keys_delete. tauto.
Qed.

Lemma uniqueKeys_inj (m : CacheIndex) k e e' :
  uniqueKeys m → (k, e) ∈ m → (k, e') ∈ m → e = e'.
Proof.
  unfold uniqueKeys. induction m as [|[k' v] m IH]; simpl.
  - intros _ H. by apply elem_of_nil in H.
  - rewrite NoDup_cons, !elem_of_cons. intros [Hk' Hm] [H1|H1] [H2|H2].
    + congruence.
    + inversion H1; subst. exfalso. apply Hk'.
      apply list_elem_of_fmap. by exists (k', e').
    + inversion H2; subst. exfalso. apply Hk'.
      apply list_elem_of_fmap. by exists (k', e).
    + eauto.
Qed.


Lemma JsMap_get_elem_of {V} (k : string) (v : V) (m : list (string * V)) :
  JsMap.get k m = Some v → (k, v) ∈ m.
Proof.
  induction m as [|[k' v'] m IH]; simpl; [done|].
  destruct (String.eqb_spec k k') as [->|Hne].
  - intros [= ->]. apply elem_of_cons; auto.
  - intros H. apply elem_of_cons; auto.
Qed.


Lemma JsMap_get_delete_ne {V} (k k' : string) (m : list (string * V)) :
  k ≠ k' → JsMap.get k (JsMap.delete k' m) = JsMap.get k m.
Proof.
  intros Hne. induction m as [|[k0 v] m IH]; simpl; [done|].
  destruct (String.eqb_spec k' k0) as [->|Hne'].
  - destruct (String.eqb_spec k k0); [done | auto].
  - simpl. by rewrite IH.
Qed.

Lemma JsMap_keys_set {V} (k k' : string) (v : V) (m : list (string * V)) :
  k' ∈ JsMap.keys (JsMap.set k v m) ↔ k' = k ∨ k' ∈ JsMap.keys m.
Proof.
  induction m as [|[k0 v0] m IH]; simpl.
  - rewrite elem_of_cons. tauto.
  - destruct (String.eqb_spec k k0) as [->|Hne]; simpl; rewrite !elem_of_cons.
    + tauto.
    + rewrite IH. tauto.
Qed.

Lemma uniqueKeys_set (k : string) (e : ModelCacheEntry.t) (m : CacheIndex) :
  uniqueKeys m → uniqueKeys (JsMap.set k e m).
Proof.
  unfold uniqueKeys. induction m as [|[k0 v0] m IH]; simpl.
  - intros _. apply NoDup_singleton.
  - rewrite NoDup_cons. intros [Hk0 Hm].
    destruct (String.eqb_spec k k0) as [->|Hne]; simpl; apply NoDup_cons.
    + done.
    + split; [|auto]. rewrite JsMap_keys_set. intros [?|?]; [congruence | done].
Qed.

Lemma JsMap_get_set {V} (k : string) (v : V) (m : list (string * V)) :
  JsMap.get k (JsMap.set k v m) = Some v.
Proof.
  induction m as [|[k0 v0] m IH]; simpl.
  - by rewrite String.eqb_refl.
  - destruct (String.eqb_spec k k0) as [->|Hne]; simpl.
    + by rewrite String.eqb_refl.
    + by destruct (String.eqb_spec k k0).
Qed.

Lemma JsMap_set_fresh {V} (k : string) (v : V) (m : list (string * V)) :
  k ∉ JsMap.keys m → JsMap.set k v m = (m ++ [(k, v)])%list.
Proof.
  induction m as [|[k0 v0] m IH]; simpl; [done|].
  rewrite not_elem_of_cons. intros [Hne Hm].
  destruct (String.eqb_spec k k0); [done|]. by rewrite IH.
Qed.

(** ** Facts about [totalSize] *)

Lemma totalSize_acc (l : CacheIndex) (a : Z) :
  fold_left (fun total entry => total + ModelCacheEntry.size (snd entry)) l a
  = a + totalSize l.
Proof.
  unfold totalSize. revert a.
  induction l as [|x l IH]; intros a; simpl; [lia|].
  rewrite (IH (a + _)), (IH (0 + _)). lia.
Qed.

Lemma totalSize_nil : totalSize [] = 0.
Proof. reflexivity. Qed.

Lemma totalSize_cons (x : string * ModelCacheEntry.t) (l : CacheIndex) :
  totalSize (x :: l) = entrySize x + totalSize l.
Proof. unfold totalSize at 1. simpl. rewrite totalSize_acc. unfold entrySize. lia. Qed.

Lemma totalSize_app (l1 l2 : CacheIndex) :
  totalSize (l1 ++ l2) = totalSize l1 + totalSize l2.
Proof.
  induction l1 as [|x l1 IH]; simpl; [rewrite totalSize_nil; lia|].
  rewrite !totalSize_cons, IH. lia.
Qed.

Lemma totalSize_perm (l1 l2 : CacheIndex) :
  l1 ≡ₚ l2 → totalSize l1 = totalSize l2.
Proof.
  induction 1; rewrite ?totalSize_cons in *; lia.
Qed.

Lemma totalSize_delete (k : string) (e : ModelCacheEntry.t) (m : CacheIndex) :
  uniqueKeys m → (k, e) ∈ m →
  totalSize (JsMap.delete k m) = totalSize m - ModelCacheEntry.size e.
Proof.
  unfold uniqueKeys. induction m as [|[k' e'] m IH]; simpl.
  - intros _ H. by apply elem_of_nil in H.
  - rewrite NoDup_cons, elem_of_cons. intros [Hk' Hm] Hin.
    destruct (String.eqb_spec k k') as [->|Hne].
    + destruct Hin as [Heq|Hin].
      * inversion Heq; subst. rewrite JsMap_delete_fresh by done.
        rewrite totalSize_cons. unfold entrySize. simpl. lia.
      * exfalso. apply Hk'. apply list_elem_of_fmap. by exists (k', e).
    + destruct Hin as [Heq|Hin]; [congruence|].
      rewrite !totalSize_cons, IH by done. lia.
Qed.



Lemma totalSize_const (c : Z) (l : CacheIndex) :
  Forall (fun x => entrySize x = c) l → totalSize l = c * Z.of_nat (length l).
Proof.
  induction 1; [rewrite totalSize_nil; simpl; lia|].
  rewrite totalSize_cons. simpl length. lia.
Qed.

(** ** Facts about the sort *)

Lemma sort_insert_perm (x : string * ModelCacheEntry.t) (l : CacheIndex) :
  sort_insert x l ≡ₚ x :: l.
Proof.
  induction l as [|y l IH]; simpl; [done|].
  destruct (_ <=? _); [done|]. rewrite IH. apply Permutation_swap.
Qed.

Lemma sortByLastUsed_perm (l : CacheIndex) : sortByLastUsed l ≡ₚ l.
Proof.
  induction l as [|x l IH]; simpl; [done|].
  by rewrite sort_insert_perm, IH.
Qed.

Lemma sort_insert_sorted (x : string * ModelCacheEntry.t) (l : CacheIndex) :
  StronglySorted olderEq l → StronglySorted olderEq (sort_insert x l).
Proof.
  induction 1 as [|y l Hl IH Hy]; simpl.
  - constructor; [constructor | constructor].
  - destruct (Z.leb_spec (ModelCacheEntry.lastUsed (snd x))
                         (ModelCacheEntry.lastUsed (snd y))) as [Hle|Hlt].
    + constructor; [by constructor|].
      constructor; [exact Hle|].
      eapply Forall_impl; [exact Hy|].
      intros z Hz. unfold olderEq, entryTime in *. lia.
    + constructor; [done|].
      rewrite sort_insert_perm. constructor; [|done].
      unfold olderEq, entryTime. lia.
Qed.

Lemma sortByLastUsed_sorted (l : CacheIndex) :
  StronglySorted olderEq (sortByLastUsed l).
Proof.
  induction l as [|x l IH]; simpl; [constructor|].
  by apply sort_insert_sorted.
Qed.

(** Stability: entries of one age keep the order they had. *)
Lemma sort_insert_stable (t : Z) (x : string * ModelCacheEntry.t) (l : CacheIndex) :
  filter (fun y => entryTime y = t) (sort_insert x l)
  = filter (fun y => entryTime y = t) (x :: l).
Proof.
  induction l as [|y l IH]; simpl; [done|].
  destruct (Z.leb_spec (ModelCacheEntry.lastUsed (snd x))
                       (ModelCacheEntry.lastUsed (snd y))) as [Hle|Hlt]; [done|].
  rewrite (filter_cons _ y (sort_insert x l)), IH.
  rewrite (filter_cons _ x (y :: l)), (filter_cons _ x l), (filter_cons _ y l).
  unfold entryTime in *.
  repeat case_decide; try done; lia.
Qed.

Lemma sortByLastUsed_stable (t : Z) (l : CacheIndex) :
  filter (fun y => entryTime y = t) (sortByLastUsed l)
  = filter (fun y => entryTime y = t) l.
Proof.
  induction l as [|x l IH]; simpl; [done|].
  rewrite sort_insert_stable, !filter_cons, IH. done.
Qed.

Lemma sortByLastUsed_uniqueKeys (l : CacheIndex) :
  uniqueKeys l → uniqueKeys (sortByLastUsed l).
Proof.
  unfold uniqueKeys, JsMap.keys. by rewrite sortByLastUsed_perm.
Qed.

Lemma sortByLastUsed_elem_of (l : CacheIndex) x :
  x ∈ sortByLastUsed l ↔ x ∈ l.
Proof. by rewrite sortByLastUsed_perm. Qed.

(** ** The eviction loop, one iteration at a time *)

Lemma evictWhile_stop (l : CacheIndex) (cur : Z) (w : World) :
  l = [] ∨ cur <= maxCacheSize → evictWhile l cur w = (Ok tt, w).
Proof.
  intros [->|Hle]; [done|]. destruct l as [|[n e] l]; [done|]. simpl.
  destruct (Z.ltb_spec maxCacheSize cur); [lia | done].
Qed.

Lemma evictWhile_evict x (l : CacheIndex) (cur : Z) (w : World) :
  maxCacheSize < cur → canUnlink w (entryPath x) = true →
  evictWhile (x :: l) cur w = evictWhile l (cur - entrySize x) (evictedWorld x w).
Proof.
  intros Hgt Hcan. destruct x as [n e]. simpl.
  destruct (Z.ltb_spec maxCacheSize cur); [|lia].
  unfold bind at 1. unfold try_catch, bind, fs_unlink.
  unfold entryPath in Hcan. simpl in Hcan. by rewrite Hcan.
Qed.

Lemma evictWhile_skip x (l : CacheIndex) (cur : Z) (w : World) :
  maxCacheSize < cur → canUnlink w (entryPath x) = false →
  evictWhile (x :: l) cur w = evictWhile l cur (skippedWorld w).
Proof.
  intros Hgt Hcan. destruct x as [n e]. simpl.
  destruct (Z.ltb_spec maxCacheSize cur); [|lia].
  unfold bind at 1. unfold try_catch, bind, fs_unlink.
  unfold entryPath in Hcan. simpl in Hcan. by rewrite Hcan.
Qed.

(** Induction over the iterations of the loop. *)
Lemma evictWhile_invariant (I : CacheIndex → Z → World → Prop) (Q : World → Prop) :
  (∀ l cur w, I l cur w → l = [] ∨ cur <= maxCacheSize → Q w) →
  (∀ x l cur w, I (x :: l) cur w → maxCacheSize < cur →
     canUnlink w (entryPath x) = true → I l (cur - entrySize x) (evictedWorld x w)) →
  (∀ x l cur w, I (x :: l) cur w → maxCacheSize < cur →
     canUnlink w (entryPath x) = false → I l cur (skippedWorld w)) →
  ∀ l cur w, I l cur w →
    fst (evictWhile l cur w) = Ok tt ∧ Q (snd (evictWhile l cur w)).
Proof.
  intros Hstop Hevict Hskip l.
  induction l as [|x l IH]; intros cur w HI.
  - rewrite evictWhile_stop by auto. split; [done|]. eapply Hstop; eauto.
  - destruct (Z.le_gt_cases cur maxCacheSize) as [Hle|Hgt].
    + rewrite evictWhile_stop by auto. split; [done|]. eapply Hstop; eauto.
    + destruct (canUnlink w (entryPath x)) eqn:Hcan.
      * rewrite evictWhile_evict by done. apply IH. by apply Hevict.
      * rewrite evictWhile_skip by done. apply IH. by apply (Hskip x).
Qed.

Lemma evictWhile_ok (l : CacheIndex) (cur : Z) (w : World) :
  fst (evictWhile l cur w) = Ok tt.
Proof.
  refine (proj1 (evictWhile_invariant (fun _ _ _ => True) (fun _ => True)
                   _ _ _ l cur w I)); auto.
Qed.

Lemma sweepInv_init (w : World) :
  uniqueKeys (cacheIndex w) →
  sweepInv (sortByLastUsed (cacheIndex w))
    (totalSize (sortByLastUsed (cacheIndex w))) w.
Proof.
  intros Hu. repeat split.
  - by apply sortByLastUsed_uniqueKeys.
  - done.
  - intros x. by rewrite sortByLastUsed_elem_of.
  - apply totalSize_perm, sortByLastUsed_perm.
Qed.

Lemma sweepInv_evict x (l : CacheIndex) (cur : Z) (w : World) :
  sweepInv (x :: l) cur w → sweepInv l (cur - entrySize x) (evictedWorld x w).
Proof.
  intros (Hl & Hm & Hsub & Hcur). destruct x as [n e].
  unfold uniqueKeys in Hl. simpl in Hl. apply NoDup_cons in Hl as [Hn Hl].
  repeat split; simpl.
  - done.
  - by apply uniqueKeys_delete.
  - intros y Hy. apply JsMap_elem_of_delete. split.
    + apply Hsub, elem_of_cons. auto.
    + intros Heq. apply Hn. apply list_elem_of_fmap. exists y. by rewrite Heq.
  - unfold entryKey, entrySize. simpl.
    rewrite (totalSize_delete n e); [lia | done |].
    apply Hsub, elem_of_cons. auto.
Qed.

Lemma sweepInv_skip x (l : CacheIndex) (cur : Z) (w : World) :
  sweepInv (x :: l) cur w → sweepInv l cur (skippedWorld w).
Proof.
  intros (Hl & Hm & Hsub & Hcur).
  unfold uniqueKeys in Hl. simpl in Hl. apply NoDup_cons in Hl as [Hn Hl].
  repeat split; simpl; try done.
  intros y Hy. apply Hsub, elem_of_cons. auto.
Qed.

(** Unlinking never makes another unlink possible. *)
Lemma canUnlink_evicted x (w : World) (p : string) :
  canUnlink (evictedWorld x w) p = true → canUnlink w p = true ∧ p ≠ entryPath x.
Proof.
  unfold canUnlink, evictedWorld. simpl.
  destruct (decide (p = entryPath x)) as [->|Hne].
  - by rewrite lookup_delete_eq.
  - rewrite lookup_delete_ne by done. auto.
Qed.

Lemma canUnlink_evicted_ne x (w : World) (p : string) :
  p ≠ entryPath x → canUnlink (evictedWorld x w) p = canUnlink w p.
Proof.
  intros Hne. unfold canUnlink, evictedWorld. simpl.
  by rewrite lookup_delete_ne.
Qed.

Lemma canUnlink_skipped (w : World) (p : string) :
  canUnlink (skippedWorld w) p = canUnlink w p.
Proof. reflexivity. Qed.

(** ** [saveCacheIndex] and [manageCacheSize] as world transformers *)

Lemma saveCacheIndex_spec (w : World) :
  fst (saveCacheIndex w) = Ok tt ∧
  cacheIndex (snd (saveCacheIndex w)) = cacheIndex w ∧
  files (snd (saveCacheIndex w)) = files w ∧
  env (snd (saveCacheIndex w)) = env w ∧
  ticks (snd (saveCacheIndex w)) = ticks w ∧
  modelConfigs (snd (saveCacheIndex w)) = modelConfigs w ∧
  fetchesOf (trace (snd (saveCacheIndex w))) = fetchesOf (trace w) ∧
  indexFile (snd (saveCacheIndex w))
  = if indexWritable (env w) then Some (cacheIndex w) else indexFile w.
Proof.
  unfold saveCacheIndex. destruct (indexWritable (env w)); simpl; repeat split; try done.
  unfold fetchesOf. rewrite omap_app. simpl. by rewrite app_nil_r.
Qed.

Lemma manageCacheSize_eq (w : World) :
  manageCacheSize w = saveCacheIndex (sweptWorld w).
Proof.
  unfold manageCacheSize, sweptWorld, bind, gets.
  pose proof (evictWhile_ok (sortByLastUsed (cacheIndex w))
                (totalSize (sortByLastUsed (cacheIndex w))) w) as Hok.
  destruct (evictWhile _ _ w) as [r w']. simpl in *. by subst r.
Qed.

Lemma evictWhile_frame (l : CacheIndex) (cur : Z) (w : World) :
  let w' := snd (evictWhile l cur w) in
  env w' = env w ∧ indexFile w' = indexFile w ∧ ticks w' = ticks w ∧
  modelConfigs w' = modelConfigs w ∧ fetchesOf (trace w') = fetchesOf (trace w).
Proof.
  refine (proj2 (evictWhile_invariant
    (fun _ _ w' => env w' = env w ∧ indexFile w' = indexFile w ∧ ticks w' = ticks w ∧
                   modelConfigs w' = modelConfigs w ∧
                   fetchesOf (trace w') = fetchesOf (trace w))
    (fun w' => env w' = env w ∧ indexFile w' = indexFile w ∧ ticks w' = ticks w ∧
               modelConfigs w' = modelConfigs w ∧
               fetchesOf (trace w') = fetchesOf (trace w))
    _ _ _ l cur w _)); try done.
  intros x l' cur' w' (? & ? & ? & ? & Hf) _ _. repeat split; try done.
  simpl. unfold fetchesOf in *. rewrite omap_app. simpl. by rewrite app_nil_r.
Qed.

Lemma canUnlink_ext (w w' : World) (p : string) :
  files w' = files w → env w' = env w → canUnlink w' p = canUnlink w p.
Proof. unfold canUnlink. by intros -> ->. Qed.

(** After a sweep the index is within the ceiling, or nothing left in it
    can be unlinked. *)
Lemma sweptWorld_settled (w : World) :
  uniqueKeys (cacheIndex w) →
  uniqueKeys (cacheIndex (sweptWorld w)) ∧
  (totalSize (cacheIndex (sweptWorld w)) <= maxCacheSize ∨
   ∀ x, x ∈ cacheIndex (sweptWorld w) → canUnlink (sweptWorld w) (entryPath x) = false).
Proof.
  intros Hu. unfold sweptWorld.
  refine (proj2 (evictWhile_invariant
    (fun l cur w' => sweepInv l cur w' ∧
       ∀ x, x ∈ cacheIndex w' → x ∈ l ∨ canUnlink w' (entryPath x) = false)
    (fun w' => uniqueKeys (cacheIndex w') ∧
       (totalSize (cacheIndex w') <= maxCacheSize ∨
        ∀ x, x ∈ cacheIndex w' → canUnlink w' (entryPath x) = false))
    _ _ _ _ _ w _)).
  - intros l cur w' [(Hl & Hm & Hsub & Hcur) Hrest] Hstop. split; [done|].
    destruct Hstop as [->|Hle]; [right | left; lia].
    intros x Hx. destruct (Hrest x Hx) as [Hin|?]; [|done].
    by apply elem_of_nil in Hin.
  - intros x l cur w' [Hinv Hrest] _ Hcan. split; [by apply sweepInv_evict|].
    intros y Hy. simpl in Hy. apply JsMap_elem_of_delete in Hy as [Hy Hne].
    destruct (Hrest y Hy) as [Hin|Hno].
    + apply elem_of_cons in Hin as [->|Hin]; [done | by left].
    + right. destruct (canUnlink (evictedWorld x w') (entryPath y)) eqn:E; [|done].
      apply canUnlink_evicted in E as [E _]. congruence.
  - intros x l cur w' [Hinv Hrest] _ Hcan. split; [by apply (sweepInv_skip x)|].
    intros y Hy. simpl in Hy. destruct (Hrest y Hy) as [Hin|Hno].
    + apply elem_of_cons in Hin as [->|Hin]; [by right | by left].
    + by right.
  - split; [by apply sweepInv_init|].
    intros x Hx. left. by apply sortByLastUsed_elem_of.
Qed.

(** A sweep over an index that is within the ceiling, or whose files all
    refuse to go, changes neither the index nor the files. *)
Lemma sweptWorld_quiescent (w : World) :
  (totalSize (cacheIndex w) <= maxCacheSize ∨
   ∀ x, x ∈ cacheIndex w → canUnlink w (entryPath x) = false) →
  cacheIndex (sweptWorld w) = cacheIndex w ∧ files (sweptWorld w) = files w.
Proof.
  intros [Hle|Hno]; unfold sweptWorld.
  - rewrite evictWhile_stop; [done|]. right.
    by rewrite (totalSize_perm _ _ (sortByLastUsed_perm _)).
  - refine (proj2 (evictWhile_invariant
      (fun l _ w' => cacheIndex w' = cacheIndex w ∧ files w' = files w ∧
         env w' = env w ∧ ∀ x, x ∈ l → canUnlink w (entryPath x) = false)
      (fun w' => cacheIndex w' = cacheIndex w ∧ files w' = files w)
      _ _ _ _ _ w _)).
    + intros l cur w' (? & ? & _). done.
    + intros x l cur w' (Hi & Hf & He & Hl) _ Hcan. exfalso.
      rewrite (canUnlink_ext w w') in Hcan by done.
      rewrite Hl in Hcan; [done | apply elem_of_cons; auto].
    + intros x l cur w' (Hi & Hf & He & Hl) _ _. repeat split; try done.
      intros y Hy. apply Hl, elem_of_cons. auto.
    + repeat split. intros x Hx. by apply Hno, sortByLastUsed_elem_of.
Qed.

(** ** Idempotence of the eviction policy *)

(** C2. [manageCacheSize] run a second time, nothing having been inserted
    in between, leaves the index, the saved index and the files as the first
    run left them; run on an index whose total is at or under the ceiling it
    changes no entry and no file. *)
Theorem manageCacheSize_idempotent (w : World) :
  uniqueKeys (cacheIndex w) →
  fst (manageCacheSize w) = Ok tt ∧
  (cacheIndex (snd (manageCacheSize (snd (manageCacheSize w))))
   = cacheIndex (snd (manageCacheSize w)) ∧
   indexFile (snd (manageCacheSize (snd (manageCacheSize w))))
   = indexFile (snd (manageCacheSize w)) ∧
   files (snd (manageCacheSize (snd (manageCacheSize w))))
   = files (snd (manageCacheSize w))) ∧
  (totalSize (cacheIndex w) <= maxCacheSize →
   cacheIndex (snd (manageCacheSize w)) = cacheIndex w ∧
   files (snd (manageCacheSize w)) = files w).
Proof.
  intros Hu.
  destruct (saveCacheIndex_spec (sweptWorld w))
    as (Hok & Hi & Hf & He & _ & _ & _ & Hsaved).
  destruct (sweptWorld_settled w Hu) as [Hu1 Hsettled].
  destruct (evictWhile_frame (sortByLastUsed (cacheIndex w))
              (totalSize (sortByLastUsed (cacheIndex w))) w)
    as (He1 & Hx1 & _). fold (sweptWorld w) in He1, Hx1.
  rewrite !manageCacheSize_eq.
  set (once := snd (saveCacheIndex (sweptWorld w))) in *.
  assert (Hq : cacheIndex (sweptWorld once) = cacheIndex once ∧
               files (sweptWorld once) = files once).
  { apply sweptWorld_quiescent. rewrite Hi.
    destruct Hsettled as [Hle|Hno]; [by left | right].
    intros x Hx. rewrite (canUnlink_ext (sweptWorld w)) by done. by apply Hno. }
  destruct Hq as [Hqi Hqf].
  destruct (saveCacheIndex_spec (sweptWorld once))
    as (_ & Hi2 & Hf2 & He2 & _ & _ & _ & Hsaved2).
  destruct (evictWhile_frame (sortByLastUsed (cacheIndex once))
              (totalSize (sortByLastUsed (cacheIndex once))) once)
    as (He3 & Hx3 & _). fold (sweptWorld once) in He3, Hx3.
  split; [done|]. split.
  - split; [congruence|]. split; [|congruence].
    rewrite Hsaved2, Hsaved, He3, He, Hqi, Hx3, Hi, Hsaved.
    by destruct (indexWritable (env (sweptWorld w))).
  - intros Hle. destruct (sweptWorld_quiescent w (or_introl Hle)) as [Hqi0 Hqf0].
    split; congruence.
Qed.

Lemma manageCacheSize_idempotent_witness :
  uniqueKeys (cacheIndex lruWorld) ∧
  cacheIndex (snd (manageCacheSize (snd (manageCacheSize lruWorld))))
  = cacheIndex (snd (manageCacheSize lruWorld)).
Proof.
  assert (Hu : uniqueKeys (cacheIndex lruWorld)).
  { unfold uniqueKeys. apply (bool_decide_unpack _). vm_compute. exact I. }
  split; [exact Hu|].
  exact (proj1 (proj1 (proj2 (manageCacheSize_idempotent lruWorld Hu)))).
Defined.

(** ** Eviction when the file cannot be deleted *)

(** An entry leaves the index only through an eviction that unlinked its
    file. *)
Lemma sweptWorld_removed_unlinked (w : World) x :
  uniqueKeys (cacheIndex w) → x ∈ cacheIndex w →
  x ∈ cacheIndex (sweptWorld w) ∨ files (sweptWorld w) !! entryPath x = None.
Proof.
  intros Hu Hx. unfold sweptWorld.
  refine (proj2 (evictWhile_invariant
    (fun l cur w' => sweepInv l cur w' ∧
       (x ∈ cacheIndex w' ∨ files w' !! entryPath x = None))
    (fun w' => x ∈ cacheIndex w' ∨ files w' !! entryPath x = None)
    _ _ _ _ _ w _)).
  - intros l cur w' [_ H] _. exact H.
  - intros y l cur w' [Hinv H] _ _. split; [by apply sweepInv_evict|].
    destruct H as [Hin|Hgone].
    + destruct (decide (entryKey x = entryKey y)) as [Heq|Hne].
      * right. destruct Hinv as (_ & Hm & Hsub & _).
        assert (Hy : y ∈ cacheIndex w') by (apply Hsub, elem_of_cons; auto).
        destruct x as [kx ex], y as [ky ey]. unfold entryKey in Heq. simpl in Heq. subst ky.
        rewrite (uniqueKeys_inj _ _ _ _ Hm Hin Hy).
        simpl. apply lookup_delete_eq.
      * left. simpl. by apply JsMap_elem_of_delete.
    + right. simpl. rewrite lookup_delete_None. auto.
  - intros y l cur w' [Hinv H] _ _. split; [by apply (sweepInv_skip y)|]. exact H.
  - split; [by apply sweepInv_init | by left].
Qed.

(** An entry whose file cannot be unlinked survives the sweep. *)
Lemma sweptWorld_keeps_stuck (w : World) x :
  uniqueKeys (cacheIndex w) → x ∈ cacheIndex w →
  canUnlink w (entryPath x) = false →
  x ∈ cacheIndex (sweptWorld w).
Proof.
  intros Hu Hx Hno. unfold sweptWorld.
  refine (proj2 (evictWhile_invariant
    (fun l cur w' => sweepInv l cur w' ∧ x ∈ cacheIndex w' ∧
                     canUnlink w' (entryPath x) = false)
    (fun w' => x ∈ cacheIndex w')
    _ _ _ _ _ w _)).
  - by intros l cur w' (_ & H & _) _.
  - intros y l cur w' (Hinv & Hin & Hstuck) _ Hcan.
    split; [by apply sweepInv_evict|]. split.
    + simpl. apply JsMap_elem_of_delete. split; [done|].
      intros Heq. destruct Hinv as (_ & Hm & Hsub & _).
      assert (Hy : y ∈ cacheIndex w') by (apply Hsub, elem_of_cons; auto).
      destruct x as [kx ex], y as [ky ey]. unfold entryKey in Heq. simpl in Heq. subst ky.
      rewrite (uniqueKeys_inj _ _ _ _ Hm Hin Hy) in Hstuck. congruence.
    + destruct (canUnlink (evictedWorld y w') (entryPath x)) eqn:E; [|done].
      apply canUnlink_evicted in E as [E _]. congruence.
  - intros y l cur w' (Hinv & Hin & Hstuck) _ _.
    split; [by apply (sweepInv_skip y) | done].
  - split; [by apply sweepInv_init | done].
Qed.

(** C3, as the code has it.  When unlinking the file of the entry the sweep
    selected fails, the iteration logs a warning and goes on to the next
    entry with the running total unchanged; the entry is not deleted from
    the index and is still there when [manageCacheSize] returns.  Whatever
    entry did leave the index had its file unlinked. *)
Theorem manageCacheSize_unlink_failure (w : World) (x : string * ModelCacheEntry.t) :
  uniqueKeys (cacheIndex w) → x ∈ cacheIndex w →
  canUnlink w (entryPath x) = false →
  (∀ queued cur, maxCacheSize < cur →
     evictWhile (x :: queued) cur w = evictWhile queued cur (skippedWorld w)) ∧
  (cacheIndex (skippedWorld w) = cacheIndex w ∧
   trace (skippedWorld w) = (trace w ++ [Log warn "Failed to remove old cache entry"])%list) ∧
  x ∈ cacheIndex (snd (manageCacheSize w)) ∧
  (∀ y, y ∈ cacheIndex w → y ∉ cacheIndex (snd (manageCacheSize w)) →
     files (snd (manageCacheSize w)) !! entryPath y = None).
Proof.
  intros Hu Hx Hno.
  destruct (saveCacheIndex_spec (sweptWorld w)) as (_ & Hi & Hf & _).
  rewrite manageCacheSize_eq, Hi, Hf.
  split; [|split; [done|split]].
  - intros queued cur Hgt. by apply evictWhile_skip.
  - by apply sweptWorld_keeps_stuck.
  - intros y Hy Hgone.
    by destruct (sweptWorld_removed_unlinked w y Hu Hy).
Qed.

Lemma manageCacheSize_unlink_failure_witness :
  uniqueKeys (cacheIndex stuckWorld) ∧ stuckEntry ∈ cacheIndex stuckWorld ∧
  canUnlink stuckWorld (entryPath stuckEntry) = false ∧
  stuckEntry ∈ cacheIndex (snd (manageCacheSize stuckWorld)).
Proof.
  assert (Hu : uniqueKeys (cacheIndex stuckWorld)).
  { unfold uniqueKeys. apply (bool_decide_unpack _). vm_compute. exact I. }
  assert (Hx : stuckEntry ∈ cacheIndex stuckWorld).
  { apply elem_of_cons. left. reflexivity. }
  assert (Hno : canUnlink stuckWorld (entryPath stuckEntry) = false).
  { vm_compute. reflexivity. }
  split; [exact Hu|]. split; [exact Hx|]. split; [exact Hno|].
  exact (proj1 (proj2 (proj2 (manageCacheSize_unlink_failure stuckWorld stuckEntry Hu Hx Hno)))).
Defined.

(** C3, as the claim states it, fails: the only entry of [stuckWorld] puts
    the index over the ceiling and is selected, its file cannot be unlinked,
    and the sweep leaves it in the index, the total still 11 GiB. *)
Lemma eviction_failure_counterexample :
  hd_error (sortByLastUsed (cacheIndex stuckWorld)) = Some stuckEntry ∧
  maxCacheSize < totalSize (cacheIndex stuckWorld) ∧
  fst (fs_unlink (entryPath stuckEntry) stuckWorld) = Throw "unlink failed" ∧
  fst (manageCacheSize stuckWorld) = Ok tt ∧
  cacheIndex (snd (manageCacheSize stuckWorld)) = [stuckEntry] ∧
  trace (snd (manageCacheSize stuckWorld)) = [Log warn "Failed to remove old cache entry"] ∧
  ¬ (totalSize (cacheIndex (snd (manageCacheSize stuckWorld))) <= maxCacheSize).
Proof.
  repeat split; try (vm_compute; reflexivity).
  vm_compute. intros H. by apply H.
Qed.

(** ** Order among entries of equal age *)

(** C9, as the code has it.  The sweep takes the entries in the order of
    [sortByLastUsed]: a rearrangement of the index, oldest first, in which
    the entries sharing a [lastUsed] value stand in the order the index
    holds them (insertion order of the [Map]), whatever their names. *)
Theorem sweep_order_ties_by_insertion (index : CacheIndex) (t : Z) :
  sortByLastUsed index ≡ₚ index ∧
  StronglySorted olderEq (sortByLastUsed index) ∧
  filter (fun x => entryTime x = t) (sortByLastUsed index)
  = filter (fun x => entryTime x = t) index.
Proof.
  split; [apply sortByLastUsed_perm|].
  split; [apply sortByLastUsed_sorted | apply sortByLastUsed_stable].
Qed.

(** C9, as the claim states it, fails: ["b"] and ["a"] are equally old, the
    sweep takes ["b"] first although ["a"] is the smaller name, and with
    12 GiB cached it is ["b"] that is evicted. *)
Lemma tie_break_counterexample :
  entryTime ("b", sampleEntry "/cache/b" 10 (6 * GiB))
  = entryTime ("a", sampleEntry "/cache/a" 10 (6 * GiB)) ∧
  String.ltb "a" "b" = true ∧
  map entryKey (sortByLastUsed (cacheIndex tieWorld)) = ["b"; "a"] ∧
  map entryKey (cacheIndex (snd (manageCacheSize tieWorld))) = ["a"] ∧
  files (snd (manageCacheSize tieWorld)) !! "/cache/b" = None ∧
  files (snd (manageCacheSize tieWorld)) !! "/cache/a" = Some (sampleFile (6 * GiB)).
Proof.
  repeat split; vm_compute; reflexivity.
Qed.

(** ** Least-recently-used eviction *)

Lemma withoutEvicted_nil (index : CacheIndex) : withoutEvicted [] index = index.
Proof.
  unfold withoutEvicted. induction index as [|x l IH]; [done|].
  rewrite filter_cons_True; [by rewrite IH | simpl; apply not_elem_of_nil].
Qed.

Lemma withoutEvicted_snoc (evicted index : CacheIndex) x :
  JsMap.delete (entryKey x) (withoutEvicted evicted index)
  = withoutEvicted (evicted ++ [x]) index.
Proof.
  unfold withoutEvicted. rewrite JsMap_delete_filter.
  induction index as [|y l IH]; [done|].
  assert (entryKey y ∉ map entryKey (evicted ++ [x])%list
          ↔ (entryKey y ∉ map entryKey evicted) ∧ entryKey y ≠ entryKey x) as Hiff.
  { rewrite map_app, elem_of_app. simpl. rewrite list_elem_of_singleton. tauto. }
  rewrite (filter_cons _ y l),
          (filter_cons (fun x0 => entryKey x0 ∉ map entryKey (evicted ++ [x])) y l).
  destruct (decide (entryKey y ∉ map entryKey evicted)) as [Hy|Hy].
  - destruct (decide (entryKey y = entryKey x)) as [Heq|Hne].
    + rewrite filter_cons_False by (simpl; unfold entryKey in *; auto).
      rewrite decide_False by tauto. exact IH.
    + rewrite filter_cons_True by (simpl; unfold entryKey in *; auto).
      rewrite decide_True by tauto. by rewrite IH.
  - rewrite decide_False by tauto. exact IH.
Qed.

Lemma StronglySorted_app_olderEq (l1 l2 : CacheIndex) :
  StronglySorted olderEq (l1 ++ l2) →
  ∀ x y, x ∈ l1 → y ∈ l2 → olderEq x y.
Proof.
  induction l1 as [|a l1 IH]; simpl; intros Hs x y Hx Hy.
  - by apply elem_of_nil in Hx.
  - apply StronglySorted_inv in Hs as [Hs Ha].
    apply elem_of_cons in Hx as [->|Hx]; [|by apply IH].
    rewrite List.Forall_forall in Ha. apply Ha.
    apply list_elem_of_In, elem_of_app. auto.
Qed.

(** With every file deletable the sweep removes a prefix of the sorted
    entries: the shortest one that brings the total to the ceiling or
    below, or all of them. *)
Lemma sweptWorld_lru (w : World) :
  uniqueKeys (cacheIndex w) → allUnlinkable w (cacheIndex w) →
  ∃ evicted kept : CacheIndex,
    sortByLastUsed (cacheIndex w) = (evicted ++ kept)%list ∧
    (∀ k, (k < length evicted)%nat →
       maxCacheSize < totalSize (cacheIndex w) - totalSize (take k evicted)) ∧
    (kept = [] ∨ totalSize kept <= maxCacheSize) ∧
    cacheIndex (sweptWorld w) = withoutEvicted evicted (cacheIndex w) ∧
    totalSize (cacheIndex (sweptWorld w)) = totalSize kept ∧
    files (sweptWorld w)
    = foldl (fun f p => delete p f) (files w) (map entryPath evicted) ∧
    trace (sweptWorld w) = trace w.
Proof.
  intros Hu [Hnd Hcan]. rewrite Forall_forall in Hcan.
  set (sorted := sortByLastUsed (cacheIndex w)).
  set (total := totalSize (cacheIndex w)).
  assert (Htotal : totalSize sorted = total)
    by apply totalSize_perm, sortByLastUsed_perm.
  unfold sweptWorld. fold sorted.
  refine (proj2 (evictWhile_invariant
    (fun l cur w' => sweepInv l cur w' ∧
       NoDup (map entryPath l) ∧
       (∀ x, x ∈ l → canUnlink w' (entryPath x) = true) ∧
       ∃ evicted, sorted = (evicted ++ l)%list ∧
         (∀ k, (k < length evicted)%nat → maxCacheSize < total - totalSize (take k evicted)) ∧
         cur = total - totalSize evicted ∧
         cacheIndex w' = withoutEvicted evicted (cacheIndex w) ∧
         files w' = foldl (fun f p => delete p f) (files w) (map entryPath evicted) ∧
         trace w' = trace w)
    (fun w' => ∃ evicted kept : CacheIndex,
       sorted = (evicted ++ kept)%list ∧
       (∀ k, (k < length evicted)%nat → maxCacheSize < total - totalSize (take k evicted)) ∧
       (kept = [] ∨ totalSize kept <= maxCacheSize) ∧
       cacheIndex w' = withoutEvicted evicted (cacheIndex w) ∧
       totalSize (cacheIndex w') = totalSize kept ∧
       files w' = foldl (fun f p => delete p f) (files w) (map entryPath evicted) ∧
       trace w' = trace w)
    _ _ _ _ _ w _)).
  - intros l cur w' (Hinv & _ & _ & evicted & Hs & Hover & Hcur & Hi & Hf & Ht) Hstop.
    exists evicted, l. destruct Hinv as (_ & _ & _ & Hrun).
    assert (Hkept : totalSize l = cur).
    { rewrite Hcur, <- Htotal, Hs, totalSize_app. lia. }
    repeat split; try done.
    + destruct Hstop as [->|Hle]; [by left | right; lia].
    + lia.
  - intros x l cur w' (Hinv & Hpaths & Hok & evicted & Hs & Hover & Hcur & Hi & Hf & Ht) Hgt _.
    split; [by apply sweepInv_evict|].
    simpl in Hpaths. apply NoDup_cons in Hpaths as [Hx Hpaths].
    split; [done|]. split.
    + intros y Hy. rewrite canUnlink_evicted_ne.
      * apply Hok, elem_of_cons. auto.
      * intros Heq. apply Hx. apply list_elem_of_fmap. by exists y.
    + exists (evicted ++ [x])%list. repeat split.
      * by rewrite <- app_assoc.
      * intros k Hk. rewrite length_app in Hk. simpl in Hk.
        destruct (decide (k < length evicted)%nat) as [Hlt|Hge].
        -- rewrite take_app_le by lia. by apply Hover.
        -- rewrite take_app_ge by lia.
           replace (k - length evicted)%nat with 0%nat by lia.
           rewrite take_0, app_nil_r. lia.
      * rewrite totalSize_app, totalSize_cons, totalSize_nil. lia.
      * simpl. rewrite Hi. apply withoutEvicted_snoc.
      * simpl. rewrite Hf, map_app, foldl_app. done.
      * done.
  - intros x l cur w' (_ & _ & Hok & _) _ Hfail.
    rewrite Hok in Hfail; [done | apply elem_of_cons; auto].
  - split; [by apply sweepInv_init|].
    split; [unfold sorted; by rewrite sortByLastUsed_perm|].
    split; [intros x Hx; by apply Hcan, sortByLastUsed_elem_of|].
    exists []. repeat split; simpl.
    + intros k Hk. lia.
    + rewrite totalSize_nil. lia.
    + by rewrite withoutEvicted_nil.
Qed.

Lemma lookup_foldl_delete (fs : gmap string Node) (ps : list string) (p : string) :
  foldl (fun f q => delete q f) fs ps !! p
  = if decide (p ∈ ps) then None else fs !! p.
Proof.
  revert fs. induction ps as [|q ps IH]; intros fs; cbn [foldl].
  - destruct (decide (p ∈ [])) as [H|_]; [by apply elem_of_nil in H | done].
  - rewrite IH.
    destruct (decide (p ∈ ps)) as [Hin|Hout];
      destruct (decide (p ∈ q :: ps)) as [Hin'|Hout']; try done.
    + exfalso. apply Hout'. apply elem_of_cons. auto.
    + apply elem_of_cons in Hin' as [->|?]; [apply lookup_delete_eq | done].
    + apply lookup_delete_ne. intros ->. apply Hout'. apply elem_of_cons. auto.
Qed.

Lemma filter_all {A} (P : A → Prop) `{∀ x, Decision (P x)} (l : list A) :
  Forall P l → filter P l = l.
Proof.
  induction 1 as [|x l Hx Hl IH]; [done|].
  by rewrite filter_cons_True, IH.
Qed.

Lemma filter_none {A} (P : A → Prop) `{∀ x, Decision (P x)} (l : list A) :
  Forall (fun x => ¬ P x) l → filter P l = [].
Proof.
  induction 1 as [|x l Hx Hl IH]; [done|].
  by rewrite filter_cons_False.
Qed.

Lemma withoutEvicted_app (evicted kept : CacheIndex) :
  uniqueKeys (evicted ++ kept) → withoutEvicted evicted (evicted ++ kept) = kept.
Proof.
  intros Hu. unfold withoutEvicted. rewrite filter_app.
  unfold uniqueKeys, JsMap.keys in Hu. rewrite map_app in Hu.
  apply NoDup_app in Hu as (_ & Hdisj & _).
  rewrite filter_none, filter_all; [done| |].
  - apply Forall_forall. intros x Hx Hin.
    apply (Hdisj (entryKey x)); [done|].
    apply list_elem_of_fmap. by exists x.
  - apply Forall_forall. intros x Hx Hout.
    apply Hout. apply list_elem_of_fmap. by exists x.
Qed.

Lemma withoutEvicted_perm (evicted kept index : CacheIndex) :
  uniqueKeys index → sortByLastUsed index = (evicted ++ kept)%list →
  withoutEvicted evicted index ≡ₚ kept.
Proof.
  intros Hu Hs.
  assert (Hp : index ≡ₚ (evicted ++ kept)%list)
    by (rewrite <- Hs; symmetry; apply sortByLastUsed_perm).
  unfold withoutEvicted. rewrite Hp.
  fold (withoutEvicted evicted (evicted ++ kept)).
  rewrite withoutEvicted_app; [done|].
  rewrite <- Hs. by apply sortByLastUsed_uniqueKeys.
Qed.

Lemma manageCacheSize_ok (w : World) : fst (manageCacheSize w) = Ok tt.
Proof.
  rewrite manageCacheSize_eq. apply (saveCacheIndex_spec (sweptWorld w)).
Qed.

Section InsertionFacts.
Context {P : Platform}.

(** [cacheModel] when the model file is a regular file and the copy
    succeeds: the rest cannot throw. *)
Lemma cacheModel_inserted (modelName modelPath version : string) (b : Blob)
    (w : World) :
  files w !! modelPath = Some (File b) →
  canWrite w (cachedPathOf modelName modelPath version) = true →
  cacheModel modelName modelPath version w
  = (Ok (cachedPathOf modelName modelPath version),
     snd (manageCacheSize (insertedWorld modelName modelPath version b w))).
Proof.
  intros Hfile Hwrite.
  unfold cacheModel, try_catch, bind, fs_stat, fs_copyFile, bind, fs_readFile,
    fs_writeFile, Date_now, modify.
  rewrite Hfile. cbn beta iota. rewrite Hfile. cbn beta iota. rewrite Hwrite.
  cbn beta iota. cbn [fst snd env ticks set_files stat_size].
  unfold insertedWorld. cbn [cacheIndex set_ticks set_files].
  match goal with |- context [saveCacheIndex ?w3] => set (inserted := w3) end.
  pose proof (saveCacheIndex_spec inserted) as [Hok _].
  destruct (saveCacheIndex inserted) as [r wi]. cbn [fst snd] in *. subst r.
  pose proof (manageCacheSize_ok wi) as Hm.
  destruct (manageCacheSize wi) as [r w']. cbn [fst snd] in *. by subst r.
Qed.

Lemma insertedWorld_cacheIndex (modelName modelPath version : string) (b : Blob)
    (w : World) :
  cacheIndex (insertedWorld modelName modelPath version b w)
  = JsMap.set modelName
      (ModelCacheEntry.mk (cachedPathOf modelName modelPath version)
         (clock (env w) (ticks w)) (blob_size b) version)
      (cacheIndex w).
Proof. unfold insertedWorld. by rewrite (proj1 (proj2 (saveCacheIndex_spec _))). Qed.

Lemma insertedWorld_files (modelName modelPath version : string) (b : Blob)
    (w : World) :
  files (insertedWorld modelName modelPath version b w)
  = <[cachedPathOf modelName modelPath version := File b]> (files w).
Proof.
  unfold insertedWorld.
  by rewrite (proj1 (proj2 (proj2 (saveCacheIndex_spec _)))).
Qed.

Lemma insertedWorld_env (modelName modelPath version : string) (b : Blob)
    (w : World) :
  env (insertedWorld modelName modelPath version b w) = env w.
Proof.
  unfold insertedWorld.
  by rewrite (proj1 (proj2 (proj2 (proj2 (saveCacheIndex_spec _))))).
Qed.
End InsertionFacts.

Section LruEviction.
Context {P : Platform}.

(** C1, as the code has it.  In the state [cacheModel] reaches after an
    insertion, provided every indexed file can be unlinked, the sweep
    takes the entries oldest first and evicts a prefix [evicted] of that
    order: each eviction happens with the total still above the ceiling,
    the sweep stops at the first total at or under it (or with nothing
    left), the evicted entries are gone from the index with their files
    and their sizes.  With three cached entries of 5 GiB and a fourth one
    inserted, [evicted] is the two oldest entries and 10 GiB remain. *)
Theorem cacheModel_lru_eviction (modelName modelPath version : string)
    (b : Blob) (w : World) :
  files w !! modelPath = Some (File b) →
  canWrite w (cachedPathOf modelName modelPath version) = true →
  uniqueKeys (cacheIndex w) →
  allUnlinkable (insertedWorld modelName modelPath version b w)
    (cacheIndex (insertedWorld modelName modelPath version b w)) →
  fst (cacheModel modelName modelPath version w)
  = Ok (cachedPathOf modelName modelPath version) ∧
  ∃ evicted kept : CacheIndex,
    sortByLastUsed (cacheIndex (insertedWorld modelName modelPath version b w))
    = (evicted ++ kept)%list ∧
    StronglySorted olderEq (evicted ++ kept) ∧
    (∀ x y, x ∈ evicted → y ∈ kept → olderEq x y) ∧
    (∀ k, (k < length evicted)%nat →
       maxCacheSize
       < totalSize (cacheIndex (insertedWorld modelName modelPath version b w))
         - totalSize (take k evicted)) ∧
    (kept = [] ∨ totalSize kept <= maxCacheSize) ∧
    cacheIndex (snd (cacheModel modelName modelPath version w))
    = withoutEvicted evicted
        (cacheIndex (insertedWorld modelName modelPath version b w)) ∧
    cacheIndex (snd (cacheModel modelName modelPath version w)) ≡ₚ kept ∧
    totalSize (cacheIndex (snd (cacheModel modelName modelPath version w)))
    = totalSize (cacheIndex (insertedWorld modelName modelPath version b w))
      - totalSize evicted ∧
    (∀ x, x ∈ evicted →
       files (snd (cacheModel modelName modelPath version w)) !! entryPath x = None) ∧
    (length (cacheIndex w) = 3%nat →
     modelName ∉ JsMap.keys (cacheIndex w) →
     Forall (fun x => entrySize x = 5 * GiB) (cacheIndex w) →
     blob_size b = 5 * GiB →
     evicted
     = take 2 (sortByLastUsed (cacheIndex (insertedWorld modelName modelPath version b w))) ∧
     length evicted = 2%nat ∧
     length (cacheIndex (snd (cacheModel modelName modelPath version w))) = 2%nat ∧
     totalSize (cacheIndex (snd (cacheModel modelName modelPath version w)))
     <= maxCacheSize).
Proof.
  intros Hfile Hwrite Hu Hall.
  rewrite (cacheModel_inserted _ _ _ b) by done. cbn [fst snd].
  split; [done|].
  set (wi := insertedWorld modelName modelPath version b w) in *.
  assert (Hui : uniqueKeys (cacheIndex wi)).
  { unfold wi. rewrite insertedWorld_cacheIndex. by apply uniqueKeys_set. }
  destruct (sweptWorld_lru wi Hui Hall)
    as (evicted & kept & Hs & Hover & Hstop & Hi & Ht & Hf & _).
  destruct (saveCacheIndex_spec (sweptWorld wi)) as (_ & Hsi & Hsf & _).
  rewrite manageCacheSize_eq, Hsi, Hsf.
  assert (Hsorted : StronglySorted olderEq (evicted ++ kept)).
  { rewrite <- Hs. apply sortByLastUsed_sorted. }
  assert (Hperm : cacheIndex (sweptWorld wi) ≡ₚ kept).
  { rewrite Hi. by apply withoutEvicted_perm. }
  assert (Htot : totalSize (cacheIndex wi) = totalSize evicted + totalSize kept).
  { rewrite <- totalSize_app, <- Hs. symmetry.
    apply totalSize_perm, sortByLastUsed_perm. }
  exists evicted, kept.
  split; [done|]. split; [done|].
  split; [by apply StronglySorted_app_olderEq|].
  split; [done|]. split; [done|]. split; [done|]. split; [done|].
  split; [lia|]. split.
  { intros x Hx. rewrite Hf, lookup_foldl_delete.
    rewrite decide_True; [done|]. apply list_elem_of_fmap. by exists x. }
  intros Hlen Hfresh Hsizes Hb.
  assert (Hidx : cacheIndex wi
                 = (cacheIndex w ++ [(modelName,
                      ModelCacheEntry.mk (cachedPathOf modelName modelPath version)
                        (clock (env w) (ticks w)) (blob_size b) version)])%list).
  { unfold wi. rewrite insertedWorld_cacheIndex. by apply JsMap_set_fresh. }
  assert (Hsz : Forall (fun x => entrySize x = 5 * GiB) (evicted ++ kept)).
  { rewrite <- Hs, sortByLastUsed_perm, Hidx. apply Forall_app. split; [done|].
    apply Forall_singleton. exact Hb. }
  apply Forall_app in Hsz as [Hse Hsk].
  assert (Hlen4 : (length evicted + length kept = 4)%nat).
  { rewrite <- length_app, <- Hs, sortByLastUsed_perm, Hidx, length_app, Hlen.
    reflexivity. }
  pose proof (totalSize_const _ _ Hse) as Hte.
  pose proof (totalSize_const _ _ Hsk) as Htk.
  assert (Hle2 : (length evicted <= 2)%nat).
  { destruct (decide (length evicted <= 2)%nat) as [|Hgt]; [done|]. exfalso.
    assert (H2 : (2 < length evicted)%nat) by lia.
    specialize (Hover 2%nat H2).
    assert (Ht2 : totalSize (take 2 evicted) = 5 * GiB * 2).
    { rewrite (totalSize_const (5 * GiB)).
      - rewrite length_take. lia.
      - by apply Forall_take. }
    unfold maxCacheSize, GiB in *. lia. }
  assert (Hge2 : (2 <= length evicted)%nat).
  { destruct Hstop as [->|Hk]; [simpl in Hlen4; lia|].
    unfold maxCacheSize, GiB in *. lia. }
  assert (Hlen2 : length evicted = 2%nat) by lia.
  split.
  { rewrite Hs, <- Hlen2. symmetry. apply take_app_length. }
  split; [done|]. split.
  { rewrite Hperm. lia. }
  rewrite Ht. unfold maxCacheSize, GiB in *. lia.
Qed.
End LruEviction.

Lemma cacheModel_lru_eviction_witness :
  files threeWorld !! "/models/d.bin" = Some (sampleFile (5 * GiB)) ∧
  canWrite threeWorld
    (cachedPathOf (P := samplePlatform) "d" "/models/d.bin" "1.0.0") = true ∧
  uniqueKeys (cacheIndex threeWorld) ∧
  allUnlinkable
    (insertedWorld (P := samplePlatform) "d" "/models/d.bin" "1.0.0"
       (mkBlob (5 * GiB) "digest") threeWorld)
    (cacheIndex (insertedWorld (P := samplePlatform) "d" "/models/d.bin" "1.0.0"
       (mkBlob (5 * GiB) "digest") threeWorld)) ∧
  fst (cacheModel (P := samplePlatform) "d" "/models/d.bin" "1.0.0" threeWorld)
  = Ok (cachedPathOf (P := samplePlatform) "d" "/models/d.bin" "1.0.0").
Proof.
  assert (H1 : files threeWorld !! "/models/d.bin" = Some (sampleFile (5 * GiB)))
    by (vm_compute; reflexivity).
  assert (H2 : canWrite threeWorld
                 (cachedPathOf (P := samplePlatform) "d" "/models/d.bin" "1.0.0") = true)
    by (vm_compute; reflexivity).
  assert (H3 : uniqueKeys (cacheIndex threeWorld)).
  { unfold uniqueKeys. apply (bool_decide_unpack _). vm_compute. exact I. }
  assert (H4 : allUnlinkable
    (insertedWorld (P := samplePlatform) "d" "/models/d.bin" "1.0.0"
       (mkBlob (5 * GiB) "digest") threeWorld)
    (cacheIndex (insertedWorld (P := samplePlatform) "d" "/models/d.bin" "1.0.0"
       (mkBlob (5 * GiB) "digest") threeWorld))).
  { split; apply (bool_decide_unpack _); vm_compute; exact I. }
  split; [exact H1|]. split; [exact H2|]. split; [exact H3|]. split; [exact H4|].
  exact (proj1 (cacheModel_lru_eviction (P := samplePlatform)
                  "d" "/models/d.bin" "1.0.0" (mkBlob (5 * GiB) "digest")
                  threeWorld H1 H2 H3 H4)).
Defined.

(** C1, as the claim states it, fails in a state reached after an
    insertion: in [staleWorld] the file of the oldest entry ["b"] is gone,
    so inserting ["d"] leaves ["b"] in the index and evicts ["c"] and ["a"],
    which are not the two oldest entries. *)
Lemma lru_eviction_counterexample :
  map entryKey (cacheIndex staleWorld) = ["a"; "b"; "c"] ∧
  map entrySize (cacheIndex staleWorld) = [5 * GiB; 5 * GiB; 5 * GiB] ∧
  fst (cacheModel (P := samplePlatform) "d" "/models/d.bin" "1.0.0" staleWorld)
  = Ok "/app/model-cache/sha256(d-1.0.0)-d.bin" ∧
  map entryKey
    (sortByLastUsed
       (cacheIndex (insertedWorld (P := samplePlatform) "d" "/models/d.bin" "1.0.0"
          (mkBlob (5 * GiB) "digest") staleWorld)))
  = ["b"; "c"; "a"; "d"] ∧
  map entryKey
    (cacheIndex (snd (cacheModel (P := samplePlatform) "d" "/models/d.bin" "1.0.0"
       staleWorld)))
  = ["b"; "d"].
Proof.
  repeat split; vm_compute; reflexivity.
Qed.

(** ** Cache lookup *)

Lemma getModelFromCache_absent (modelName : string) (w : World) :
  JsMap.get modelName (cacheIndex w) = None →
  getModelFromCache modelName w = (Ok None, w).
Proof. intros H. unfold getModelFromCache, bind, gets. by rewrite H. Qed.

Lemma getModelFromCache_missing_file (modelName : string) (e : ModelCacheEntry.t)
    (w : World) :
  JsMap.get modelName (cacheIndex w) = Some e →
  files w !! ModelCacheEntry.path e = None →
  getModelFromCache modelName w = (Ok None, purgedWorld modelName w).
Proof.
  intros Hget Hfile.
  unfold getModelFromCache, bind, gets, try_catch, fs_stat, modify. rewrite Hget.
  cbn beta iota. rewrite Hfile. cbn beta iota. unfold purgedWorld.
  pose proof (saveCacheIndex_spec
    (set_cacheIndex (JsMap.delete modelName (cacheIndex w)) w)) as [Hok _].
  destruct (saveCacheIndex _) as [r w']. cbn [fst snd] in *. by subst r.
Qed.

Lemma getModelFromCache_stale (modelName : string) (e : ModelCacheEntry.t)
    (node : Node) (w : World) :
  JsMap.get modelName (cacheIndex w) = Some e →
  files w !! ModelCacheEntry.path e = Some node →
  node = Dir ∨ maxModelAge <= clock (env w) (ticks w) - ModelCacheEntry.lastUsed e →
  getModelFromCache modelName w = (Ok None, set_ticks (S (ticks w)) w).
Proof.
  intros Hget Hfile Hstale.
  unfold getModelFromCache, bind, gets, try_catch, fs_stat, Date_now. rewrite Hget.
  cbn beta iota. rewrite Hfile.
  destruct node as [b|]; cbn beta iota; cbn [isFile andb]; [|done].
  destruct Hstale as [?|Hold]; [done|].
  destruct (Z.ltb_spec (clock (env w) (ticks w) - ModelCacheEntry.lastUsed e) maxModelAge);
    [lia | done].
Qed.

Lemma getModelFromCache_hit (modelName : string) (e : ModelCacheEntry.t)
    (b : Blob) (w : World) :
  JsMap.get modelName (cacheIndex w) = Some e →
  files w !! ModelCacheEntry.path e = Some (File b) →
  clock (env w) (ticks w) - ModelCacheEntry.lastUsed e < maxModelAge →
  getModelFromCache modelName w
  = (Ok (Some (ModelCacheEntry.path e)), touchedWorld modelName e w).
Proof.
  intros Hget Hfile Hrecent.
  unfold getModelFromCache, bind, gets, try_catch, fs_stat, Date_now, modify. rewrite Hget.
  cbn beta iota. rewrite Hfile. cbn beta iota. cbn [isFile andb].
  destruct (Z.ltb_spec (clock (env w) (ticks w) - ModelCacheEntry.lastUsed e) maxModelAge);
    [|lia].
  unfold touchedWorld, set_cacheIndex, set_ticks.
  cbn [env ticks cacheIndex files indexFile modelConfigs trace].
  match goal with |- context [saveCacheIndex ?w3] => set (touched := w3) end.
  pose proof (saveCacheIndex_spec touched) as [Hok _].
  destruct (saveCacheIndex touched) as [r w']. cbn [fst snd] in *. by subst r.
Qed.

(** C4, as the code has it.  A lookup of an entry whose file is in place
    but whose [lastUsed] is [maxModelAge] or more in the past returns
    [null], whatever the total cached size; the entry is not purged: index,
    saved index and files are as before, only the clock has been read. *)
Theorem getModelFromCache_expired (modelName : string) (e : ModelCacheEntry.t)
    (b : Blob) (w : World) :
  JsMap.get modelName (cacheIndex w) = Some e →
  files w !! ModelCacheEntry.path e = Some (File b) →
  maxModelAge <= clock (env w) (ticks w) - ModelCacheEntry.lastUsed e →
  fst (getModelFromCache modelName w) = Ok None ∧
  cacheIndex (snd (getModelFromCache modelName w)) = cacheIndex w ∧
  JsMap.get modelName (cacheIndex (snd (getModelFromCache modelName w))) = Some e ∧
  indexFile (snd (getModelFromCache modelName w)) = indexFile w ∧
  files (snd (getModelFromCache modelName w)) = files w ∧
  trace (snd (getModelFromCache modelName w)) = trace w.
Proof.
  intros Hget Hfile Hold.
  rewrite (getModelFromCache_stale modelName e (File b)) by auto.
  by repeat split.
Qed.

Lemma getModelFromCache_expired_witness :
  JsMap.get "m" (cacheIndex expiredWorld) = Some expiredEntry ∧
  files expiredWorld !! ModelCacheEntry.path expiredEntry = Some (sampleFile 1024) ∧
  maxModelAge
  <= clock (env expiredWorld) (ticks expiredWorld) - ModelCacheEntry.lastUsed expiredEntry ∧
  fst (getModelFromCache "m" expiredWorld) = Ok None ∧
  JsMap.get "m" (cacheIndex (snd (getModelFromCache "m" expiredWorld))) = Some expiredEntry.
Proof.
  assert (H1 : JsMap.get "m" (cacheIndex expiredWorld) = Some expiredEntry)
    by reflexivity.
  assert (H2 : files expiredWorld !! ModelCacheEntry.path expiredEntry
               = Some (File (mkBlob 1024 "digest")))
    by (vm_compute; reflexivity).
  assert (H3 : maxModelAge
               <= clock (env expiredWorld) (ticks expiredWorld)
                  - ModelCacheEntry.lastUsed expiredEntry)
    by (vm_compute; discriminate).
  split; [exact H1|]. split; [exact H2|]. split; [exact H3|].
  pose proof (getModelFromCache_expired "m" expiredEntry (mkBlob 1024 "digest")
                expiredWorld H1 H2 H3) as (Hr & _ & Hkept & _).
  split; [exact Hr | exact Hkept].
Defined.

(** C4, as the claim states it, fails: the entry of [expiredWorld] was last
    used thirty-one days ago and its file exists; the lookup reports it
    absent but the index still holds it afterwards, in memory and on
    disk. *)
Lemma age_expiry_counterexample :
  files expiredWorld !! "/cache/m" = Some (sampleFile 1024) ∧
  maxModelAge < clock (env expiredWorld) 0 - ModelCacheEntry.lastUsed expiredEntry ∧
  fst (getModelFromCache "m" expiredWorld) = Ok None ∧
  cacheIndex (snd (getModelFromCache "m" expiredWorld)) = [("m", expiredEntry)] ∧
  indexFile (snd (getModelFromCache "m" expiredWorld)) = Some [("m", expiredEntry)].
Proof.
  repeat split; vm_compute; reflexivity.
Qed.




(** ** Insertion of an artifact larger than the cache *)

Lemma JsMap_elem_of_set (k : string) (v : ModelCacheEntry.t) (m : CacheIndex) x :
  uniqueKeys m → x ∈ JsMap.set k v m → x = (k, v) ∨ (x ∈ m ∧ fst x ≠ k).
Proof.
  unfold uniqueKeys. induction m as [|[k0 v0] m IH]; simpl.
  - intros _ Hx. apply list_elem_of_singleton in Hx. auto.
  - rewrite NoDup_cons. intros [Hk0 Hm].
    destruct (String.eqb_spec k k0) as [->|Hne]; rewrite !elem_of_cons.
    + intros [->|Hx]; [auto|]. right. split; [auto|].
      intros Heq. apply Hk0. apply list_elem_of_fmap. exists x. by rewrite Heq.
    + intros [->|Hx]; [right; split; auto; simpl; congruence|].
      destruct (IH Hm Hx) as [?|[? ?]]; auto.
Qed.

Lemma JsMap_set_elem_of {V} (k : string) (v : V) (m : list (string * V)) :
  (k, v) ∈ JsMap.set k v m.
Proof. apply JsMap_get_elem_of, JsMap_get_set. Qed.


Section OversizedInsertion.
Context {P : Platform}.

End OversizedInsertion.


(** ** What a computation leaves alone *)

Lemma preserves_ret {X A} (f : World → X) (a : A) : preserves f (ret a).
Proof. by intros w. Qed.

Lemma preserves_throw {X A} (f : World → X) (e : string) : preserves f (throw (A := A) e).
Proof. by intros w. Qed.

Lemma preserves_gets {X A} (f : World → X) (g : World → A) : preserves f (gets g).
Proof. by intros w. Qed.

Lemma preserves_modify {X} (f : World → X) (g : World → World) :
  (∀ w, f (g w) = f w) → preserves f (modify g).
Proof. intros H w. apply H. Qed.

Lemma preserves_bind {X A B} (f : World → X) (m : M A) (k : A → M B) :
  preserves f m → (∀ a, preserves f (k a)) → preserves f (bind m k).
Proof.
  intros Hm Hk w. unfold bind. specialize (Hm w).
  destruct (m w) as [[a|e] w']; simpl in *; [|done].
  by rewrite Hk.
Qed.

Lemma preserves_try_catch {X A} (f : World → X) (m : M A) (h : string → M A) :
  preserves f m → (∀ e, preserves f (h e)) → preserves f (try_catch m h).
Proof.
  intros Hm Hh w. unfold try_catch. specialize (Hm w).
  destruct (m w) as [[a|e] w']; simpl in *; [done|].
  by rewrite Hh.
Qed.

Lemma total_ret {A} (a : A) : total (ret a).
Proof. intros w. by exists a. Qed.

Lemma total_bind {A B} (m : M A) (k : A → M B) :
  total m → (∀ a, total (k a)) → total (bind m k).
Proof.
  intros Hm Hk w. unfold bind. destruct (Hm w) as [a Ha].
  destruct (m w) as [[a'|e] w']; simpl in *; [apply Hk | done].
Qed.

Lemma total_try_catch {A} (m : M A) (h : string → M A) :
  (∀ e, total (h e)) → total (try_catch m h).
Proof.
  intros Hh w. unfold try_catch.
  destruct (m w) as [[a|e] w']; [by exists a | apply Hh].
Qed.

Lemma total_logger (lvl : Level) (message : string) : total (logger lvl message).
Proof. intros w. by exists tt. Qed.

Lemma fetchesOf_log (t : list Event) (lvl : Level) (message : string) :
  fetchesOf (t ++ [Log lvl message]) = fetchesOf t.
Proof. unfold fetchesOf. rewrite omap_app. simpl. by rewrite app_nil_r. Qed.

Lemma fetchesOf_fetch (t : list Event) (url : string) :
  fetchesOf (t ++ [Fetch url]) = (fetchesOf t ++ [url])%list.
Proof. unfold fetchesOf. by rewrite omap_app. Qed.

(** Ways of leaving an observation alone that cover the primitives. *)
Lemma preserves_logger {X} (f : World → X) (lvl : Level) (message : string) :
  (∀ w e, f (add_event (Log lvl e) w) = f w) → preserves f (logger lvl message).
Proof. intros H w. apply H. Qed.

Lemma preserves_saveCacheIndex {X} (f : World → X) :
  (∀ w i, f (set_indexFile i w) = f w) →
  (∀ w e, f (add_event (Log error e) w) = f w) →
  preserves f saveCacheIndex.
Proof.
  intros Hi Hl w. unfold saveCacheIndex.
  destruct (indexWritable (env w)); simpl; [apply Hi | apply Hl].
Qed.

Lemma preserves_Date_now {X} (f : World → X) :
  (∀ w n, f (set_ticks n w) = f w) → preserves f Date_now.
Proof. intros H w. apply H. Qed.

Lemma preserves_fs_stat {X} (f : World → X) (p : string) : preserves f (fs_stat p).
Proof. intros w. unfold fs_stat. by destruct (files w !! p) as [[?|]|]. Qed.

Lemma preserves_fs_access {X} (f : World → X) (p : string) : preserves f (fs_access p).
Proof. intros w. unfold fs_access. by destruct (files w !! p). Qed.

Lemma preserves_fs_readFile {X} (f : World → X) (p : string) : preserves f (fs_readFile p).
Proof. intros w. unfold fs_readFile. by destruct (files w !! p) as [[?|]|]. Qed.

Lemma preserves_fs_unlink {X} (f : World → X) (p : string) :
  (∀ w g, f (set_files g w) = f w) → preserves f (fs_unlink p).
Proof. intros H w. unfold fs_unlink. destruct (canUnlink w p); simpl; [apply H | done]. Qed.

Lemma preserves_fs_writeFile {X} (f : World → X) (p : string) (b : Blob) :
  (∀ w g, f (set_files g w) = f w) → preserves f (fs_writeFile p b).
Proof. intros H w. unfold fs_writeFile. destruct (canWrite w p); simpl; [apply H | done]. Qed.

Lemma preserves_fs_mkdir {X} (f : World → X) (p : string) :
  (∀ w g, f (set_files g w) = f w) → preserves f (fs_mkdir p).
Proof.
  intros H w. unfold fs_mkdir. destruct (files w !! p) as [[?|]|]; try done.
  destruct (bool_decide _); simpl; [apply H | done].
Qed.

Lemma preserves_evictWhile {X} (f : World → X) (l : CacheIndex) (cur : Z) :
  (∀ w g, f (set_files g w) = f w) →
  (∀ w i, f (set_cacheIndex i w) = f w) →
  (∀ w e, f (add_event (Log warn e) w) = f w) →
  preserves f (evictWhile l cur).
Proof.
  intros Hf Hi Hl. revert cur. induction l as [|[n e] l IH]; intros cur; simpl.
  - apply preserves_ret.
  - destruct (maxCacheSize <? cur); [|apply preserves_ret].
    apply preserves_bind; [|intros; apply IH].
    apply preserves_try_catch; [|intros; apply preserves_bind; [by apply preserves_logger|]; intros; apply preserves_ret].
    apply preserves_bind; [by apply preserves_fs_unlink|]. intros.
    apply preserves_bind; [apply preserves_modify; intros; apply Hi|]. intros.
    apply preserves_ret.
Qed.

Lemma fetched_ignoresBookkeeping : ignoresBookkeeping fetched.
Proof.
  repeat split; try done. intros w lvl e. unfold fetched. simpl. apply fetchesOf_log.
Qed.

Lemma fetched_ignoresFiles : ignoresFiles fetched.
Proof. by intros w g. Qed.

Lemma files_ignoresBookkeeping : ignoresBookkeeping files.
Proof. by repeat split. Qed.

Lemma cacheIndex_ignoresFiles : ignoresFiles cacheIndex.
Proof. by intros w g. Qed.

Lemma env_ignoresBookkeeping : ignoresBookkeeping env.
Proof. by repeat split. Qed.

Lemma env_ignoresFiles : ignoresFiles env.
Proof. by intros w g. Qed.

Lemma preserves_manageCacheSize {X} (f : World → X) :
  ignoresBookkeeping f → ignoresFiles f → preserves f manageCacheSize.
Proof.
  intros (Hi & Hs & Ht & Hc & Hl) Hf. unfold manageCacheSize.
  apply preserves_bind; [apply preserves_gets|]. intros sorted.
  apply preserves_bind; [by apply preserves_evictWhile|]. intros _.
  by apply preserves_saveCacheIndex.
Qed.

Lemma preserves_getModelFromCache {X} (f : World → X) (modelName : string) :
  ignoresBookkeeping f → preserves f (getModelFromCache modelName).
Proof.
  intros (Hi & Hs & Ht & Hc & Hl). unfold getModelFromCache.
  apply preserves_bind; [apply preserves_gets|]. intros [e|]; [|apply preserves_ret].
  apply preserves_bind; [|intros; apply preserves_ret].
  apply preserves_try_catch.
  - apply preserves_bind; [apply preserves_fs_stat|]. intros stats.
    apply preserves_bind; [by apply preserves_Date_now|]. intros now.
    destruct (_ && _); [|apply preserves_ret].
    apply preserves_bind; [by apply preserves_Date_now|]. intros now'.
    apply preserves_bind; [apply preserves_modify; intros; apply Hi|]. intros _.
    apply preserves_bind; [by apply preserves_saveCacheIndex|]. intros _.
    apply preserves_ret.
  - intros _.
    apply preserves_bind; [apply preserves_modify; intros; apply Hi|]. intros _.
    apply preserves_bind; [by apply preserves_saveCacheIndex|]. intros _.
    apply preserves_ret.
Qed.

Lemma total_getModelFromCache (modelName : string) : total (getModelFromCache modelName).
Proof.
  unfold getModelFromCache.
  apply total_bind; [intros w; by eexists|]. intros [e|]; [|apply total_ret].
  apply total_bind; [|intros; apply total_ret].
  apply total_try_catch. intros _.
  apply total_bind; [intros w; by eexists|]. intros _.
  apply total_bind; [|intros; apply total_ret].
  intros w. exists tt. apply saveCacheIndex_spec.
Qed.

Lemma checkDiskSpace_eq (requiredSpace : Z) (w : World) :
  checkDiskSpace requiredSpace w = (Ok (enoughSpace w requiredSpace), w).
Proof. reflexivity. Qed.

(** The gate is the same at every call: 500 GB against the requirement. *)
Lemma enoughSpace_eq (w : World) (requiredSpace : Z) :
  enoughSpace w requiredSpace = (snd placeholderDiskSpace >? requiredSpace).
Proof. reflexivity. Qed.

Lemma preserves_verifyModelChecksum {X} (f : World → X) (filePath expected : string) :
  ignoresBookkeeping f → preserves f (verifyModelChecksum filePath expected).
Proof.
  intros (Hi & Hs & Ht & Hc & Hl). unfold verifyModelChecksum.
  apply preserves_try_catch.
  - apply preserves_bind; [apply preserves_fs_readFile|]. intros. apply preserves_ret.
  - intros _. apply preserves_bind; [by apply preserves_logger|]. intros. apply preserves_ret.
Qed.

Lemma preserves_loadCacheIndex {X} (f : World → X) :
  ignoresBookkeeping f → preserves f loadCacheIndex.
Proof.
  intros (Hi & _) w. unfold loadCacheIndex. destruct (indexFile w); apply Hi.
Qed.

Section ManagerFrames.
Context {P : Platform}.

Lemma preserves_cacheModel {X} (f : World → X) (modelName modelPath version : string) :
  ignoresBookkeeping f → ignoresFiles f →
  preserves f (cacheModel modelName modelPath version).
Proof.
  intros Hb Hf. pose proof Hb as (Hi & Hs & Ht & Hc & Hl). unfold cacheModel.
  apply preserves_try_catch.
  - apply preserves_bind; [apply preserves_fs_stat|]. intros stats.
    apply preserves_bind.
    { unfold fs_copyFile. apply preserves_bind; [apply preserves_fs_readFile|].
      intros. by apply preserves_fs_writeFile. }
    intros _. apply preserves_bind; [by apply preserves_Date_now|]. intros now.
    apply preserves_bind; [apply preserves_modify; intros; apply Hi|]. intros _.
    apply preserves_bind; [by apply preserves_saveCacheIndex|]. intros _.
    apply preserves_bind; [by apply preserves_manageCacheSize|]. intros _.
    apply preserves_ret.
  - intros _. apply preserves_bind; [by apply preserves_logger|]. intros _.
    apply preserves_throw.
Qed.

Lemma preserves_getModelConfigs {X} (f : World → X) :
  ignoresBookkeeping f → ignoresFiles f → preserves f getModelConfigs.
Proof.
  intros Hb Hf. pose proof Hb as (Hi & Hs & Ht & Hc & Hl). unfold getModelConfigs.
  apply preserves_bind; [apply preserves_gets|]. intros configs.
  destruct (_ <? _)%nat; [apply preserves_ret|].
  apply preserves_bind.
  { unfold initializeModelDirectory. apply preserves_try_catch.
    - apply preserves_bind; [by apply preserves_fs_mkdir|]. intros _.
      unfold initializeCacheDirectory. apply preserves_try_catch.
      + apply preserves_bind; [by apply preserves_fs_mkdir|]. intros _.
        by apply preserves_loadCacheIndex.
      + intros _. apply preserves_bind; [by apply preserves_logger|]. intros _.
        apply preserves_throw.
    - intros _. apply preserves_bind; [by apply preserves_logger|]. intros _.
      apply preserves_throw. }
  intros _. apply preserves_bind; [apply preserves_modify; intros; apply Hc|].
  intros _. apply preserves_ret.
Qed.
End ManagerFrames.

Lemma getModelFromCache_cases (modelName : string) (w : World) :
  (JsMap.get modelName (cacheIndex w) = None ∧
   getModelFromCache modelName w = (Ok None, w)) ∨
  (∃ e, JsMap.get modelName (cacheIndex w) = Some e ∧
        files w !! ModelCacheEntry.path e = None ∧
        getModelFromCache modelName w = (Ok None, purgedWorld modelName w)) ∨
  (∃ e node, JsMap.get modelName (cacheIndex w) = Some e ∧
        files w !! ModelCacheEntry.path e = Some node ∧
        (node = Dir ∨
         maxModelAge <= clock (env w) (ticks w) - ModelCacheEntry.lastUsed e) ∧
        getModelFromCache modelName w = (Ok None, set_ticks (S (ticks w)) w)) ∨
  (∃ e b, JsMap.get modelName (cacheIndex w) = Some e ∧
        files w !! ModelCacheEntry.path e = Some (File b) ∧
        clock (env w) (ticks w) - ModelCacheEntry.lastUsed e < maxModelAge ∧
        getModelFromCache modelName w
        = (Ok (Some (ModelCacheEntry.path e)), touchedWorld modelName e w)).
Proof.
  destruct (JsMap.get modelName (cacheIndex w)) as [e|] eqn:Hget;
    [|left; split; [done | by apply getModelFromCache_absent]].
  right. destruct (files w !! ModelCacheEntry.path e) as [node|] eqn:Hfile;
    [|left; exists e; repeat split; try done;
      by apply (getModelFromCache_missing_file modelName e)].
  right.
  destruct (Z.lt_ge_cases (clock (env w) (ticks w) - ModelCacheEntry.lastUsed e)
              maxModelAge) as [Hrecent|Hold].
  - destruct node as [b|].
    + right. exists e, b. repeat split; try done.
      by apply (getModelFromCache_hit modelName e b).
    + left. exists e, Dir. repeat split; try done; [by left|].
      apply (getModelFromCache_stale _ e Dir); auto.
  - left. exists e, node. repeat split; try done; [by right|].
    apply (getModelFromCache_stale _ e node); auto.
Qed.

(** A lookup that did not produce a usable path either left the index as
    it was or deleted the entry it looked for. *)
Lemma getModelFromCache_miss_index (modelName : string) (w : World) :
  files w !! "" = None →
  truthy_path (cachedPathAt modelName w) = false →
  cachedPathAt modelName w = None ∧
  (cacheIndex (snd (getModelFromCache modelName w)) = cacheIndex w ∨
   cacheIndex (snd (getModelFromCache modelName w))
   = JsMap.delete modelName (cacheIndex w)).
Proof.
  intros Hempty. unfold cachedPathAt.
  destruct (getModelFromCache_cases modelName w)
    as [[_ ->]|[(e & _ & _ & ->)|[(e & node & _ & _ & _ & ->)|(e & b & _ & Hf & _ & ->)]]];
    cbn [fst snd]; intros Hmiss.
  - auto.
  - split; [done|]. right. unfold purgedWorld.
    by rewrite (proj1 (proj2 (saveCacheIndex_spec _))).
  - auto.
  - exfalso. simpl in Hmiss. unfold truthy in Hmiss.
    destruct (String.eqb_spec (ModelCacheEntry.path e) ""); [|done]. congruence.
Qed.


(** ** The download pipeline, branch by branch *)

Section DownloadBranches.
Context {P : Platform}.

Lemma downloadModel_no_space (config : ModelConfig.t) (w : World) :
  enoughSpace w (ModelConfig.requiredDiskSpace config) = false →
  downloadModel config w
  = (Ok None, add_event (Log error "Insufficient disk space for model download") w).
Proof.
  intros Hspace. unfold downloadModel. unfold try_catch at 1. unfold bind at 1.
  by rewrite checkDiskSpace_eq, Hspace.
Qed.

Lemma downloadModel_cached (config : ModelConfig.t) (p : option string) (w w3 : World) :
  enoughSpace w (ModelConfig.requiredDiskSpace config) = true →
  getModelFromCache (ModelConfig.name config) w = (Ok p, w3) →
  truthy_path p = true →
  downloadModel config w = (Ok p, w3).
Proof.
  intros Hspace Hlookup Hhit. unfold downloadModel. unfold try_catch at 1.
  unfold bind at 1. rewrite checkDiskSpace_eq, Hspace. cbn [negb].
  unfold bind at 1. by rewrite Hlookup, Hhit.
Qed.

Lemma downloadModel_attempt (config : ModelConfig.t) (p : option string) (w w3 : World) :
  enoughSpace w (ModelConfig.requiredDiskSpace config) = true →
  getModelFromCache (ModelConfig.name config) w = (Ok p, w3) →
  truthy_path p = false →
  downloadModel config w
  = match network (env w3) (ModelConfig.url config) with
    | Resolved true _ (Some modelData) =>
        if canWrite w3 (ModelConfig.localPath config) then
          match cacheModel (ModelConfig.name config) (ModelConfig.localPath config)
                  (ModelConfig.version config)
                  (set_files (<[ModelConfig.localPath config := File modelData]> (files w3))
                     (add_event (Fetch (ModelConfig.url config))
                        (add_event (Log info "Downloading model") w3)))
          with
          | (Ok cached, w7) => (Ok (Some cached), w7)
          | (Throw _, w7) => (Ok None, downloadFailedWorld w7)
          end
        else
          (Ok None,
           downloadFailedWorld
             (add_event (Fetch (ModelConfig.url config))
                (add_event (Log info "Downloading model") w3)))
    | _ =>
        (Ok None,
         downloadFailedWorld
           (add_event (Fetch (ModelConfig.url config))
              (add_event (Log info "Downloading model") w3)))
    end.
Proof.
  intros Hspace Hlookup Hmiss. unfold downloadModel. unfold try_catch at 1.
  unfold bind at 1. rewrite checkDiskSpace_eq, Hspace. cbn [negb].
  unfold bind at 1. rewrite Hlookup, Hmiss.
  unfold bind at 1. unfold logger at 1. unfold modify.
  unfold try_catch at 1. unfold bind at 1. unfold fetch.
  cbn [env add_event].
  destruct (network (env w3) (ModelConfig.url config)) as [reason|[|] statusText [modelData|]];
    cbn [fst snd negb]; try reflexivity.
  unfold bind at 1. unfold arrayBuffer, ret. unfold bind at 1.
  unfold fs_writeFile.
  change (canWrite (add_event (Fetch (ModelConfig.url config))
                      (add_event (Log info "Downloading model") w3))
            (ModelConfig.localPath config))
    with (canWrite w3 (ModelConfig.localPath config)).
  destruct (canWrite w3 (ModelConfig.localPath config)); [|reflexivity].
  unfold bind at 1. cbn [files add_event].
  destruct (cacheModel _ _ _ _) as [[cached|e] w7]; reflexivity.
Qed.
End DownloadBranches.

(** ** Failed downloads *)

Section DownloadFailure.
Context {P : Platform}.

Lemma cacheModel_failed (modelName modelPath version : string) (w : World) :
  (∀ b, files w !! modelPath = Some (File b) →
        canWrite w (cachedPathOf modelName modelPath version) = false) →
  cacheModel modelName modelPath version w
  = (Throw "Model caching failed", add_event (Log error "Model caching failed") w).
Proof.
  intros Hno.
  unfold cacheModel, try_catch, bind, fs_stat, fs_copyFile, bind, fs_readFile,
    fs_writeFile.
  destruct (files w !! modelPath) as [[b|]|] eqn:Hfile; cbn beta iota; try reflexivity.
  - rewrite Hfile. cbn beta iota. by rewrite (Hno b).
  - by rewrite Hfile.
Qed.

Lemma cacheModel_throw_index (modelName modelPath version : string) (w : World) e :
  fst (cacheModel modelName modelPath version w) = Throw e →
  cacheIndex (snd (cacheModel modelName modelPath version w)) = cacheIndex w.
Proof.
  destruct (files w !! modelPath) as [[b|]|] eqn:Hfile.
  - destruct (canWrite w (cachedPathOf modelName modelPath version)) eqn:Hwrite.
    + by rewrite (cacheModel_inserted _ _ _ b).
    + rewrite cacheModel_failed; [done|]. intros b' _. exact Hwrite.
  - rewrite cacheModel_failed; [done|]. intros b' Hb. congruence.
  - rewrite cacheModel_failed; [done|]. intros b' Hb. congruence.
Qed.

(** C8.  A download that ends in failure ([downloadModel] returning
    [null]) registers no cache entry: the index is the one before the call,
    or that one without the stale entry the lookup purged.  Once the
    request has gone out, a rejected or aborted request, a non-success
    status, a body that does not arrive and a refused write all end in
    failure.  With a non-success status nothing is written: the files are
    those before the call. *)
Theorem downloadModel_failure (config : ModelConfig.t) (w : World) :
  files w !! "" = None →
  (fst (downloadModel config w) = Ok None →
   cacheIndex (snd (downloadModel config w)) = cacheIndex w ∨
   cacheIndex (snd (downloadModel config w))
   = JsMap.delete (ModelConfig.name config) (cacheIndex w)) ∧
  (fetched (snd (downloadModel config w)) ≠ fetched w →
   transferFails w config →
   fst (downloadModel config w) = Ok None) ∧
  (∀ statusText body,
     network (env w) (ModelConfig.url config) = Resolved false statusText body →
     files (snd (downloadModel config w)) = files w).
Proof.
  intros Hempty.
  destruct (enoughSpace w (ModelConfig.requiredDiskSpace config)) eqn:Hspace;
    [|rewrite downloadModel_no_space by done; cbn [fst snd];
      split; [auto | split; [|done]];
      intros Hf; exfalso; apply Hf; apply fetched_ignoresBookkeeping].
  pose proof (preserves_getModelFromCache env (ModelConfig.name config)
                env_ignoresBookkeeping w) as Henv.
  pose proof (preserves_getModelFromCache files (ModelConfig.name config)
                files_ignoresBookkeeping w) as Hfiles.
  pose proof (preserves_getModelFromCache fetched (ModelConfig.name config)
                fetched_ignoresBookkeeping w) as Hfetched.
  pose proof (getModelFromCache_miss_index (ModelConfig.name config) w Hempty) as Hmiss.
  unfold cachedPathAt in Hmiss.
  destruct (total_getModelFromCache (ModelConfig.name config) w) as [p Hp].
  destruct (getModelFromCache (ModelConfig.name config) w) as [r w3] eqn:Hlookup.
  cbn [fst snd] in *. subst r.
  destruct (truthy_path p) eqn:Hhit.
  { rewrite (downloadModel_cached config p w w3) by done. cbn [fst snd].
    split; [|split; [|by intros]].
    - intros [= ->]. done.
    - intros Hf. by rewrite Hfetched in Hf. }
  destruct (Hmiss eq_refl) as [-> Hidx].
  rewrite (downloadModel_attempt config None w w3) by done.
  unfold transferFails. rewrite Henv.
  assert (Hw : canWrite w3 (ModelConfig.localPath config)
               = canWrite w (ModelConfig.localPath config)).
  { unfold canWrite. by rewrite Hfiles, Henv. }
  rewrite Hw.
  destruct (network (env w) (ModelConfig.url config))
    as [reason|[|] statusText [modelData|]]; cbn [fst snd];
    try (split; [intros _; exact Hidx | split; [done|]];
         intros st body Hst; try discriminate Hst; exact Hfiles).
  destruct (canWrite w (ModelConfig.localPath config)) eqn:Hcw; cbn [fst snd];
    [|split; [intros _; exact Hidx | split; [done | intros st body Hst; discriminate Hst]]].
  match goal with |- context [cacheModel ?n ?mp ?v ?w6] =>
    pose proof (cacheModel_throw_index n mp v w6) as Hthrow;
    destruct (cacheModel n mp v w6) as [[cached|e] w7] end;
    cbn [fst snd] in *.
  - split; [discriminate | split; [discriminate|]].
    intros st body Hst. discriminate Hst.
  - split; [|split; [done | intros st body Hst; discriminate Hst]].
    intros _. unfold downloadFailedWorld. cbn [cacheIndex add_event].
    rewrite (Hthrow e eq_refl). exact Hidx.
Qed.
End DownloadFailure.

Lemma downloadModel_failure_witness :
  files notFoundWorld !! "" = None ∧
  fst (downloadModel (P := samplePlatform) whisperConfig notFoundWorld) = Ok None ∧
  fetched (snd (downloadModel (P := samplePlatform) whisperConfig notFoundWorld))
  ≠ fetched notFoundWorld ∧
  transferFails notFoundWorld whisperConfig ∧
  (cacheIndex (snd (downloadModel (P := samplePlatform) whisperConfig notFoundWorld))
   = cacheIndex notFoundWorld ∨
   cacheIndex (snd (downloadModel (P := samplePlatform) whisperConfig notFoundWorld))
   = JsMap.delete (ModelConfig.name whisperConfig) (cacheIndex notFoundWorld)) ∧
  files (snd (downloadModel (P := samplePlatform) whisperConfig notFoundWorld))
  = files notFoundWorld.
Proof.
  assert (H0 : files notFoundWorld !! "" = None) by (vm_compute; reflexivity).
  assert (Hf : fetched (snd (downloadModel (P := samplePlatform) whisperConfig notFoundWorld))
               ≠ fetched notFoundWorld) by (vm_compute; discriminate).
  assert (Ht : transferFails notFoundWorld whisperConfig) by exact I.
  pose proof (downloadModel_failure (P := samplePlatform) whisperConfig notFoundWorld H0)
    as (Hindex & Hfail & Hfiles).
  split; [exact H0|]. split; [exact (Hfail Hf Ht)|]. split; [exact Hf|].
  split; [exact Ht|]. split; [exact (Hindex (Hfail Hf Ht))|].
  exact (Hfiles "Not Found" None eq_refl).
Defined.

(** ** The acquisition orchestrator after a cache miss *)

Lemma verifyModelChecksum_mismatch (filePath expected : string) (node : Node) (w : World) :
  files w !! filePath = Some node →
  (∀ b, node = File b → blob_sha256 b ≠ expected) →
  ∃ w', verifyModelChecksum filePath expected w = (Ok false, w') ∧
        files w' = files w ∧ cacheIndex w' = cacheIndex w ∧ fetched w' = fetched w.
Proof.
  intros Hfile Hbad. unfold verifyModelChecksum, try_catch, bind, fs_readFile.
  rewrite Hfile. destruct node as [b|]; cbn beta iota.
  - exists w. repeat split. unfold ret.
    destruct (String.eqb_spec (blob_sha256 b) expected) as [Heq|]; [|done].
    by destruct (Hbad b eq_refl).
  - eexists. repeat split. apply fetched_ignoresBookkeeping.
Qed.

Section Orchestrator.
Context {P : Platform}.

(** C7.  The catalog resolves, the cache misses, a file (or directory)
    exists at [localPath], a checksum is declared and the digest of the
    file is another one (or the file cannot be read): [ensureModelAvailable]
    returns [null], the file system is untouched, so the invalid file is
    still there, no request is sent and nothing is cached. *)
Theorem ensureModelAvailable_checksum_mismatch (modelType : ModelType) (w : World)
    (configs : list ModelConfig.t) (w1 : World) (modelConfig : ModelConfig.t)
    (cachedModelPath : option string) (w2 : World) (node : Node) :
  getModelConfigs w = (Ok configs, w1) →
  find (fun config => ModelType_eqb (ModelConfig.type config) modelType) configs
  = Some modelConfig →
  getModelFromCache (ModelConfig.name modelConfig) w1 = (Ok cachedModelPath, w2) →
  truthy_path cachedModelPath = false →
  files w2 !! ModelConfig.localPath modelConfig = Some node →
  truthy (ModelConfig.checksum modelConfig) = true →
  (∀ b, node = File b → blob_sha256 b ≠ ModelConfig.checksum modelConfig) →
  fst (ensureModelAvailable modelType w) = Ok None ∧
  files (snd (ensureModelAvailable modelType w)) = files w2 ∧
  files (snd (ensureModelAvailable modelType w)) !! ModelConfig.localPath modelConfig
  = Some node ∧
  fetched (snd (ensureModelAvailable modelType w)) = fetched w ∧
  cacheIndex (snd (ensureModelAvailable modelType w)) = cacheIndex w2.
Proof.
  intros Hconfigs Hfind Hlookup Hmiss Hfile Hdeclared Hbad.
  pose proof (preserves_getModelConfigs fetched fetched_ignoresBookkeeping
                fetched_ignoresFiles w) as Hf1.
  pose proof (preserves_getModelFromCache fetched (ModelConfig.name modelConfig)
                fetched_ignoresBookkeeping w1) as Hf2.
  rewrite Hconfigs in Hf1. rewrite Hlookup in Hf2. cbn [snd] in Hf1, Hf2.
  destruct (verifyModelChecksum_mismatch (ModelConfig.localPath modelConfig)
              (ModelConfig.checksum modelConfig) node w2 Hfile Hbad)
    as (w3 & Hverify & Hfiles3 & Hindex3 & Hfetched3).
  assert (Heq : ensureModelAvailable modelType w
                = (Ok None,
                   add_event (Log warn "Model checksum invalid, re-downloading") w3)).
  { unfold ensureModelAvailable. unfold try_catch at 1. unfold bind at 1.
    rewrite Hconfigs, Hfind. unfold bind at 1. rewrite Hlookup, Hmiss.
    unfold try_catch at 1. unfold bind at 1. unfold fs_access. rewrite Hfile.
    rewrite Hdeclared. unfold bind at 1. by rewrite Hverify. }
  rewrite Heq. cbn [fst snd files cacheIndex add_event].
  split; [done|]. split; [exact Hfiles3|]. split; [by rewrite Hfiles3|].
  split; [|exact Hindex3].
  unfold fetched in *. cbn [trace add_event]. rewrite fetchesOf_log. congruence.
Qed.


(** Requests sent by [downloadModel]: one, when there is enough space and
    the lookup misses; none otherwise. *)
Lemma downloadModel_fetched (config : ModelConfig.t) (w : World) :
  fetched (snd (downloadModel config w))
  = (fetched w ++
     if enoughSpace w (ModelConfig.requiredDiskSpace config)
        && negb (truthy_path (cachedPathAt (ModelConfig.name config) w))
     then [ModelConfig.url config] else [])%list.
Proof.
  destruct (enoughSpace w (ModelConfig.requiredDiskSpace config)) eqn:Hspace;
    [|rewrite downloadModel_no_space by done; cbn [snd andb];
      rewrite app_nil_r; apply fetched_ignoresBookkeeping].
  pose proof (preserves_getModelFromCache fetched (ModelConfig.name config)
                fetched_ignoresBookkeeping w) as Hfetched.
  unfold cachedPathAt.
  destruct (total_getModelFromCache (ModelConfig.name config) w) as [p Hp].
  destruct (getModelFromCache (ModelConfig.name config) w) as [r w3] eqn:Hlookup.
  cbn [fst snd] in *. subst r. cbn [andb].
  destruct (truthy_path p) eqn:Hhit; cbn [negb].
  { rewrite (downloadModel_cached config p w w3) by done. cbn [snd].
    by rewrite app_nil_r. }
  rewrite (downloadModel_attempt config p w w3) by done.
  assert (Hsent : True → fetched (downloadFailedWorld
                     (add_event (Fetch (ModelConfig.url config))
                        (add_event (Log info "Downloading model") w3)))
                   = (fetched w ++ [ModelConfig.url config])%list).
  { intros _. unfold fetched in *. unfold downloadFailedWorld. cbn [trace add_event].
    rewrite fetchesOf_log, fetchesOf_fetch, fetchesOf_log. by rewrite Hfetched. }
  specialize (Hsent I).
  destruct (network (env w3) (ModelConfig.url config))
    as [reason|[|] statusText [modelData|]]; cbn [snd]; try exact Hsent.
  destruct (canWrite w3 (ModelConfig.localPath config)); cbn [snd];
    [|exact Hsent].
  match goal with |- context [cacheModel ?n ?mp ?v ?w6] =>
    pose proof (preserves_cacheModel fetched n mp v fetched_ignoresBookkeeping
                  fetched_ignoresFiles w6) as Hcm;
    destruct (cacheModel n mp v w6) as [[cached|e] w7] end;
    cbn [fst snd] in *.
  - rewrite Hcm. unfold fetched in *. cbn [trace set_files add_event].
    rewrite fetchesOf_fetch, fetchesOf_log. by rewrite Hfetched.
  - unfold downloadFailedWorld.
    rewrite (proj2 (proj2 (proj2 (proj2 fetched_ignoresBookkeeping)))).
    rewrite Hcm. unfold fetched in *. cbn [trace set_files add_event].
    rewrite fetchesOf_fetch, fetchesOf_log. by rewrite Hfetched.
Qed.
End Orchestrator.

Section SpaceGate.
Context {P : Platform}.

End SpaceGate.


(** Both sides of the gate.  The descriptors [getModelConfigs] installs
    declare less than [getDiskSpace] reports, and in [roomyWorld] the
    request for ["whisper-small"] goes out.  In [hungryWorld] the catalog
    holds a descriptor that declares 600 GiB: nothing is requested. *)
Example ensureModelAvailable_both_sides :
  Forall (fun config => ModelConfig.requiredDiskSpace config < snd placeholderDiskSpace)
    (catalog (P := samplePlatform)) ∧
  fetched (snd (ensureModelAvailable (P := samplePlatform) transcription roomyWorld))
  = [ModelConfig.url whisperConfig] ∧
  fst (ensureModelAvailable (P := samplePlatform) transcription hungryWorld) = Ok None ∧
  fetched (snd (ensureModelAvailable (P := samplePlatform) transcription hungryWorld)) = [].
Proof.
  split; [repeat constructor|]. repeat split; vm_compute; reflexivity.
Qed.

Lemma ensureModelAvailable_checksum_mismatch_witness :
  getModelConfigs (P := samplePlatform) corruptWorld = (Ok [checkedConfig], corruptWorld) ∧
  find (fun config => ModelType_eqb (ModelConfig.type config) transcription)
    [checkedConfig] = Some checkedConfig ∧
  getModelFromCache (ModelConfig.name checkedConfig) corruptWorld = (Ok None, corruptWorld) ∧
  truthy_path None = false ∧
  files corruptWorld !! ModelConfig.localPath checkedConfig
  = Some (File (mkBlob 1024 "ffff0000")) ∧
  truthy (ModelConfig.checksum checkedConfig) = true ∧
  (∀ b, File (mkBlob 1024 "ffff0000") = File b →
        blob_sha256 b ≠ ModelConfig.checksum checkedConfig) ∧
  fst (ensureModelAvailable (P := samplePlatform) transcription corruptWorld) = Ok None ∧
  files (snd (ensureModelAvailable (P := samplePlatform) transcription corruptWorld))
    !! ModelConfig.localPath checkedConfig
  = Some (File (mkBlob 1024 "ffff0000")) ∧
  fetched (snd (ensureModelAvailable (P := samplePlatform) transcription corruptWorld))
  = fetched corruptWorld.
Proof.
  assert (H1 : getModelConfigs (P := samplePlatform) corruptWorld
               = (Ok [checkedConfig], corruptWorld)) by reflexivity.
  assert (H2 : find (fun config => ModelType_eqb (ModelConfig.type config) transcription)
                 [checkedConfig] = Some checkedConfig) by reflexivity.
  assert (H3 : getModelFromCache (ModelConfig.name checkedConfig) corruptWorld
               = (Ok None, corruptWorld)) by reflexivity.
  assert (H4 : truthy_path None = false) by reflexivity.
  assert (H5 : files corruptWorld !! ModelConfig.localPath checkedConfig
               = Some (File (mkBlob 1024 "ffff0000"))) by (vm_compute; reflexivity).
  assert (H6 : truthy (ModelConfig.checksum checkedConfig) = true) by reflexivity.
  assert (H7 : ∀ b, File (mkBlob 1024 "ffff0000") = File b →
                    blob_sha256 b ≠ ModelConfig.checksum checkedConfig).
  { intros b [= <-]. vm_compute. discriminate. }
  pose proof (ensureModelAvailable_checksum_mismatch (P := samplePlatform) transcription
                corruptWorld [checkedConfig] corruptWorld checkedConfig None corruptWorld
                (File (mkBlob 1024 "ffff0000")) H1 H2 H3 H4 H5 H6 H7)
    as (Hr & _ & Hkept & Hquiet & _).
  repeat (split; [assumption|]). exact Hquiet.
Defined.

(** ** Clearing the cache *)

Lemma unlinkAll_cons (n : string) (e : ModelCacheEntry.t) (entries : CacheIndex)
    (w : World) :
  unlinkAll ((n, e) :: entries) w
  = unlinkAll entries
      (if canUnlink w (ModelCacheEntry.path e)
       then set_files (delete (ModelCacheEntry.path e) (files w)) w
       else w).
Proof.
  cbn [unlinkAll]. unfold bind at 1. unfold try_catch, fs_unlink.
  by destruct (canUnlink w (ModelCacheEntry.path e)).
Qed.

Lemma unlinkAll_spec (entries : CacheIndex) (w : World) :
  fst (unlinkAll entries w) = Ok tt ∧
  cacheIndex (snd (unlinkAll entries w)) = cacheIndex w ∧
  env (snd (unlinkAll entries w)) = env w ∧
  indexFile (snd (unlinkAll entries w)) = indexFile w ∧
  trace (snd (unlinkAll entries w)) = trace w ∧
  ∀ p, files (snd (unlinkAll entries w)) !! p
       = if bool_decide (p ∈ map entryPath entries) && canUnlink w p
         then None else files w !! p.
Proof.
  revert w. induction entries as [|[n e] entries IH]; intros w.
  - cbn [unlinkAll ret fst snd map].
    split; [done|]. split; [done|]. split; [done|]. split; [done|]. split; [done|].
    intros p. rewrite bool_decide_eq_false_2; [done | apply not_elem_of_nil].
  - rewrite unlinkAll_cons.
    destruct (canUnlink w (ModelCacheEntry.path e)) eqn:Hcan.
    + set (w1 := set_files (delete (ModelCacheEntry.path e) (files w)) w).
      destruct (IH w1) as (Hok & Hi & He & Hx & Ht & Hf).
      split; [done|]. split; [done|]. split; [done|]. split; [done|]. split; [done|].
      intros p. rewrite Hf. cbn [map]. unfold entryPath at 2. cbn [snd].
      destruct (decide (p = ModelCacheEntry.path e)) as [->|Hne].
      * rewrite (bool_decide_eq_true_2 (_ ∈ _ :: _)) by (apply elem_of_cons; auto).
        rewrite Hcan. cbn [andb].
        assert (Hgone : canUnlink w1 (ModelCacheEntry.path e) = false).
        { unfold canUnlink, w1. cbn [files set_files]. by rewrite lookup_delete_eq. }
        rewrite Hgone, andb_false_r. unfold w1. cbn [files set_files].
        apply lookup_delete_eq.
      * assert (Hsame : canUnlink w1 p = canUnlink w p).
        { unfold canUnlink, w1. cbn [files env set_files]. by rewrite lookup_delete_ne. }
        rewrite Hsame. unfold w1. cbn [files set_files].
        rewrite lookup_delete_ne by done.
        destruct (decide (p ∈ map entryPath entries)) as [Hin|Hout].
        -- rewrite !bool_decide_eq_true_2; [done | apply elem_of_cons; auto | done].
        -- rewrite !bool_decide_eq_false_2; [done | | done].
           rewrite elem_of_cons. tauto.
    + destruct (IH w) as (Hok & Hi & He & Hx & Ht & Hf).
      split; [done|]. split; [done|]. split; [done|]. split; [done|]. split; [done|].
      intros p. rewrite Hf. cbn [map]. unfold entryPath at 2. cbn [snd].
      destruct (decide (p = ModelCacheEntry.path e)) as [->|Hne].
      * by rewrite Hcan, !andb_false_r.
      * destruct (decide (p ∈ map entryPath entries)) as [Hin|Hout].
        -- rewrite !bool_decide_eq_true_2; [done | apply elem_of_cons; auto | done].
        -- rewrite !bool_decide_eq_false_2; [done | | done].
           rewrite elem_of_cons. tauto.
Qed.

(** X1.  [clearCache] never throws and leaves the index empty, in memory
    and (when the index file can be written) on disk.  Of the files, those
    of the former entries that could be unlinked are gone; a file whose
    unlink is refused stays although nothing refers to it any more; no
    other path is touched. *)
Theorem clearCache_spec (w : World) :
  fst (clearCache w) = Ok tt ∧
  cacheIndex (snd (clearCache w)) = [] ∧
  indexFile (snd (clearCache w))
  = (if indexWritable (env w) then Some [] else indexFile w) ∧
  ∀ p, files (snd (clearCache w)) !! p
       = if bool_decide (p ∈ map entryPath (cacheIndex w)) && canUnlink w p
         then None else files w !! p.
Proof.
  destruct (unlinkAll_spec (cacheIndex w) w) as (Hok & Hi & He & Hx & Ht & Hf).
  unfold clearCache, try_catch, bind, gets, modify.
  destruct (unlinkAll (cacheIndex w) w) as [r w1]. cbn [fst snd] in *. subst r.
  destruct (saveCacheIndex_spec (set_cacheIndex [] w1))
    as (Hsok & Hsi & Hsf & Hse & _ & _ & _ & Hsaved).
  destruct (saveCacheIndex (set_cacheIndex [] w1)) as [r w2]. cbn [fst snd] in *. subst r.
  unfold logger, modify. cbn [fst snd cacheIndex indexFile files add_event].
  rewrite Hsi, Hsaved, Hsf. cbn [cacheIndex env indexFile files set_cacheIndex].
  rewrite He, Hx. repeat split. exact Hf.
Qed.

(** ** Loading the catalog *)

Lemma fs_mkdir_cases (p : string) (w : World) :
  (canMkdir w p = true ∧ fst (fs_mkdir p w) = Ok tt ∧
   cacheIndex (snd (fs_mkdir p w)) = cacheIndex w ∧
   modelConfigs (snd (fs_mkdir p w)) = modelConfigs w ∧
   indexFile (snd (fs_mkdir p w)) = indexFile w) ∨
  (canMkdir w p = false ∧ ∃ e, fs_mkdir p w = (Throw e, w)).
Proof.
  unfold canMkdir, fs_mkdir. destruct (files w !! p) as [[b|]|].
  - right. eauto.
  - left. by repeat split.
  - destruct (bool_decide (p ∉ denyWrite (env w))); [left; by repeat split | right; eauto].
Qed.

Section CatalogLoading.
Context {P : Platform}.

Lemma initializeModelDirectory_cases (w : World) :
  (canMkdir w modelsDir = true ∧
   canMkdir (snd (fs_mkdir modelsDir w)) cacheDir = true ∧
   fst (initializeModelDirectory w) = Ok tt ∧
   modelConfigs (snd (initializeModelDirectory w)) = modelConfigs w ∧
   cacheIndex (snd (initializeModelDirectory w))
   = match indexFile w with Some entries => JsMap.of_entries entries | None => [] end) ∨
  ((canMkdir w modelsDir = false ∨
    canMkdir (snd (fs_mkdir modelsDir w)) cacheDir = false) ∧
   fst (initializeModelDirectory w) = Throw "Model directory initialization failed" ∧
   modelConfigs (snd (initializeModelDirectory w)) = modelConfigs w ∧
   cacheIndex (snd (initializeModelDirectory w)) = cacheIndex w).
Proof.
  assert (Heq : initializeModelDirectory w
                = match fs_mkdir modelsDir w with
                  | (Ok _, w1) =>
                      match fs_mkdir cacheDir w1 with
                      | (Ok _, w2) => loadCacheIndex w2
                      | (Throw _, w2) =>
                          (Throw "Model directory initialization failed",
                           add_event (Log error "Failed to create models directory")
                             (add_event (Log error "Failed to initialize model cache") w2))
                      end
                  | (Throw _, w1) =>
                      (Throw "Model directory initialization failed",
                       add_event (Log error "Failed to create models directory") w1)
                  end).
  { unfold initializeModelDirectory. unfold try_catch at 1. unfold bind at 1.
    destruct (fs_mkdir modelsDir w) as [[[]|e] w1]; [|reflexivity].
    unfold initializeCacheDirectory. unfold try_catch at 1. unfold bind at 1.
    destruct (fs_mkdir cacheDir w1) as [[[]|e] w2]; [|reflexivity].
    unfold loadCacheIndex. by destruct (indexFile w2). }
  rewrite Heq. clear Heq.
  destruct (fs_mkdir_cases modelsDir w)
    as [(Hcan & Hok & Hi & Hc & Hx)|(Hcan & e & Heq)].
  - destruct (fs_mkdir modelsDir w) as [r w1]. cbn [fst snd] in *. subst r.
    destruct (fs_mkdir_cases cacheDir w1)
      as [(Hcan2 & Hok2 & Hi2 & Hc2 & Hx2)|(Hcan2 & e2 & Heq2)].
    + left. destruct (fs_mkdir cacheDir w1) as [r w2]. cbn [fst snd] in *. subst r.
      unfold loadCacheIndex. rewrite Hx2, Hx.
      destruct (indexFile w); cbn [fst snd modelConfigs cacheIndex set_cacheIndex];
        repeat split; try done; congruence.
    + right. rewrite Heq2.
      cbn [fst snd modelConfigs cacheIndex add_event]. repeat split; try done; auto.
  - right. rewrite Heq.
    cbn [fst snd modelConfigs cacheIndex add_event]. repeat split; auto.
Qed.

Lemma getModelConfigs_loaded (w : World) :
  modelConfigs w ≠ [] → getModelConfigs w = (Ok (modelConfigs w), w).
Proof.
  intros Hne. unfold getModelConfigs, bind, gets.
  destruct (modelConfigs w) as [|c l]; [done | reflexivity].
Qed.

Lemma getModelConfigs_empty (w : World) :
  modelConfigs w = [] →
  getModelConfigs w
  = match initializeModelDirectory w with
    | (Ok _, w') => (Ok catalog, set_modelConfigs catalog w')
    | (Throw e, w') => (Throw e, w')
    end.
Proof.
  intros Hnil. unfold getModelConfigs. unfold bind at 1. unfold gets. rewrite Hnil.
  cbn [length Nat.ltb Nat.leb]. unfold bind at 1.
  by destruct (initializeModelDirectory w) as [[[]|e] w'].
Qed.

(** X3.  Once [getModelConfigs] has succeeded, calling it again returns
    the same descriptors and changes nothing: the directories are created
    and the index file is read on the first call only.  What it returns is
    the catalog the manager holds, which is never empty. *)
Theorem getModelConfigs_idempotent (w w1 : World) (configs : list ModelConfig.t) :
  getModelConfigs w = (Ok configs, w1) →
  getModelConfigs w1 = (Ok configs, w1) ∧
  modelConfigs w1 = configs ∧ configs ≠ [].
Proof.
  intros Hfirst.
  destruct (modelConfigs w) as [|c l] eqn:Hc.
  - rewrite getModelConfigs_empty in Hfirst by done.
    destruct (initializeModelDirectory w) as [[[]|e] w']; [|discriminate].
    injection Hfirst as <- <-.
    split; [|by split]. by rewrite getModelConfigs_loaded.
  - rewrite getModelConfigs_loaded in Hfirst by (rewrite Hc; done).
    injection Hfirst as <- <-. rewrite Hc.
    split; [|by split]. rewrite getModelConfigs_loaded; rewrite Hc; done.
Qed.

(** X4.  [getModelConfigs] throws exactly when the catalog is not loaded
    yet and the models directory or, after it, the cache directory cannot
    be created; the error is always 'Model directory initialization
    failed', also when it is the cache directory that failed.  The catalog
    then stays empty, so the next call tries again, and the cache index is
    not touched. *)
Theorem getModelConfigs_failure (w : World) :
  ((∃ e, fst (getModelConfigs w) = Throw e) ↔
   modelConfigs w = [] ∧
   (canMkdir w modelsDir = false ∨
    canMkdir (snd (fs_mkdir modelsDir w)) cacheDir = false)) ∧
  (∀ e, fst (getModelConfigs w) = Throw e →
     e = "Model directory initialization failed" ∧
     modelConfigs (snd (getModelConfigs w)) = [] ∧
     cacheIndex (snd (getModelConfigs w)) = cacheIndex w).
Proof.
  destruct (modelConfigs w) as [|c l] eqn:Hc.
  - rewrite getModelConfigs_empty by done.
    destruct (initializeModelDirectory_cases w)
      as [(H1 & H2 & Hok & Hm & Hi)|(Hcan & Hthrow & Hm & Hi)];
      destruct (initializeModelDirectory w) as [[[]|e0] w']; cbn [fst snd] in *;
      try discriminate.
    + split; [|intros e [=]]. split; [intros [e [=]]|].
      intros [_ [Hno|Hno]]; congruence.
    + injection Hthrow as ->. split; [split; eauto|].
      intros e [= <-]. repeat split; [congruence | done].
  - rewrite getModelConfigs_loaded by (rewrite Hc; done). cbn [fst snd].
    split; [|intros e [=]]. split; [intros [e [=]] | intros [[=] _]].
Qed.
End CatalogLoading.

Lemma getModelConfigs_idempotent_witness :
  getModelConfigs (P := samplePlatform) roomyWorld
  = (Ok (catalog (P := samplePlatform)), roomyLoaded) ∧
  getModelConfigs (P := samplePlatform) roomyLoaded
  = (Ok (catalog (P := samplePlatform)), roomyLoaded).
Proof.
  assert (H1 : getModelConfigs (P := samplePlatform) roomyWorld
               = (Ok (catalog (P := samplePlatform)), roomyLoaded))
    by (vm_compute; reflexivity).
  split; [exact H1|].
  exact (proj1 (getModelConfigs_idempotent (P := samplePlatform) roomyWorld roomyLoaded
                  (catalog (P := samplePlatform)) H1)).
Defined.

(** [blockedWorld]: the models directory cannot be created, the catalog
    is not installed. *)
Example getModelConfigs_blockedWorld :
  fst (getModelConfigs (P := samplePlatform) blockedWorld)
  = Throw "Model directory initialization failed" ∧
  modelConfigs (snd (getModelConfigs (P := samplePlatform) blockedWorld)) = [] ∧
  fst (ensureModelAvailable (P := samplePlatform) transcription blockedWorld) = Ok None.
Proof. repeat split; vm_compute; reflexivity. Qed.

(** ** Insertion into the cache *)

Lemma JsMap_get_set_ne {V} (k k' : string) (v : V) (m : list (string * V)) :
  k' ≠ k → JsMap.get k' (JsMap.set k v m) = JsMap.get k' m.
Proof.
  intros Hne. induction m as [|[k0 v0] m IH]; simpl.
  - by destruct (String.eqb_spec k' k).
  - destruct (String.eqb_spec k k0) as [->|Hk]; simpl.
    + destruct (String.eqb_spec k' k0); [done | reflexivity].
    + by rewrite IH.
Qed.

Lemma JsMap_keys_set_present {V} (k : string) (v : V) (m : list (string * V)) :
  k ∈ JsMap.keys m → JsMap.keys (JsMap.set k v m) = JsMap.keys m.
Proof.
  induction m as [|[k0 v0] m IH]; simpl.
  - intros H. by apply elem_of_nil in H.
  - destruct (String.eqb_spec k k0) as [->|Hk]; simpl; [done|].
    rewrite elem_of_cons. intros [?|Hin]; [done|]. by rewrite IH.
Qed.

Lemma sweptWorld_ticks (w : World) : ticks (sweptWorld w) = ticks w.
Proof. apply (evictWhile_frame _ _ w). Qed.

Lemma sweptWorld_env (w : World) : env (sweptWorld w) = env w.
Proof. apply (evictWhile_frame _ _ w). Qed.

Section InsertionExtras.
Context {P : Platform}.

(** X5.  [cacheModel] throws exactly when the model path is not a regular
    file or the copy into the cache directory is refused.  The error is
    then 'Model caching failed' whatever the cause, one error record is
    logged, and index, index file and files are as before. *)
Theorem cacheModel_error (modelName modelPath version : string) (w : World) :
  ((∃ e, fst (cacheModel modelName modelPath version w) = Throw e) ↔
   ¬ ∃ b, files w !! modelPath = Some (File b) ∧
          canWrite w (cachedPathOf modelName modelPath version) = true) ∧
  (∀ e, fst (cacheModel modelName modelPath version w) = Throw e →
     e = "Model caching failed" ∧
     cacheIndex (snd (cacheModel modelName modelPath version w)) = cacheIndex w ∧
     indexFile (snd (cacheModel modelName modelPath version w)) = indexFile w ∧
     files (snd (cacheModel modelName modelPath version w)) = files w ∧
     trace (snd (cacheModel modelName modelPath version w))
     = (trace w ++ [Log error "Model caching failed"])%list).
Proof.
  destruct (files w !! modelPath) as [[b|]|] eqn:Hfile;
    [destruct (canWrite w (cachedPathOf modelName modelPath version)) eqn:Hwrite|..].
  - rewrite (cacheModel_inserted _ _ _ b) by done. cbn [fst snd].
    split; [|intros e [=]]. split; [intros [e [=]]|].
    intros Hno. destruct Hno. eauto.
  - rewrite cacheModel_failed by (intros b' _; exact Hwrite). cbn [fst snd].
    split; [|intros e [= <-]; by repeat split].
    split; [|eauto]. intros _ (b' & _ & Hw). congruence.
  - rewrite cacheModel_failed by (intros b' Hb; congruence). cbn [fst snd].
    split; [|intros e [= <-]; by repeat split].
    split; [|eauto]. intros _ (b' & Hb & _). congruence.
  - rewrite cacheModel_failed by (intros b' Hb; congruence). cbn [fst snd].
    split; [|intros e [= <-]; by repeat split].
    split; [|eauto]. intros _ (b' & Hb & _). congruence.
Qed.

Lemma insertedWorld_ticks (modelName modelPath version : string) (b : Blob)
    (w : World) :
  ticks (insertedWorld modelName modelPath version b w) = S (ticks w).
Proof.
  unfold insertedWorld.
  by rewrite (proj1 (proj2 (proj2 (proj2 (proj2 (saveCacheIndex_spec _)))))).
Qed.

(** [cacheModel] when the copy succeeds and the index stays within the
    ceiling: the world is the one built for the sweep. *)
Lemma cacheModel_no_eviction (modelName modelPath version : string) (b : Blob)
    (w : World) :
  files w !! modelPath = Some (File b) →
  canWrite w (cachedPathOf modelName modelPath version) = true →
  totalSize (cacheIndex (insertedWorld modelName modelPath version b w)) <= maxCacheSize →
  fst (cacheModel modelName modelPath version w)
  = Ok (cachedPathOf modelName modelPath version) ∧
  cacheIndex (snd (cacheModel modelName modelPath version w))
  = cacheIndex (insertedWorld modelName modelPath version b w) ∧
  files (snd (cacheModel modelName modelPath version w))
  = files (insertedWorld modelName modelPath version b w) ∧
  ticks (snd (cacheModel modelName modelPath version w)) = S (ticks w) ∧
  env (snd (cacheModel modelName modelPath version w)) = env w.
Proof.
  intros Hfile Hwrite Hfits.
  rewrite (cacheModel_inserted _ _ _ b) by done. cbn [fst snd].
  set (wi := insertedWorld modelName modelPath version b w) in *.
  destruct (sweptWorld_quiescent wi (or_introl Hfits)) as [Hqi Hqf].
  destruct (saveCacheIndex_spec (sweptWorld wi)) as (_ & Hi & Hf & He & Ht & _).
  rewrite manageCacheSize_eq, Hi, Hf, He, Ht, Hqi, Hqf, sweptWorld_ticks, sweptWorld_env.
  unfold wi. by rewrite insertedWorld_ticks, insertedWorld_env.
Qed.

(** X6.  Insert, then look up.  After a [cacheModel] that succeeded
    without the index exceeding the ceiling, a lookup of the model at once
    returns the very path [cacheModel] returned, and that path holds a copy
    of the model file.  "At once": the clock has not advanced by
    [maxModelAge] between the insertion and the lookup. *)
Theorem cacheModel_then_lookup (modelName modelPath version : string) (b : Blob)
    (w : World) :
  files w !! modelPath = Some (File b) →
  canWrite w (cachedPathOf modelName modelPath version) = true →
  totalSize (cacheIndex (insertedWorld modelName modelPath version b w)) <= maxCacheSize →
  clock (env w) (S (ticks w)) - clock (env w) (ticks w) < maxModelAge →
  fst (cacheModel modelName modelPath version w)
  = Ok (cachedPathOf modelName modelPath version) ∧
  files (snd (cacheModel modelName modelPath version w))
    !! cachedPathOf modelName modelPath version = Some (File b) ∧
  fst (getModelFromCache modelName (snd (cacheModel modelName modelPath version w)))
  = Ok (Some (cachedPathOf modelName modelPath version)).
Proof.
  intros Hfile Hwrite Hfits Hsoon.
  destruct (cacheModel_no_eviction modelName modelPath version b w Hfile Hwrite Hfits)
    as (Hr & Hi & Hf & Ht & He).
  rewrite insertedWorld_cacheIndex in Hi. rewrite insertedWorld_files in Hf.
  split; [done|]. split; [rewrite Hf; apply lookup_insert_eq|].
  rewrite (getModelFromCache_hit modelName
             (ModelCacheEntry.mk (cachedPathOf modelName modelPath version)
                (clock (env w) (ticks w)) (blob_size b) version) b); [done| | |].
  - rewrite Hi. apply JsMap_get_set.
  - rewrite Hf. apply lookup_insert_eq.
  - by rewrite He, Ht.
Qed.

(** X7.  Insert over an existing name.  A [cacheModel] that succeeded
    without the index exceeding the ceiling has set the entry of the model
    and nothing else: every other name keeps its entry, the names keep
    their order (a new name goes last, a known one stays where it was), and
    no file is removed, so the file a replaced entry pointed to remains on
    disk. *)
Theorem cacheModel_replaces (modelName modelPath version : string) (b : Blob)
    (w : World) :
  files w !! modelPath = Some (File b) →
  canWrite w (cachedPathOf modelName modelPath version) = true →
  totalSize (cacheIndex (insertedWorld modelName modelPath version b w)) <= maxCacheSize →
  JsMap.get modelName (cacheIndex (snd (cacheModel modelName modelPath version w)))
  = Some (ModelCacheEntry.mk (cachedPathOf modelName modelPath version)
            (clock (env w) (ticks w)) (blob_size b) version) ∧
  (∀ k, k ≠ modelName →
     JsMap.get k (cacheIndex (snd (cacheModel modelName modelPath version w)))
     = JsMap.get k (cacheIndex w)) ∧
  JsMap.keys (cacheIndex (snd (cacheModel modelName modelPath version w)))
  = (if bool_decide (modelName ∈ JsMap.keys (cacheIndex w))
     then JsMap.keys (cacheIndex w)
     else JsMap.keys (cacheIndex w) ++ [modelName])%list ∧
  (∀ p, p ≠ cachedPathOf modelName modelPath version →
     files (snd (cacheModel modelName modelPath version w)) !! p = files w !! p).
Proof.
  intros Hfile Hwrite Hfits.
  destruct (cacheModel_no_eviction modelName modelPath version b w Hfile Hwrite Hfits)
    as (Hr & Hi & Hf & Ht & He).
  rewrite insertedWorld_cacheIndex in Hi. rewrite insertedWorld_files in Hf.
  rewrite Hi, Hf.
  split; [apply JsMap_get_set|].
  split; [intros k Hk; by apply JsMap_get_set_ne|].
  split; [|intros p Hp; by apply lookup_insert_ne].
  destruct (decide (modelName ∈ JsMap.keys (cacheIndex w))) as [Hin|Hout].
  - rewrite bool_decide_eq_true_2 by done. by apply JsMap_keys_set_present.
  - rewrite bool_decide_eq_false_2 by done. rewrite JsMap_set_fresh by done.
    unfold JsMap.keys. by rewrite map_app.
Qed.
End InsertionExtras.

Lemma cacheModel_then_lookup_witness :
  files quietWorld !! "/models/s.bin" = Some (sampleFile 2048) ∧
  canWrite quietWorld
    (cachedPathOf (P := samplePlatform) "s" "/models/s.bin" "1.0.0") = true ∧
  totalSize (cacheIndex (insertedWorld (P := samplePlatform) "s" "/models/s.bin" "1.0.0"
                           (mkBlob 2048 "digest") quietWorld)) <= maxCacheSize ∧
  clock (env quietWorld) (S (ticks quietWorld)) - clock (env quietWorld) (ticks quietWorld)
  < maxModelAge ∧
  fst (getModelFromCache "s"
         (snd (cacheModel (P := samplePlatform) "s" "/models/s.bin" "1.0.0" quietWorld)))
  = Ok (Some (cachedPathOf (P := samplePlatform) "s" "/models/s.bin" "1.0.0")).
Proof.
  assert (H1 : files quietWorld !! "/models/s.bin" = Some (File (mkBlob 2048 "digest")))
    by (vm_compute; reflexivity).
  assert (H2 : canWrite quietWorld
                 (cachedPathOf (P := samplePlatform) "s" "/models/s.bin" "1.0.0") = true)
    by (vm_compute; reflexivity).
  assert (H3 : totalSize (cacheIndex (insertedWorld (P := samplePlatform) "s"
                 "/models/s.bin" "1.0.0" (mkBlob 2048 "digest") quietWorld))
               <= maxCacheSize) by (vm_compute; discriminate).
  assert (H4 : clock (env quietWorld) (S (ticks quietWorld))
               - clock (env quietWorld) (ticks quietWorld) < maxModelAge)
    by (vm_compute; reflexivity).
  repeat (split; [assumption|]).
  exact (proj2 (proj2 (cacheModel_then_lookup (P := samplePlatform) "s" "/models/s.bin"
                         "1.0.0" (mkBlob 2048 "digest") quietWorld H1 H2 H3 H4))).
Defined.

Lemma cacheModel_replaces_witness :
  files quietWorld !! "/models/s.bin" = Some (sampleFile 2048) ∧
  canWrite quietWorld
    (cachedPathOf (P := samplePlatform) "m" "/models/s.bin" "2.0.0") = true ∧
  totalSize (cacheIndex (insertedWorld (P := samplePlatform) "m" "/models/s.bin" "2.0.0"
                           (mkBlob 2048 "digest") quietWorld)) <= maxCacheSize ∧
  JsMap.keys (cacheIndex (snd (cacheModel (P := samplePlatform) "m" "/models/s.bin"
                                 "2.0.0" quietWorld)))
  = JsMap.keys (cacheIndex quietWorld) ∧
  files (snd (cacheModel (P := samplePlatform) "m" "/models/s.bin" "2.0.0" quietWorld))
    !! "/cache/m" = files quietWorld !! "/cache/m".
Proof.
  assert (H1 : files quietWorld !! "/models/s.bin" = Some (File (mkBlob 2048 "digest")))
    by (vm_compute; reflexivity).
  assert (H2 : canWrite quietWorld
                 (cachedPathOf (P := samplePlatform) "m" "/models/s.bin" "2.0.0") = true)
    by (vm_compute; reflexivity).
  assert (H3 : totalSize (cacheIndex (insertedWorld (P := samplePlatform) "m"
                 "/models/s.bin" "2.0.0" (mkBlob 2048 "digest") quietWorld))
               <= maxCacheSize) by (vm_compute; discriminate).
  pose proof (cacheModel_replaces (P := samplePlatform) "m" "/models/s.bin" "2.0.0"
                (mkBlob 2048 "digest") quietWorld H1 H2 H3) as (_ & _ & Hkeys & Hfiles).
  split; [exact H1|]. split; [exact H2|]. split; [exact H3|]. split; [exact Hkeys|].
  apply Hfiles. vm_compute. discriminate.
Defined.

Lemma cacheModel_error_example :
  fst (cacheModel (P := samplePlatform) "s" "/models/absent.bin" "1.0.0" quietWorld)
  = Throw "Model caching failed" ∧
  cacheIndex (snd (cacheModel (P := samplePlatform) "s" "/models/absent.bin" "1.0.0"
                     quietWorld)) = cacheIndex quietWorld.
Proof. split; vm_compute; reflexivity. Qed.

(** ** What the sweep leaves behind *)

Lemma sweptWorld_sublist (w : World) :
  cacheIndex (sweptWorld w) `sublist_of` cacheIndex w ∧
  ∀ p, files (sweptWorld w) !! p = files w !! p ∨
       (files (sweptWorld w) !! p = None ∧ p ∈ map entryPath (cacheIndex w)).
Proof.
  unfold sweptWorld.
  refine (proj2 (evictWhile_invariant
    (fun l _ w' =>
       cacheIndex w' `sublist_of` cacheIndex w ∧
       (∀ x, x ∈ l → x ∈ cacheIndex w) ∧
       ∀ p, files w' !! p = files w !! p ∨
            (files w' !! p = None ∧ p ∈ map entryPath (cacheIndex w)))
    (fun w' =>
       cacheIndex w' `sublist_of` cacheIndex w ∧
       ∀ p, files w' !! p = files w !! p ∨
            (files w' !! p = None ∧ p ∈ map entryPath (cacheIndex w)))
    _ _ _ _ _ w _)).
  - intros l cur w' (Hs & _ & Hf) _. by split.
  - intros x l cur w' (Hs & Hl & Hf) _ _. split; [|split].
    + simpl. rewrite JsMap_delete_filter. etrans; [apply sublist_filter | done].
    + intros y Hy. apply Hl, elem_of_cons. auto.
    + intros p. simpl. destruct (decide (p = entryPath x)) as [->|Hne].
      * right. split; [apply lookup_delete_eq|].
        apply list_elem_of_fmap. exists x. split; [done|].
        apply Hl, elem_of_cons. auto.
      * rewrite lookup_delete_ne by done. apply Hf.
  - intros x l cur w' (Hs & Hl & Hf) _ _. split; [done|]. split; [|done].
    intros y Hy. apply Hl, elem_of_cons. auto.
  - split; [done|]. split; [|by left].
    intros x. by rewrite sortByLastUsed_elem_of.
Qed.

(** X8.  What [manageCacheSize] leaves behind.  The index is within the
    ceiling, or else every entry still in it has a file that could not be
    unlinked.  The entries that remain are entries that were there, in the
    order they had.  A file is either as it was or it is gone, and only
    files of index entries go. *)
Theorem manageCacheSize_postcondition (w : World) :
  uniqueKeys (cacheIndex w) →
  (totalSize (cacheIndex (snd (manageCacheSize w))) <= maxCacheSize ∨
   ∀ x, x ∈ cacheIndex (snd (manageCacheSize w)) →
        canUnlink (snd (manageCacheSize w)) (entryPath x) = false) ∧
  cacheIndex (snd (manageCacheSize w)) `sublist_of` cacheIndex w ∧
  (∀ p, files (snd (manageCacheSize w)) !! p = files w !! p ∨
        (files (snd (manageCacheSize w)) !! p = None ∧
         p ∈ map entryPath (cacheIndex w))).
Proof.
  intros Hu.
  destruct (saveCacheIndex_spec (sweptWorld w)) as (_ & Hi & Hf & He & _).
  destruct (sweptWorld_settled w Hu) as [_ Hsettled].
  destruct (sweptWorld_sublist w) as [Hsub Hfiles].
  rewrite manageCacheSize_eq, Hi, Hf.
  split; [|by split].
  destruct Hsettled as [Hle|Hstuck]; [by left | right].
  intros x Hx. rewrite (canUnlink_ext (sweptWorld w)) by done. by apply Hstuck.
Qed.

Lemma manageCacheSize_postcondition_witness :
  uniqueKeys (cacheIndex lruWorld) ∧
  cacheIndex (snd (manageCacheSize lruWorld)) `sublist_of` cacheIndex lruWorld.
Proof.
  assert (Hu : uniqueKeys (cacheIndex lruWorld)).
  { unfold uniqueKeys. apply (bool_decide_unpack _). vm_compute. exact I. }
  split; [exact Hu|].
  exact (proj1 (proj2 (manageCacheSize_postcondition lruWorld Hu))).
Defined.

(** ** A cache hit and the order of eviction *)

Lemma sorted_last_newest (l : CacheIndex) x :
  StronglySorted olderEq l → x ∈ l →
  (∀ y, y ∈ l → y ≠ x → entryTime y < entryTime x) →
  last l = Some x.
Proof.
  induction 1 as [|a l Hs IH Ha]; intros Hx Hnew.
  - by apply elem_of_nil in Hx.
  - destruct l as [|b l]; [by apply list_elem_of_singleton in Hx as ->|].
    rewrite last_cons_cons.
    assert (Hin : x ∈ b :: l).
    { apply elem_of_cons in Hx as [->|Hx]; [|done].
      destruct (decide (b = a)) as [->|Hne]; [apply elem_of_cons; auto|].
      exfalso. apply Forall_cons in Ha as [Hab _].
      assert (Hlt : entryTime b < entryTime a).
      { apply Hnew; [|done]. apply elem_of_cons. right. apply elem_of_cons. auto. }
      unfold olderEq in Hab. lia. }
    apply IH; [done|]. intros y Hy. apply Hnew. apply elem_of_cons. auto.
Qed.

(** X9.  A hit moves the entry out of the way of eviction.  When a lookup
    hits and every other entry was last used before the hit, the entry is
    the last one in the order in which the sweep evicts: it goes only after
    all the others. *)
Theorem getModelFromCache_hit_evicted_last (modelName : string)
    (e : ModelCacheEntry.t) (b : Blob) (w : World) :
  uniqueKeys (cacheIndex w) →
  JsMap.get modelName (cacheIndex w) = Some e →
  files w !! ModelCacheEntry.path e = Some (File b) →
  clock (env w) (ticks w) - ModelCacheEntry.lastUsed e < maxModelAge →
  (∀ x, x ∈ cacheIndex w → entryKey x ≠ modelName →
        entryTime x < clock (env w) (S (ticks w))) →
  fst (getModelFromCache modelName w) = Ok (Some (ModelCacheEntry.path e)) ∧
  last (sortByLastUsed (cacheIndex (snd (getModelFromCache modelName w))))
  = Some (modelName,
          ModelCacheEntry.mk (ModelCacheEntry.path e) (clock (env w) (S (ticks w)))
            (ModelCacheEntry.size e) (ModelCacheEntry.version e)).
Proof.
  intros Hu Hget Hfile Hrecent Holder.
  rewrite (getModelFromCache_hit modelName e b) by done. cbn [fst snd].
  split; [done|]. unfold touchedWorld.
  rewrite (proj1 (proj2 (saveCacheIndex_spec _))). cbn [cacheIndex set_cacheIndex].
  apply sorted_last_newest.
  - apply sortByLastUsed_sorted.
  - apply sortByLastUsed_elem_of, JsMap_set_elem_of.
  - intros y Hy Hne. rewrite sortByLastUsed_elem_of in Hy.
    apply (JsMap_elem_of_set _ _ _ _ Hu) in Hy as [->|[Hy Hk]]; [done|].
    unfold entryTime at 2. cbn [snd ModelCacheEntry.lastUsed]. by apply Holder.
Qed.

Lemma getModelFromCache_hit_evicted_last_witness :
  uniqueKeys (cacheIndex lruWorld) ∧
  JsMap.get "b" (cacheIndex lruWorld) = Some (sampleEntry "/cache/b" 10 (5 * GiB)) ∧
  files lruWorld !! "/cache/b" = Some (sampleFile (5 * GiB)) ∧
  clock (env lruWorld) (ticks lruWorld) - 10 < maxModelAge ∧
  (∀ x, x ∈ cacheIndex lruWorld → entryKey x ≠ "b" →
        entryTime x < clock (env lruWorld) (S (ticks lruWorld))) ∧
  last (sortByLastUsed (cacheIndex (snd (getModelFromCache "b" lruWorld))))
  = Some ("b", sampleEntry "/cache/b" 1001 (5 * GiB)).
Proof.
  assert (Hu : uniqueKeys (cacheIndex lruWorld)).
  { unfold uniqueKeys. apply (bool_decide_unpack _). vm_compute. exact I. }
  assert (H1 : JsMap.get "b" (cacheIndex lruWorld)
               = Some (sampleEntry "/cache/b" 10 (5 * GiB))) by reflexivity.
  assert (H2 : files lruWorld !! ModelCacheEntry.path (sampleEntry "/cache/b" 10 (5 * GiB))
               = Some (File (mkBlob (5 * GiB) "digest"))) by (vm_compute; reflexivity).
  assert (H3 : clock (env lruWorld) (ticks lruWorld)
               - ModelCacheEntry.lastUsed (sampleEntry "/cache/b" 10 (5 * GiB))
               < maxModelAge) by (vm_compute; reflexivity).
  assert (H4 : ∀ x, x ∈ cacheIndex lruWorld → entryKey x ≠ "b" →
                    entryTime x < clock (env lruWorld) (S (ticks lruWorld))).
  { intros x Hx _. unfold lruWorld, lruIndex in Hx. cbn [cacheIndex] in Hx.
    repeat (apply elem_of_cons in Hx as [->|Hx]; [vm_compute; reflexivity|]).
    by apply elem_of_nil in Hx. }
  split; [exact Hu|]. split; [exact H1|]. split; [exact H2|]. split; [exact H3|].
  split; [exact H4|].
  exact (proj2 (getModelFromCache_hit_evicted_last "b" (sampleEntry "/cache/b" 10 (5 * GiB))
                  (mkBlob (5 * GiB) "digest") lruWorld Hu H1 H2 H3 H4)).
Defined.

(** ** The orchestrator: errors, hits and local files *)

Lemma find_assignLocalPath (modelType : ModelType) (p : string)
    (configs : list ModelConfig.t) (c : ModelConfig.t) :
  find (fun config => ModelType_eqb (ModelConfig.type config) modelType) configs = Some c →
  find (fun config => ModelType_eqb (ModelConfig.type config) modelType)
    (assignLocalPath modelType p configs)
  = Some (ModelConfig.with_localPath p c).
Proof.
  induction configs as [|c0 l IH]; simpl; [done|].
  destruct (ModelType_eqb (ModelConfig.type c0) modelType) eqn:Ht; simpl.
  - rewrite Ht. by intros [= ->].
  - rewrite Ht. exact IH.
Qed.

Lemma find_assignLocalPath_other (modelType other : ModelType) (p : string)
    (configs : list ModelConfig.t) :
  other ≠ modelType →
  find (fun config => ModelType_eqb (ModelConfig.type config) other)
    (assignLocalPath modelType p configs)
  = find (fun config => ModelType_eqb (ModelConfig.type config) other) configs.
Proof.
  intros Hne. induction configs as [|c0 l IH]; simpl; [done|].
  destruct (ModelType_eqb (ModelConfig.type c0) modelType) eqn:Ht; simpl.
  - destruct (ModelType_eqb (ModelConfig.type c0) other) eqn:Ho; [|done].
    exfalso. apply Hne.
    destruct (ModelConfig.type c0), modelType, other; done.
  - by rewrite IH.
Qed.

Lemma getModelFromCache_modelConfigs (modelName : string) (w : World) :
  modelConfigs (snd (getModelFromCache modelName w)) = modelConfigs w.
Proof.
  destruct (getModelFromCache_cases modelName w)
    as [[_ ->]|[(e & _ & _ & ->)|[(e & node & _ & _ & _ & ->)|(e & b & _ & _ & _ & ->)]]];
    cbn [snd]; try done.
  - unfold purgedWorld.
    by rewrite (proj1 (proj2 (proj2 (proj2 (proj2 (proj2 (saveCacheIndex_spec _))))))).
  - unfold touchedWorld.
    by rewrite (proj1 (proj2 (proj2 (proj2 (proj2 (proj2 (saveCacheIndex_spec _))))))).
Qed.

Section OrchestratorExtras.
Context {P : Platform}.

Lemma getModelConfigs_installed (w w1 : World) (configs : list ModelConfig.t) :
  getModelConfigs w = (Ok configs, w1) → modelConfigs w1 = configs.
Proof.
  intros Hfirst.
  destruct (modelConfigs w) as [|c l] eqn:Hc.
  - rewrite getModelConfigs_empty in Hfirst by done.
    destruct (initializeModelDirectory w) as [[[]|e] w']; [|discriminate].
    by injection Hfirst as <- <-.
  - rewrite getModelConfigs_loaded in Hfirst by (rewrite Hc; done).
    injection Hfirst as <- <-. by rewrite Hc.
Qed.

Lemma total_downloadModel (config : ModelConfig.t) : total (downloadModel config).
Proof.
  unfold downloadModel. apply total_try_catch. intros _.
  apply total_bind; [apply total_logger | intros; apply total_ret].
Qed.

Lemma total_ensureModelAvailable (modelType : ModelType) :
  total (ensureModelAvailable modelType).
Proof.
  unfold ensureModelAvailable. apply total_try_catch. intros _.
  apply total_bind; [apply total_logger | intros; apply total_ret].
Qed.

(** X10.  Neither [ensureModelAvailable] nor [downloadModel] ever throws:
    whatever fails inside (a directory that cannot be created, the
    network, a write, the cache) comes out as [null].  In particular, when
    the catalog cannot be loaded, [ensureModelAvailable] returns [null]
    without having sent a request. *)
Theorem acquisition_never_throws (modelType : ModelType) (config : ModelConfig.t)
    (w : World) :
  (∃ r, fst (ensureModelAvailable modelType w) = Ok r) ∧
  (∃ r, fst (downloadModel config w) = Ok r) ∧
  (∀ e, fst (getModelConfigs w) = Throw e →
     fst (ensureModelAvailable modelType w) = Ok None ∧
     fetched (snd (ensureModelAvailable modelType w)) = fetched w).
Proof.
  split; [apply total_ensureModelAvailable|].
  split; [apply total_downloadModel|].
  intros e He.
  pose proof (preserves_getModelConfigs fetched fetched_ignoresBookkeeping
                fetched_ignoresFiles w) as Hf.
  assert (Heq : ensureModelAvailable modelType w
                = (Ok None, add_event (Log error "Model availability check failed")
                              (snd (getModelConfigs w)))).
  { unfold ensureModelAvailable. unfold try_catch at 1. unfold bind at 1.
    destruct (getModelConfigs w) as [[configs|e'] w1]; [discriminate|]. reflexivity. }
  rewrite Heq. cbn [fst snd]. split; [done|].
  rewrite <- Hf. apply fetched_ignoresBookkeeping.
Qed.

(** [ensureModelAvailable] up to the cache miss. *)
Lemma ensureModelAvailable_after_miss (modelType : ModelType) (w : World)
    (configs : list ModelConfig.t) (w1 : World) (modelConfig : ModelConfig.t)
    (cachedModelPath : option string) (w2 : World) :
  getModelConfigs w = (Ok configs, w1) →
  find (fun config => ModelType_eqb (ModelConfig.type config) modelType) configs
  = Some modelConfig →
  getModelFromCache (ModelConfig.name modelConfig) w1 = (Ok cachedModelPath, w2) →
  truthy_path cachedModelPath = false →
  ensureModelAvailable modelType w
  = match ensureAfterMiss modelType modelConfig w2 with
    | (Ok r, w') => (Ok r, w')
    | (Throw _, w') =>
        (Ok None, add_event (Log error "Model availability check failed") w')
    end.
Proof.
  intros Hconfigs Hfind Hlookup Hmiss.
  unfold ensureModelAvailable. unfold try_catch at 1. unfold bind at 1.
  rewrite Hconfigs, Hfind. unfold bind at 1. rewrite Hlookup, Hmiss.
  fold (ensureAfterMiss modelType modelConfig).
  by destruct (ensureAfterMiss modelType modelConfig w2) as [[r|e] w'].
Qed.

(** X11.  A cache hit.  The descriptor returned carries the cached path as
    [localPath], and so does the catalog from then on: the descriptor is
    the catalog's own object.  Descriptors of other types are unchanged, no
    request is sent and no file is touched. *)
Theorem ensureModelAvailable_cache_hit (modelType : ModelType) (w : World)
    (configs : list ModelConfig.t) (w1 : World) (modelConfig : ModelConfig.t)
    (cachedPath : string) (w2 : World) :
  getModelConfigs w = (Ok configs, w1) →
  find (fun config => ModelType_eqb (ModelConfig.type config) modelType) configs
  = Some modelConfig →
  getModelFromCache (ModelConfig.name modelConfig) w1 = (Ok (Some cachedPath), w2) →
  truthy cachedPath = true →
  fst (ensureModelAvailable modelType w)
  = Ok (Some (ModelConfig.with_localPath cachedPath modelConfig)) ∧
  find (fun config => ModelType_eqb (ModelConfig.type config) modelType)
    (modelConfigs (snd (ensureModelAvailable modelType w)))
  = Some (ModelConfig.with_localPath cachedPath modelConfig) ∧
  (∀ other, other ≠ modelType →
     find (fun config => ModelType_eqb (ModelConfig.type config) other)
       (modelConfigs (snd (ensureModelAvailable modelType w)))
     = find (fun config => ModelType_eqb (ModelConfig.type config) other) configs) ∧
  files (snd (ensureModelAvailable modelType w)) = files w2 ∧
  fetched (snd (ensureModelAvailable modelType w)) = fetched w.
Proof.
  intros Hconfigs Hfind Hlookup Hhit.
  pose proof (preserves_getModelConfigs fetched fetched_ignoresBookkeeping
                fetched_ignoresFiles w) as Hf1.
  pose proof (preserves_getModelFromCache fetched (ModelConfig.name modelConfig)
                fetched_ignoresBookkeeping w1) as Hf2.
  pose proof (getModelFromCache_modelConfigs (ModelConfig.name modelConfig) w1) as Hc2.
  pose proof (getModelConfigs_installed w w1 configs Hconfigs) as Hc1.
  rewrite Hconfigs in Hf1. rewrite Hlookup in Hf2, Hc2. cbn [snd] in *.
  assert (Heq : ensureModelAvailable modelType w
                = (Ok (Some (ModelConfig.with_localPath cachedPath modelConfig)),
                   set_modelConfigs
                     (assignLocalPath modelType cachedPath (modelConfigs w2)) w2)).
  { unfold ensureModelAvailable. unfold try_catch at 1. unfold bind at 1.
    rewrite Hconfigs, Hfind. unfold bind at 1. rewrite Hlookup.
    cbn [truthy_path]. by rewrite Hhit. }
  rewrite Heq. cbn [fst snd modelConfigs files set_modelConfigs].
  rewrite Hc2, Hc1.
  split; [done|]. split; [by apply find_assignLocalPath|].
  split; [intros other Hne; by apply find_assignLocalPath_other|].
  split; [done|].
  rewrite (proj1 (proj2 (proj2 (proj2 fetched_ignoresBookkeeping)))). congruence.
Qed.

(** The local file passes the checksum gate: none declared, or the digest
    is the declared one. *)
Lemma ensureAfterMiss_local (modelType : ModelType) (modelConfig : ModelConfig.t)
    (node : Node) (w : World) :
  files w !! ModelConfig.localPath modelConfig = Some node →
  truthy (ModelConfig.checksum modelConfig) = false ∨
  (∃ b, node = File b ∧ blob_sha256 b = ModelConfig.checksum modelConfig) →
  ensureAfterMiss modelType modelConfig w
  = match cacheModel (ModelConfig.name modelConfig) (ModelConfig.localPath modelConfig)
            (ModelConfig.version modelConfig) w with
    | (Ok cached, w') => (Ok (if truthy cached then Some modelConfig else None), w')
    | (Throw _, w') =>
        match downloadModel modelConfig w' with
        | (Ok downloaded, w'') =>
            if truthy_path downloaded then
              (Ok (Some (ModelConfig.with_localPath (default "" downloaded) modelConfig)),
               set_modelConfigs
                 (assignLocalPath modelType (default "" downloaded) (modelConfigs w'')) w'')
            else (Ok None, w'')
        | (Throw e, w'') => (Throw e, w'')
        end
    end.
Proof.
  intros Hfile Hgate.
  unfold ensureAfterMiss. unfold try_catch at 1. unfold bind at 1.
  unfold fs_access. rewrite Hfile.
  assert (Hbody : ∀ w0,
    w0 = w →
    (if truthy (ModelConfig.checksum modelConfig) then
       let* checksumValid :=
         verifyModelChecksum (ModelConfig.localPath modelConfig)
           (ModelConfig.checksum modelConfig) in
       if negb checksumValid then
         let* _ := logger warn "Model checksum invalid, re-downloading" in
         ret None
       else
         let* cached := cacheModel (ModelConfig.name modelConfig)
                          (ModelConfig.localPath modelConfig)
                          (ModelConfig.version modelConfig) in
         ret (if truthy cached then Some modelConfig else None)
     else
       let* cached := cacheModel (ModelConfig.name modelConfig)
                        (ModelConfig.localPath modelConfig)
                        (ModelConfig.version modelConfig) in
       ret (if truthy cached then Some modelConfig else None)) w0
    = (let* cached := cacheModel (ModelConfig.name modelConfig)
                        (ModelConfig.localPath modelConfig)
                        (ModelConfig.version modelConfig) in
       ret (if truthy cached then Some modelConfig else None)) w).
  { intros w0 ->. destruct (truthy (ModelConfig.checksum modelConfig)) eqn:Hdecl; [|done].
    destruct Hgate as [?|(b & -> & Hsha)]; [done|].
    unfold bind at 1. unfold verifyModelChecksum, try_catch, bind, fs_readFile.
    rewrite Hfile. cbn beta iota. unfold ret at 1.
    rewrite Hsha, String.eqb_refl. reflexivity. }
  rewrite (Hbody w eq_refl). unfold bind at 1.
  destruct (cacheModel _ _ _ w) as [[cached|e] w']; [reflexivity|].
  unfold bind at 1.
  destruct (downloadModel modelConfig w') as [[downloaded|e'] w'']; [|reflexivity].
  by destruct (truthy_path downloaded).
Qed.

(** X12.  The model file is already on disk.  After a miss, with a file at
    [localPath] that passes the checksum gate and can be copied into the
    cache, [ensureModelAvailable] caches it and returns the descriptor as
    the catalog holds it, [localPath] unchanged; the catalog is not
    modified and no request is sent.  The cache path computed for the model
    must not be the empty string. *)
Theorem ensureModelAvailable_local_file (modelType : ModelType) (w : World)
    (configs : list ModelConfig.t) (w1 : World) (modelConfig : ModelConfig.t)
    (cachedModelPath : option string) (w2 : World) (b : Blob) :
  getModelConfigs w = (Ok configs, w1) →
  find (fun config => ModelType_eqb (ModelConfig.type config) modelType) configs
  = Some modelConfig →
  getModelFromCache (ModelConfig.name modelConfig) w1 = (Ok cachedModelPath, w2) →
  truthy_path cachedModelPath = false →
  files w2 !! ModelConfig.localPath modelConfig = Some (File b) →
  truthy (ModelConfig.checksum modelConfig) = false ∨
  blob_sha256 b = ModelConfig.checksum modelConfig →
  canWrite w2 (cachedPathOf (ModelConfig.name modelConfig)
                 (ModelConfig.localPath modelConfig) (ModelConfig.version modelConfig))
  = true →
  truthy (cachedPathOf (ModelConfig.name modelConfig)
            (ModelConfig.localPath modelConfig) (ModelConfig.version modelConfig))
  = true →
  fst (ensureModelAvailable modelType w) = Ok (Some modelConfig) ∧
  snd (ensureModelAvailable modelType w)
  = snd (cacheModel (ModelConfig.name modelConfig) (ModelConfig.localPath modelConfig)
           (ModelConfig.version modelConfig) w2) ∧
  modelConfigs (snd (ensureModelAvailable modelType w)) = configs ∧
  fetched (snd (ensureModelAvailable modelType w)) = fetched w.
Proof.
  intros Hconfigs Hfind Hlookup Hmiss Hfile Hgate Hwrite Hpath.
  pose proof (preserves_getModelConfigs fetched fetched_ignoresBookkeeping
                fetched_ignoresFiles w) as Hf1.
  pose proof (preserves_getModelFromCache fetched (ModelConfig.name modelConfig)
                fetched_ignoresBookkeeping w1) as Hf2.
  pose proof (getModelFromCache_modelConfigs (ModelConfig.name modelConfig) w1) as Hc2.
  pose proof (getModelConfigs_installed w w1 configs Hconfigs) as Hc1.
  rewrite Hconfigs in Hf1. rewrite Hlookup in Hf2, Hc2. cbn [snd] in *.
  rewrite (ensureModelAvailable_after_miss modelType w configs w1 modelConfig
             cachedModelPath w2) by done.
  rewrite (ensureAfterMiss_local modelType modelConfig (File b) w2 Hfile)
    by (destruct Hgate; eauto).
  pose proof (preserves_cacheModel fetched (ModelConfig.name modelConfig)
                (ModelConfig.localPath modelConfig) (ModelConfig.version modelConfig)
                fetched_ignoresBookkeeping fetched_ignoresFiles w2) as Hf3.
  rewrite (cacheModel_inserted _ _ _ b) in * by done. cbn [fst snd] in *.
  rewrite Hpath. cbn [fst snd]. split; [done|]. split; [done|].
  split; [|congruence].
  rewrite manageCacheSize_eq.
  rewrite (proj1 (proj2 (proj2 (proj2 (proj2 (proj2 (saveCacheIndex_spec _))))))).
  unfold sweptWorld.
  rewrite (proj1 (proj2 (proj2 (proj2 (evictWhile_frame _ _ _))))).
  unfold insertedWorld.
  rewrite (proj1 (proj2 (proj2 (proj2 (proj2 (proj2 (saveCacheIndex_spec _))))))).
  cbn [modelConfigs set_cacheIndex set_ticks set_files]. congruence.
Qed.

(** X13.  A model file that cannot be cached is treated as missing.  After
    a miss, with a file at [localPath] that passes the checksum gate but
    cannot be copied into the cache, [cacheModel] throws inside the [try]
    and the [catch] meant for a missing file runs [downloadModel]: with
    enough disk space a request is sent although the file is there. *)
Theorem ensureModelAvailable_cache_failure (modelType : ModelType) (w : World)
    (configs : list ModelConfig.t) (w1 : World) (modelConfig : ModelConfig.t)
    (cachedModelPath : option string) (w2 : World) (b : Blob) :
  getModelConfigs w = (Ok configs, w1) →
  find (fun config => ModelType_eqb (ModelConfig.type config) modelType) configs
  = Some modelConfig →
  getModelFromCache (ModelConfig.name modelConfig) w1 = (Ok cachedModelPath, w2) →
  truthy_path cachedModelPath = false →
  files w2 !! ModelConfig.localPath modelConfig = Some (File b) →
  truthy (ModelConfig.checksum modelConfig) = false ∨
  blob_sha256 b = ModelConfig.checksum modelConfig →
  canWrite w2 (cachedPathOf (ModelConfig.name modelConfig)
                 (ModelConfig.localPath modelConfig) (ModelConfig.version modelConfig))
  = false →
  fetched (snd (ensureModelAvailable modelType w))
  = (fetched w ++
     if enoughSpace w (ModelConfig.requiredDiskSpace modelConfig)
        && negb (truthy_path
                   (cachedPathAt (ModelConfig.name modelConfig)
                      (add_event (Log error "Model caching failed") w2)))
     then [ModelConfig.url modelConfig] else [])%list.
Proof.
  intros Hconfigs Hfind Hlookup Hmiss Hfile Hgate Hwrite.
  pose proof (preserves_getModelConfigs fetched fetched_ignoresBookkeeping
                fetched_ignoresFiles w) as Hf1.
  pose proof (preserves_getModelFromCache fetched (ModelConfig.name modelConfig)
                fetched_ignoresBookkeeping w1) as Hf2.
  pose proof (preserves_getModelConfigs env env_ignoresBookkeeping
                env_ignoresFiles w) as He1.
  pose proof (preserves_getModelFromCache env (ModelConfig.name modelConfig)
                env_ignoresBookkeeping w1) as He2.
  rewrite Hconfigs in Hf1, He1. rewrite Hlookup in Hf2, He2. cbn [snd] in *.
  rewrite (ensureModelAvailable_after_miss modelType w configs w1 modelConfig
             cachedModelPath w2) by done.
  rewrite (ensureAfterMiss_local modelType modelConfig (File b) w2 Hfile)
    by (destruct Hgate; eauto).
  rewrite cacheModel_failed by (intros b' _; exact Hwrite).
  set (w3 := add_event (Log error "Model caching failed") w2).
  pose proof (downloadModel_fetched modelConfig w3) as Hd.
  assert (Hspace : enoughSpace w3 (ModelConfig.requiredDiskSpace modelConfig)
                   = enoughSpace w (ModelConfig.requiredDiskSpace modelConfig)).
  { by rewrite !enoughSpace_eq. }
  assert (Hf3 : fetched w3 = fetched w).
  { unfold w3. rewrite (proj2 (proj2 (proj2 (proj2 fetched_ignoresBookkeeping)))).
    congruence. }
  rewrite Hspace, Hf3 in Hd. rewrite <- Hd.
  destruct (total_downloadModel modelConfig w3) as [r Hr].
  destruct (downloadModel modelConfig w3) as [[downloaded|e] w4]; [|discriminate].
  cbn [snd]. by destruct (truthy_path downloaded).
Qed.

Lemma cacheModel_modelConfigs (modelName modelPath version : string) (b : Blob)
    (w : World) :
  files w !! modelPath = Some (File b) →
  canWrite w (cachedPathOf modelName modelPath version) = true →
  modelConfigs (snd (cacheModel modelName modelPath version w)) = modelConfigs w.
Proof.
  intros Hfile Hwrite.
  rewrite (cacheModel_inserted _ _ _ b) by done. cbn [snd].
  rewrite manageCacheSize_eq.
  rewrite (proj1 (proj2 (proj2 (proj2 (proj2 (proj2 (saveCacheIndex_spec _))))))).
  unfold sweptWorld.
  rewrite (proj1 (proj2 (proj2 (proj2 (evictWhile_frame _ _ _))))).
  unfold insertedWorld.
  by rewrite (proj1 (proj2 (proj2 (proj2 (proj2 (proj2 (saveCacheIndex_spec _))))))).
Qed.

(** [downloadModel] when the transfer works: the body is written to
    [localPath] and handed to [cacheModel]. *)
Lemma downloadModel_transfer (config : ModelConfig.t) (w w3 : World)
    (statusText : string) (modelData : Blob) :
  enoughSpace w (ModelConfig.requiredDiskSpace config) = true →
  getModelFromCache (ModelConfig.name config) w = (Ok None, w3) →
  network (env w) (ModelConfig.url config) = Resolved true statusText (Some modelData) →
  canWrite w (ModelConfig.localPath config) = true →
  canWrite w (cachedPathOf (ModelConfig.name config) (ModelConfig.localPath config)
                (ModelConfig.version config)) = true →
  downloadModel config w
  = (Ok (Some (cachedPathOf (ModelConfig.name config) (ModelConfig.localPath config)
                 (ModelConfig.version config))),
     snd (cacheModel (ModelConfig.name config) (ModelConfig.localPath config)
            (ModelConfig.version config) (downloadedWorld config modelData w3))) ∧
  files (downloadedWorld config modelData w3) !! ModelConfig.localPath config
  = Some (File modelData) ∧
  canWrite (downloadedWorld config modelData w3)
    (cachedPathOf (ModelConfig.name config) (ModelConfig.localPath config)
       (ModelConfig.version config)) = true ∧
  fetched (downloadedWorld config modelData w3)
  = (fetched w ++ [ModelConfig.url config])%list.
Proof.
  intros Hspace Hlookup Hnet Hwlocal Hwcache.
  pose proof (preserves_getModelFromCache env (ModelConfig.name config)
                env_ignoresBookkeeping w) as He.
  pose proof (preserves_getModelFromCache files (ModelConfig.name config)
                files_ignoresBookkeeping w) as Hfl.
  pose proof (preserves_getModelFromCache fetched (ModelConfig.name config)
                fetched_ignoresBookkeeping w) as Hft.
  rewrite Hlookup in He, Hfl, Hft. cbn [snd] in *.
  set (cp := cachedPathOf (ModelConfig.name config) (ModelConfig.localPath config)
               (ModelConfig.version config)) in *.
  set (w6 := downloadedWorld config modelData w3).
  assert (Hfile6 : files w6 !! ModelConfig.localPath config = Some (File modelData)).
  { unfold w6, downloadedWorld. cbn [files set_files]. apply lookup_insert_eq. }
  assert (Hallowed : cp ∉ denyWrite (env w)).
  { unfold canWrite in Hwcache.
    destruct (files w !! cp) as [[?|]|]; try done;
      exact (bool_decide_eq_true_1 _ Hwcache). }
  assert (Hw6 : canWrite w6 cp = true).
  { unfold canWrite, w6, downloadedWorld. cbn [files env set_files add_event].
    rewrite He.
    destruct (decide (cp = ModelConfig.localPath config)) as [Heq|Hne].
    - rewrite Heq, lookup_insert_eq. rewrite <- Heq.
      exact (bool_decide_eq_true_2 _ Hallowed).
    - rewrite lookup_insert_ne by done. rewrite Hfl. exact Hwcache. }
  split; [|split; [exact Hfile6|split; [exact Hw6|]]].
  - rewrite (downloadModel_attempt config None w w3) by done.
    rewrite He, Hnet.
    assert (Hw3 : canWrite w3 (ModelConfig.localPath config) = true).
    { unfold canWrite. by rewrite Hfl, He. }
    rewrite Hw3. fold (downloadedWorld config modelData w3). fold w6.
    by rewrite (cacheModel_inserted _ _ _ modelData).
  - unfold fetched in *. unfold w6, downloadedWorld. cbn [trace set_files add_event].
    by rewrite fetchesOf_fetch, fetchesOf_log, Hft.
Qed.

(** X14.  A download that works.  With enough disk space, a cache miss, a
    success response whose body arrives, and [localPath] and the cache
    path both writable, [downloadModel] sends one request and returns the
    cache path.  If the insertion does not push the index over the
    ceiling, the body is then both at [localPath] and at the cache path,
    and the index holds the entry with the size of the body. *)
Theorem downloadModel_success (config : ModelConfig.t) (w w3 : World)
    (statusText : string) (modelData : Blob) :
  enoughSpace w (ModelConfig.requiredDiskSpace config) = true →
  getModelFromCache (ModelConfig.name config) w = (Ok None, w3) →
  network (env w) (ModelConfig.url config) = Resolved true statusText (Some modelData) →
  canWrite w (ModelConfig.localPath config) = true →
  canWrite w (cachedPathOf (ModelConfig.name config) (ModelConfig.localPath config)
                (ModelConfig.version config)) = true →
  fst (downloadModel config w)
  = Ok (Some (cachedPathOf (ModelConfig.name config) (ModelConfig.localPath config)
                (ModelConfig.version config))) ∧
  fetched (snd (downloadModel config w)) = (fetched w ++ [ModelConfig.url config])%list ∧
  (totalSize (cacheIndex (insertedWorld (ModelConfig.name config)
                            (ModelConfig.localPath config) (ModelConfig.version config)
                            modelData (downloadedWorld config modelData w3)))
   <= maxCacheSize →
   files (snd (downloadModel config w)) !! ModelConfig.localPath config
   = Some (File modelData) ∧
   files (snd (downloadModel config w))
     !! cachedPathOf (ModelConfig.name config) (ModelConfig.localPath config)
          (ModelConfig.version config)
   = Some (File modelData) ∧
   JsMap.get (ModelConfig.name config) (cacheIndex (snd (downloadModel config w)))
   = Some (ModelCacheEntry.mk
             (cachedPathOf (ModelConfig.name config) (ModelConfig.localPath config)
                (ModelConfig.version config))
             (clock (env w) (ticks w3)) (blob_size modelData)
             (ModelConfig.version config))).
Proof.
  intros Hspace Hlookup Hnet Hwlocal Hwcache.
  pose proof (preserves_getModelFromCache env (ModelConfig.name config)
                env_ignoresBookkeeping w) as He.
  rewrite Hlookup in He. cbn [snd] in He.
  destruct (downloadModel_transfer config w w3 statusText modelData
              Hspace Hlookup Hnet Hwlocal Hwcache) as (Heq & Hfile6 & Hw6 & Hft).
  set (cp := cachedPathOf (ModelConfig.name config) (ModelConfig.localPath config)
               (ModelConfig.version config)) in *.
  set (w6 := downloadedWorld config modelData w3) in *.
  rewrite Heq. cbn [fst snd]. split; [done|]. split.
  { rewrite (preserves_cacheModel fetched _ _ _ fetched_ignoresBookkeeping
               fetched_ignoresFiles w6). exact Hft. }
  intros Hfits.
  destruct (cacheModel_no_eviction (ModelConfig.name config) (ModelConfig.localPath config)
              (ModelConfig.version config) modelData w6 Hfile6 Hw6 Hfits)
    as (_ & Hi & Hf & Ht & He6).
  rewrite insertedWorld_cacheIndex in Hi. rewrite insertedWorld_files in Hf.
  assert (Henv6 : env w6 = env w)
    by (unfold w6, downloadedWorld; cbn [env set_files add_event]; done).
  assert (Hticks6 : ticks w6 = ticks w3) by reflexivity.
  rewrite Henv6, Hticks6 in *.
  split.
  { rewrite Hf. fold cp. destruct (decide (cp = ModelConfig.localPath config)) as [<-|Hne].
    - apply lookup_insert_eq.
    - rewrite lookup_insert_ne by done. exact Hfile6. }
  split; [rewrite Hf; apply lookup_insert_eq|].
  rewrite Hi. apply JsMap_get_set.
Qed.

(** X15.  The first acquisition.  With the catalog loaded, no index entry
    for the model, no file at [localPath], enough disk space, a server
    that answers with a body, and [localPath] and the cache path writable,
    [ensureModelAvailable] sends exactly one request and returns the
    descriptor with [localPath] set to the cache path; the catalog holds
    the same descriptor from then on, and the other descriptors are as
    before.  The cache path must not be the empty string. *)
Theorem ensureModelAvailable_first_download (modelType : ModelType) (w : World)
    (modelConfig : ModelConfig.t) (statusText : string) (modelData : Blob) :
  find (fun config => ModelType_eqb (ModelConfig.type config) modelType) (modelConfigs w)
  = Some modelConfig →
  JsMap.get (ModelConfig.name modelConfig) (cacheIndex w) = None →
  files w !! ModelConfig.localPath modelConfig = None →
  enoughSpace w (ModelConfig.requiredDiskSpace modelConfig) = true →
  network (env w) (ModelConfig.url modelConfig)
  = Resolved true statusText (Some modelData) →
  canWrite w (ModelConfig.localPath modelConfig) = true →
  canWrite w (cachedPathOf (ModelConfig.name modelConfig)
                (ModelConfig.localPath modelConfig) (ModelConfig.version modelConfig))
  = true →
  truthy (cachedPathOf (ModelConfig.name modelConfig)
            (ModelConfig.localPath modelConfig) (ModelConfig.version modelConfig))
  = true →
  fst (ensureModelAvailable modelType w)
  = Ok (Some (ModelConfig.with_localPath
                (cachedPathOf (ModelConfig.name modelConfig)
                   (ModelConfig.localPath modelConfig) (ModelConfig.version modelConfig))
                modelConfig)) ∧
  find (fun config => ModelType_eqb (ModelConfig.type config) modelType)
    (modelConfigs (snd (ensureModelAvailable modelType w)))
  = Some (ModelConfig.with_localPath
            (cachedPathOf (ModelConfig.name modelConfig)
               (ModelConfig.localPath modelConfig) (ModelConfig.version modelConfig))
            modelConfig) ∧
  (∀ other, other ≠ modelType →
     find (fun config => ModelType_eqb (ModelConfig.type config) other)
       (modelConfigs (snd (ensureModelAvailable modelType w)))
     = find (fun config => ModelType_eqb (ModelConfig.type config) other)
         (modelConfigs w)) ∧
  fetched (snd (ensureModelAvailable modelType w))
  = (fetched w ++ [ModelConfig.url modelConfig])%list.
Proof.
  intros Hfind Hget Hfile Hspace Hnet Hwlocal Hwcache Hpath.
  assert (Hloaded : getModelConfigs w = (Ok (modelConfigs w), w)).
  { apply getModelConfigs_loaded. intros Hnil. by rewrite Hnil in Hfind. }
  pose proof (getModelFromCache_absent (ModelConfig.name modelConfig) w Hget) as Hlookup.
  destruct (downloadModel_transfer modelConfig w w statusText modelData
              Hspace Hlookup Hnet Hwlocal Hwcache) as (Heq & Hfile6 & Hw6 & Hft).
  set (cp := cachedPathOf (ModelConfig.name modelConfig)
               (ModelConfig.localPath modelConfig) (ModelConfig.version modelConfig)) in *.
  set (w6 := downloadedWorld modelConfig modelData w) in *.
  pose proof (cacheModel_modelConfigs (ModelConfig.name modelConfig)
                (ModelConfig.localPath modelConfig) (ModelConfig.version modelConfig)
                modelData w6 Hfile6 Hw6) as Hcat.
  pose proof (preserves_cacheModel fetched (ModelConfig.name modelConfig)
                (ModelConfig.localPath modelConfig) (ModelConfig.version modelConfig)
                fetched_ignoresBookkeeping fetched_ignoresFiles w6) as Hfc.
  set (w7 := snd (cacheModel (ModelConfig.name modelConfig)
                    (ModelConfig.localPath modelConfig)
                    (ModelConfig.version modelConfig) w6)) in *.
  assert (Hrun : ensureModelAvailable modelType w
                 = (Ok (Some (ModelConfig.with_localPath cp modelConfig)),
                    set_modelConfigs (assignLocalPath modelType cp (modelConfigs w7)) w7)).
  { rewrite (ensureModelAvailable_after_miss modelType w (modelConfigs w) w modelConfig
               None w) by done.
    unfold ensureAfterMiss. unfold try_catch at 1. unfold bind at 1.
    unfold fs_access. rewrite Hfile. unfold bind at 1. rewrite Heq.
    cbn [truthy_path default]. by rewrite Hpath. }
  rewrite Hrun. cbn [fst snd modelConfigs set_modelConfigs].
  split; [done|]. rewrite Hcat.
  split; [by apply find_assignLocalPath|].
  split; [intros other Hne; by apply find_assignLocalPath_other|].
  rewrite (proj1 (proj2 (proj2 (proj2 fetched_ignoresBookkeeping)))).
  by rewrite Hfc.
Qed.
End OrchestratorExtras.

Lemma ensureModelAvailable_cache_hit_witness :
  getModelFromCache "whisper-small" warmWorld
  = (Ok (Some "/app/model-cache/sha256(whisper-small-1.0.0)-whisper-small.bin"),
     snd (getModelFromCache "whisper-small" warmWorld)) ∧
  fst (ensureModelAvailable (P := samplePlatform) transcription warmWorld)
  = Ok (Some (ModelConfig.with_localPath
                "/app/model-cache/sha256(whisper-small-1.0.0)-whisper-small.bin"
                whisperConfig)) ∧
  fetched (snd (ensureModelAvailable (P := samplePlatform) transcription warmWorld))
  = fetched warmWorld.
Proof.
  assert (H1 : getModelConfigs (P := samplePlatform) warmWorld
               = (Ok (modelConfigs warmWorld), warmWorld)) by (vm_compute; reflexivity).
  assert (H2 : find (fun config => ModelType_eqb (ModelConfig.type config) transcription)
                 (modelConfigs warmWorld)
               = Some (ModelConfig.with_localPath
                         "/app/model-cache/sha256(whisper-small-1.0.0)-whisper-small.bin"
                         whisperConfig)) by (vm_compute; reflexivity).
  assert (H3 : getModelFromCache "whisper-small" warmWorld
               = (Ok (Some "/app/model-cache/sha256(whisper-small-1.0.0)-whisper-small.bin"),
                  snd (getModelFromCache "whisper-small" warmWorld)))
    by (vm_compute; reflexivity).
  assert (H4 : truthy "/app/model-cache/sha256(whisper-small-1.0.0)-whisper-small.bin"
               = true) by (vm_compute; reflexivity).
  split; [exact H3|].
  pose proof (ensureModelAvailable_cache_hit (P := samplePlatform) transcription warmWorld
                (modelConfigs warmWorld) warmWorld
                (ModelConfig.with_localPath
                   "/app/model-cache/sha256(whisper-small-1.0.0)-whisper-small.bin"
                   whisperConfig)
                "/app/model-cache/sha256(whisper-small-1.0.0)-whisper-small.bin"
                (snd (getModelFromCache "whisper-small" warmWorld)) H1 H2 H3 H4) as H.
  split; [exact (proj1 H)|]. exact (proj2 (proj2 (proj2 (proj2 H)))).
Defined.

Lemma ensureModelAvailable_local_file_witness :
  files localWorld !! "/app/models/whisper-small.bin" = Some (sampleFile 4096) ∧
  getModelFromCache "whisper-small" localWorld = (Ok None, localWorld) ∧
  fst (ensureModelAvailable (P := samplePlatform) transcription localWorld)
  = Ok (Some whisperConfig) ∧
  fetched (snd (ensureModelAvailable (P := samplePlatform) transcription localWorld)) = [].
Proof.
  assert (H1 : getModelConfigs (P := samplePlatform) localWorld
               = (Ok (catalog (P := samplePlatform)), localWorld))
    by (vm_compute; reflexivity).
  assert (H2 : find (fun config => ModelType_eqb (ModelConfig.type config) transcription)
                 (catalog (P := samplePlatform)) = Some whisperConfig)
    by (vm_compute; reflexivity).
  assert (H3 : getModelFromCache "whisper-small" localWorld = (Ok None, localWorld))
    by (vm_compute; reflexivity).
  assert (H4 : truthy_path None = false) by reflexivity.
  assert (H5 : files localWorld !! "/app/models/whisper-small.bin"
               = Some (File (mkBlob 4096 "digest"))) by (vm_compute; reflexivity).
  assert (H6 : truthy (ModelConfig.checksum whisperConfig) = false ∨
               blob_sha256 (mkBlob 4096 "digest") = ModelConfig.checksum whisperConfig)
    by (left; vm_compute; reflexivity).
  assert (H7 : canWrite localWorld
                 (cachedPathOf (P := samplePlatform) "whisper-small"
                    "/app/models/whisper-small.bin" "1.0.0") = true)
    by (vm_compute; reflexivity).
  assert (H8 : truthy (cachedPathOf (P := samplePlatform) "whisper-small"
                         "/app/models/whisper-small.bin" "1.0.0") = true)
    by (vm_compute; reflexivity).
  split; [exact H5|]. split; [exact H3|].
  pose proof (ensureModelAvailable_local_file (P := samplePlatform) transcription
                localWorld (catalog (P := samplePlatform)) localWorld whisperConfig None
                localWorld (mkBlob 4096 "digest") H1 H2 H3 H4 H5 H6 H7 H8) as H.
  split; [exact (proj1 H)|]. exact (proj2 (proj2 (proj2 H))).
Defined.

Lemma ensureModelAvailable_cache_failure_witness :
  files protectedWorld !! "/app/models/whisper-small.bin" = Some (sampleFile 4096) ∧
  canWrite protectedWorld
    (cachedPathOf (P := samplePlatform) "whisper-small"
       "/app/models/whisper-small.bin" "1.0.0") = false ∧
  fetched (snd (ensureModelAvailable (P := samplePlatform) transcription protectedWorld))
  = [ModelConfig.url whisperConfig].
Proof.
  assert (H1 : getModelConfigs (P := samplePlatform) protectedWorld
               = (Ok (catalog (P := samplePlatform)), protectedWorld))
    by (vm_compute; reflexivity).
  assert (H2 : find (fun config => ModelType_eqb (ModelConfig.type config) transcription)
                 (catalog (P := samplePlatform)) = Some whisperConfig)
    by (vm_compute; reflexivity).
  assert (H3 : getModelFromCache "whisper-small" protectedWorld
               = (Ok None, protectedWorld)) by (vm_compute; reflexivity).
  assert (H4 : truthy_path None = false) by reflexivity.
  assert (H5 : files protectedWorld !! "/app/models/whisper-small.bin"
               = Some (File (mkBlob 4096 "digest"))) by (vm_compute; reflexivity).
  assert (H6 : truthy (ModelConfig.checksum whisperConfig) = false ∨
               blob_sha256 (mkBlob 4096 "digest") = ModelConfig.checksum whisperConfig)
    by (left; vm_compute; reflexivity).
  assert (H7 : canWrite protectedWorld
                 (cachedPathOf (P := samplePlatform) "whisper-small"
                    "/app/models/whisper-small.bin" "1.0.0") = false)
    by (vm_compute; reflexivity).
  split; [exact H5|]. split; [exact H7|].
  exact (ensureModelAvailable_cache_failure (P := samplePlatform) transcription
           protectedWorld (catalog (P := samplePlatform)) protectedWorld whisperConfig None
           protectedWorld (mkBlob 4096 "digest") H1 H2 H3 H4 H5 H6 H7).
Defined.

Lemma downloadModel_success_witness :
  enoughSpace roomyLoaded (ModelConfig.requiredDiskSpace whisperConfig) = true ∧
  getModelFromCache "whisper-small" roomyLoaded = (Ok None, roomyLoaded) ∧
  fst (downloadModel (P := samplePlatform) whisperConfig roomyLoaded)
  = Ok (Some "/app/model-cache/sha256(whisper-small-1.0.0)-whisper-small.bin") ∧
  fetched (snd (downloadModel (P := samplePlatform) whisperConfig roomyLoaded))
  = [ModelConfig.url whisperConfig] ∧
  files (snd (downloadModel (P := samplePlatform) whisperConfig roomyLoaded))
    !! "/app/model-cache/sha256(whisper-small-1.0.0)-whisper-small.bin"
  = Some (File (mkBlob (400 * 1024 * 1024) "digest")).
Proof.
  assert (H1 : enoughSpace roomyLoaded (ModelConfig.requiredDiskSpace whisperConfig) = true)
    by (vm_compute; reflexivity).
  assert (H2 : getModelFromCache (ModelConfig.name whisperConfig) roomyLoaded
               = (Ok None, roomyLoaded)) by (vm_compute; reflexivity).
  assert (H3 : network (env roomyLoaded) (ModelConfig.url whisperConfig)
               = Resolved true "OK" (Some (mkBlob (400 * 1024 * 1024) "digest")))
    by (vm_compute; reflexivity).
  assert (H4 : canWrite roomyLoaded (ModelConfig.localPath whisperConfig) = true)
    by (vm_compute; reflexivity).
  assert (H5 : canWrite roomyLoaded
                 (cachedPathOf (P := samplePlatform) (ModelConfig.name whisperConfig)
                    (ModelConfig.localPath whisperConfig)
                    (ModelConfig.version whisperConfig)) = true)
    by (vm_compute; reflexivity).
  assert (H6 : totalSize
                 (cacheIndex
                    (insertedWorld (P := samplePlatform) (ModelConfig.name whisperConfig)
                       (ModelConfig.localPath whisperConfig)
                       (ModelConfig.version whisperConfig)
                       (mkBlob (400 * 1024 * 1024) "digest")
                       (downloadedWorld whisperConfig (mkBlob (400 * 1024 * 1024) "digest")
                          roomyLoaded)))
               <= maxCacheSize) by (vm_compute; discriminate).
  split; [exact H1|]. split; [exact H2|].
  pose proof (downloadModel_success (P := samplePlatform) whisperConfig roomyLoaded
                roomyLoaded "OK" (mkBlob (400 * 1024 * 1024) "digest") H1 H2 H3 H4 H5) as H.
  split; [exact (proj1 H)|]. split; [exact (proj1 (proj2 H))|].
  exact (proj1 (proj2 (proj2 (proj2 H) H6))).
Defined.

(** ** The upload pipeline *)

Lemma isSafeChar_underscore : isSafeChar "_" = false.
Proof. reflexivity. Qed.

Lemma sanitizeFileName_chars (name : string) :
  Forall (fun c => isSafeChar c = true ∨ c = "_"%char) (chars (sanitizeFileName name)).
Proof.
  induction name as [|c name IH]; cbn [sanitizeFileName chars]; [constructor|].
  constructor; [|exact IH].
  destruct (isSafeChar c) eqn:Hc; [by left | by right].
Qed.

Lemma sanitizeFileName_fixed (name : string) :
  Forall (fun c => isSafeChar c = true ∨ c = "_"%char) (chars name) →
  sanitizeFileName name = name.
Proof.
  induction name as [|c name IH]; cbn [sanitizeFileName chars]; [done|].
  intros H. apply Forall_cons in H as [Hc H]. rewrite (IH H).
  destruct Hc as [->| ->]; [done|]. by rewrite isSafeChar_underscore.
Qed.

(** X16.  The name under which an upload is saved.  [sanitizeFileName]
    keeps the length of the name, leaves letters, digits, dots and hyphens
    where they are and puts an underscore in the place of every other
    character; so the result has no path separator, sanitizing twice is
    sanitizing once, and the names left unchanged are exactly those made of
    letters, digits, dots, hyphens and underscores.  (Names are taken over
    8-bit characters.) *)
Theorem sanitizeFileName_spec (name : string) :
  String.length (sanitizeFileName name) = String.length name ∧
  (∀ c, c ∈ chars (sanitizeFileName name) → isSafeChar c = true ∨ c = "_"%char) ∧
  ("/"%char ∉ chars (sanitizeFileName name)) ∧
  sanitizeFileName (sanitizeFileName name) = sanitizeFileName name ∧
  (sanitizeFileName name = name ↔
   Forall (fun c => isSafeChar c = true ∨ c = "_"%char) (chars name)).
Proof.
  pose proof (sanitizeFileName_chars name) as Hall.
  split; [induction name as [|c name IH]; cbn [sanitizeFileName String.length];
          [done | by rewrite IH; [|apply sanitizeFileName_chars]]|].
  split; [intros c Hc; by apply (proj1 (Forall_forall _ _) Hall)|].
  split; [intros Hin; apply (proj1 (Forall_forall _ _) Hall) in Hin as [?|?]; done|].
  split; [by apply sanitizeFileName_fixed|].
  split; [intros <-; exact Hall | apply sanitizeFileName_fixed].
Qed.

Example sanitizeFileName_sampleUpload :
  sanitizeFileName (upload_name sampleUpload) = "my_talk_1_.mp3".
Proof. reflexivity. Qed.

Lemma cleanupTempFiles_cons (file : string) (tempFiles : list string) (w : World) :
  cleanupTempFiles (file :: tempFiles) w
  = cleanupTempFiles tempFiles
      (if canUnlink w file
       then add_event (Log info "Temporary file deleted")
              (set_files (delete file (files w)) w)
       else add_event (Log warn "Failed to delete temporary file") w).
Proof.
  cbn [cleanupTempFiles]. unfold bind at 1. unfold try_catch, bind, fs_unlink, logger, modify.
  by destruct (canUnlink w file).
Qed.

(** X17.  [cleanupTempFiles] never throws.  Afterwards every listed path
    whose unlink was possible names no file, every other path is as before
    (a listed path that is missing, is a directory or is refused included),
    and the log has one more line per listed path.  The cache index and the
    catalog are not touched. *)
Theorem cleanupTempFiles_spec (tempFiles : list string) (w : World) :
  fst (cleanupTempFiles tempFiles w) = Ok tt ∧
  cacheIndex (snd (cleanupTempFiles tempFiles w)) = cacheIndex w ∧
  modelConfigs (snd (cleanupTempFiles tempFiles w)) = modelConfigs w ∧
  length (trace (snd (cleanupTempFiles tempFiles w)))
  = (length (trace w) + length tempFiles)%nat ∧
  ∀ p, files (snd (cleanupTempFiles tempFiles w)) !! p
       = if bool_decide (p ∈ tempFiles) && canUnlink w p
         then None else files w !! p.
Proof.
  revert w. induction tempFiles as [|file tempFiles IH]; intros w.
  - cbn [cleanupTempFiles ret fst snd length].
    split; [done|]. split; [done|]. split; [done|]. split; [lia|].
    intros p. rewrite bool_decide_eq_false_2; [done | apply not_elem_of_nil].
  - rewrite cleanupTempFiles_cons.
    destruct (canUnlink w file) eqn:Hcan.
    + set (w1 := add_event (Log info "Temporary file deleted")
                   (set_files (delete file (files w)) w)).
      destruct (IH w1) as (Hok & Hi & Hc & Ht & Hf).
      split; [done|]. split; [done|]. split; [done|].
      split; [rewrite Ht; unfold w1; cbn [trace add_event set_files length];
              rewrite length_app; cbn [length]; lia|].
      intros p. rewrite Hf.
      destruct (decide (p = file)) as [->|Hne].
      * rewrite (bool_decide_eq_true_2 (_ ∈ _ :: _)) by (apply elem_of_cons; auto).
        rewrite Hcan. cbn [andb].
        assert (Hgone : canUnlink w1 file = false).
        { unfold canUnlink, w1. cbn [files add_event set_files].
          by rewrite lookup_delete_eq. }
        rewrite Hgone, andb_false_r. unfold w1. cbn [files add_event set_files].
        apply lookup_delete_eq.
      * assert (Hsame : canUnlink w1 p = canUnlink w p).
        { unfold canUnlink, w1. cbn [files env add_event set_files].
          by rewrite lookup_delete_ne. }
        rewrite Hsame. unfold w1. cbn [files add_event set_files].
        rewrite lookup_delete_ne by done.
        destruct (decide (p ∈ tempFiles)) as [Hin|Hout].
        -- rewrite !bool_decide_eq_true_2; [done | apply elem_of_cons; auto | done].
        -- rewrite !bool_decide_eq_false_2; [done | | done].
           rewrite elem_of_cons. tauto.
    + set (w1 := add_event (Log warn "Failed to delete temporary file") w).
      destruct (IH w1) as (Hok & Hi & Hc & Ht & Hf).
      split; [done|]. split; [done|]. split; [done|].
      split; [rewrite Ht; unfold w1; cbn [trace add_event length];
              rewrite length_app; cbn [length]; lia|].
      intros p. rewrite Hf.
      assert (Hsame : canUnlink w1 p = canUnlink w p) by reflexivity.
      rewrite Hsame. unfold w1. cbn [files add_event].
      destruct (decide (p = file)) as [->|Hne].
      * by rewrite Hcan, !andb_false_r.
      * destruct (decide (p ∈ tempFiles)) as [Hin|Hout].
        -- rewrite !bool_decide_eq_true_2; [done | apply elem_of_cons; auto | done].
        -- rewrite !bool_decide_eq_false_2; [done | | done].
           rewrite elem_of_cons. tauto.
Qed.

Section UploadExtras.
Context {P : Platform}.

Lemma uploadsReady_files (w : World) (p : string) :
  p ≠ uploadsDir → files (uploadsReady w) !! p = files w !! p.
Proof.
  intros Hne. unfold uploadsReady, fs_mkdir.
  destruct (files w !! uploadsDir) as [[b|]|]; try done.
  destruct (bool_decide _); [|done]. cbn [snd files set_files].
  by rewrite lookup_insert_ne.
Qed.

Lemma uploadsReady_env (w : World) : env (uploadsReady w) = env w.
Proof.
  unfold uploadsReady, fs_mkdir.
  destruct (files w !! uploadsDir) as [[b|]|]; try done. by destruct (bool_decide _).
Qed.

Lemma uploadsReady_blocked (w : World) :
  canMkdir w uploadsDir = false → uploadsReady w = w.
Proof.
  unfold canMkdir, uploadsReady, fs_mkdir.
  destruct (files w !! uploadsDir) as [[b|]|]; try done. by intros ->.
Qed.

(** [processAudioFile], case by case. *)
Lemma processAudioFile_cases (audioFile : UploadedFile) (w : World) :
  (canSave audioFile w = true ∧
   processAudioFile audioFile w
   = (Ok (savedPath audioFile w),
      set_files (<[savedPath audioFile w := File (upload_data audioFile)]>
                   (files (uploadsReady w)))
        (add_event (Log info "Processing audio file")
           (set_ticks (S (ticks w)) (uploadsReady w))))) ∨
  (canSave audioFile w = false ∧
   fst (processAudioFile audioFile w) = Throw "File processing failed" ∧
   files (snd (processAudioFile audioFile w)) = files (uploadsReady w) ∧
   env (snd (processAudioFile audioFile w)) = env w).
Proof.
  pose proof (uploadsReady_env w) as Henv.
  unfold canSave, savedPath.
  destruct (canMkdir w uploadsDir) eqn:Hdir; cbn [andb].
  - assert (Hmk : fs_mkdir uploadsDir w = (Ok tt, uploadsReady w)).
    { unfold uploadsReady. unfold canMkdir in Hdir. unfold fs_mkdir.
      destruct (files w !! uploadsDir) as [[b|]|]; try done.
      by destruct (bool_decide _). }
    assert (Hticks : ticks (uploadsReady w) = ticks w).
    { unfold uploadsReady, fs_mkdir.
      destruct (files w !! uploadsDir) as [[b|]|]; try done. by destruct (bool_decide _). }
    set (filePath := uploadPathOf (clock (env w) (ticks w)) (upload_name audioFile)).
    set (w3 := add_event (Log info "Processing audio file")
                 (set_ticks (S (ticks w)) (uploadsReady w))).
    assert (Hwrite : canWrite w3 filePath = canWrite (uploadsReady w) filePath)
      by reflexivity.
    assert (Hrun : processAudioFile audioFile w
                   = if canWrite (uploadsReady w) filePath
                     then (Ok filePath,
                           set_files (<[filePath := File (upload_data audioFile)]>
                                        (files w3)) w3)
                     else (Throw "File processing failed",
                           add_event (Log error "Failed to process audio file") w3)).
    { unfold processAudioFile. unfold try_catch at 1. unfold bind at 1. rewrite Hmk.
      unfold bind at 1. unfold Date_now. rewrite Henv, Hticks. fold filePath.
      unfold bind at 1. unfold logger at 1. unfold modify at 1. fold w3.
      unfold bind at 1. unfold fs_writeFile. rewrite Hwrite.
      by destruct (canWrite (uploadsReady w) filePath). }
    rewrite Hrun.
    destruct (canWrite (uploadsReady w) filePath); [left; by split | right].
    split; [done|]. cbn [fst snd]. split; [done|]. split; [done|]. exact Henv.
  - right. split; [done|].
    assert (Hmk : ∃ e, fs_mkdir uploadsDir w = (Throw e, w)).
    { unfold canMkdir in Hdir. unfold fs_mkdir.
      destruct (files w !! uploadsDir) as [[b|]|]; try done; [eauto|].
      destruct (bool_decide _); [done | eauto]. }
    destruct Hmk as [e Hmk]. rewrite (uploadsReady_blocked w Hdir).
    assert (Hrun : processAudioFile audioFile w
                   = (Throw "File processing failed",
                      add_event (Log error "Failed to process audio file") w)).
    { unfold processAudioFile. unfold try_catch at 1. unfold bind at 1.
      by rewrite Hmk. }
    by rewrite Hrun.
Qed.

(** X18.  Saving an upload.  [processAudioFile] makes sure of the uploads
    directory, then writes the bytes under the uploads directory at the
    time stamp of the call followed by the sanitized name.  When that can
    be done it returns the path and the file holds the uploaded bytes; when
    the directory cannot be made or the file cannot be written the error
    is 'File processing failed', whatever the cause, and no file has been
    written.  Either way no other path changes, the uploads directory
    apart. *)
Theorem processAudioFile_spec (audioFile : UploadedFile) (w : World) :
  savedPath audioFile w
  = path_join uploadsDir
      (pretty (clock (env w) (ticks w)) +:+ "_" +:+ sanitizeFileName (upload_name audioFile)) ∧
  (∀ p, p ≠ uploadsDir → p ≠ savedPath audioFile w →
     files (snd (processAudioFile audioFile w)) !! p = files w !! p) ∧
  if canSave audioFile w then
    fst (processAudioFile audioFile w) = Ok (savedPath audioFile w) ∧
    files (snd (processAudioFile audioFile w)) !! savedPath audioFile w
    = Some (File (upload_data audioFile))
  else
    fst (processAudioFile audioFile w) = Throw "File processing failed" ∧
    files (snd (processAudioFile audioFile w)) = files (uploadsReady w).
Proof.
  split; [reflexivity|].
  destruct (processAudioFile_cases audioFile w)
    as [[Hcan Hrun]|(Hcan & Hres & Hfiles & _)]; rewrite Hcan.
  - rewrite Hrun. cbn [fst snd files set_files]. split.
    + intros p Hdir Hpath. rewrite lookup_insert_ne by done.
      by apply uploadsReady_files.
    + split; [done | apply lookup_insert_eq].
  - split; [|by split]. intros p Hdir _. rewrite Hfiles. by apply uploadsReady_files.
Qed.

(** X19.  The whole upload.  [handleAudioTranscription] succeeds exactly
    when the upload can be saved.  It then returns the two constant texts
    of ml-service.ts with the clock reading taken after the save, and the
    saved file is removed again; if its removal is refused the file stays
    behind with the uploaded bytes and the call succeeds all the same.
    When the upload cannot be saved the error of [processAudioFile] is
    rethrown and no file has been written. *)
Theorem handleAudioTranscription_spec (audioFile : UploadedFile) (w : World) :
  (∀ p, p ≠ uploadsDir → p ≠ savedPath audioFile w →
     files (snd (handleAudioTranscription audioFile w)) !! p = files w !! p) ∧
  if canSave audioFile w then
    fst (handleAudioTranscription audioFile w)
    = Ok (TranscriptionOutcome.mk MOCK_TRANSCRIPTION MOCK_SUMMARY
            (clock (env w) (S (ticks w)))) ∧
    files (snd (handleAudioTranscription audioFile w)) !! savedPath audioFile w
    = if bool_decide (savedPath audioFile w ∉ denyUnlink (env w))
      then None else Some (File (upload_data audioFile))
  else
    fst (handleAudioTranscription audioFile w) = Throw "File processing failed" ∧
    files (snd (handleAudioTranscription audioFile w)) = files (uploadsReady w).
Proof.
  pose proof (uploadsReady_env w) as Henv.
  destruct (processAudioFile_cases audioFile w)
    as [[Hcan Hrun]|(Hcan & Hres & Hfiles & _)]; rewrite Hcan.
  - set (filePath := savedPath audioFile w) in *.
    set (w4 := set_files (<[filePath := File (upload_data audioFile)]>
                            (files (uploadsReady w)))
                 (add_event (Log info "Processing audio file")
                    (set_ticks (S (ticks w)) (uploadsReady w)))) in *.
    assert (Hunlink : canUnlink w4 filePath
                      = bool_decide (filePath ∉ denyUnlink (env w))).
    { unfold canUnlink, w4. cbn [files env set_files add_event set_ticks].
      by rewrite lookup_insert_eq, Henv. }
    assert (Heq : handleAudioTranscription audioFile w
                  = let w5 :=
                      if bool_decide (filePath ∉ denyUnlink (env w))
                      then add_event (Log info "Temporary file deleted")
                             (set_files (delete filePath (files w4)) w4)
                      else add_event (Log warn "Failed to delete temporary file") w4 in
                    (Ok (TranscriptionOutcome.mk MOCK_TRANSCRIPTION MOCK_SUMMARY
                           (clock (env w) (S (ticks w)))),
                     set_ticks (S (S (ticks w))) w5)).
    { unfold handleAudioTranscription. unfold bind at 1. unfold try_catch at 1.
      rewrite Hrun. unfold try_catch at 1.
      unfold transcribeAudio, summarizeText. unfold bind at 1. unfold ret at 1.
      unfold bind at 1. unfold ret at 1. unfold bind at 1.
      rewrite cleanupTempFiles_cons, Hunlink. cbn [cleanupTempFiles]. unfold ret at 1.
      unfold bind at 1. unfold Date_now.
      destruct (bool_decide (filePath ∉ denyUnlink (env w)));
        cbn [env ticks add_event set_files set_ticks w4]; unfold ret;
        unfold w4; cbn [env ticks add_event set_files set_ticks]; by rewrite Henv. }
    rewrite Heq. cbn zeta. cbn [fst snd]. split.
    + intros p Hdir Hpath.
      destruct (bool_decide (filePath ∉ denyUnlink (env w)));
        unfold w4; cbn [files set_ticks add_event set_files];
        [rewrite lookup_delete_ne by done|]; rewrite lookup_insert_ne by done;
        by apply uploadsReady_files.
    + split; [done|].
      destruct (bool_decide (filePath ∉ denyUnlink (env w)));
        unfold w4; cbn [files set_ticks add_event set_files];
        [apply lookup_delete_eq | apply lookup_insert_eq].
  - assert (Heq : handleAudioTranscription audioFile w
                  = (Throw "File processing failed",
                     add_event (Log error "Audio processing failed")
                       (snd (processAudioFile audioFile w)))).
    { unfold handleAudioTranscription. unfold bind at 1. unfold try_catch at 1.
      destruct (processAudioFile audioFile w) as [[a|e] w'] eqn:Hrun; [discriminate|].
      cbn [fst snd] in *. injection Hres as ->.
      reflexivity. }
    rewrite Heq. cbn [fst snd files add_event]. split; [|by split].
    intros p Hdir _. rewrite Hfiles. by apply uploadsReady_files.
Qed.

Example handleAudioTranscription_offlineWorld :
  savedPath (P := samplePlatform) sampleUpload offlineWorld
  = "/app/uploads/1000_my_talk_1_.mp3" ∧
  fst (handleAudioTranscription (P := samplePlatform) sampleUpload offlineWorld)
  = Ok (TranscriptionOutcome.mk MOCK_TRANSCRIPTION MOCK_SUMMARY 1001) ∧
  files (snd (handleAudioTranscription (P := samplePlatform) sampleUpload offlineWorld))
    !! "/app/uploads/1000_my_talk_1_.mp3" = None ∧
  files (snd (handleAudioTranscription (P := samplePlatform) sampleUpload stickyWorld))
    !! "/app/uploads/1000_my_talk_1_.mp3" = Some (File (mkBlob 100 "audio")).
Proof. repeat split; vm_compute; reflexivity. Qed.

(** ** MLModelManager.downloadModels *)

Lemma total_ensureEach (configs : list ModelConfig.t) : total (ensureEach configs).
Proof.
  induction configs as [|c l IH]; cbn [ensureEach]; [apply total_ret|].
  apply total_bind; [apply total_ensureModelAvailable | intros _; exact IH].
Qed.

Lemma preserves_fetched_throw_getModelConfigs (w : World) (e : string) :
  fst (getModelConfigs w) = Throw e → fetched (snd (getModelConfigs w)) = fetched w.
Proof.
  intros _. apply (preserves_getModelConfigs fetched fetched_ignoresBookkeeping
                     fetched_ignoresFiles).
Qed.

(** X20.  [downloadModels] reports success whenever the catalog can be
    loaded, whether or not any model could be obtained: a model that cannot
    be cached or downloaded only makes [ensureModelAvailable] return
    [null], which the loop ignores, and the last log line is 'All models
    downloaded and prepared'.  It throws, with 'Failed to prepare ML
    models', exactly when [getModelConfigs] throws, and then no request has
    been sent. *)
Theorem downloadModels_spec (w : World) :
  (∀ configs, fst (getModelConfigs w) = Ok configs →
     fst (downloadModels w) = Ok tt ∧
     last (trace (snd (downloadModels w)))
     = Some (Log info "All models downloaded and prepared")) ∧
  (∀ e, fst (getModelConfigs w) = Throw e →
     fst (downloadModels w) = Throw "Failed to prepare ML models" ∧
     fetched (snd (downloadModels w)) = fetched w).
Proof.
  split.
  - intros configs Hc.
    destruct (getModelConfigs w) as [[configs'|e] w1] eqn:Hrun; [|discriminate].
    cbn [fst] in Hc. injection Hc as ->.
    destruct (total_ensureEach configs w1) as [[] Hall].
    assert (Heq : downloadModels w
                  = (Ok tt, add_event (Log info "All models downloaded and prepared")
                              (snd (ensureEach configs w1)))).
    { unfold downloadModels. unfold try_catch at 1. unfold bind at 1. rewrite Hrun.
      unfold bind at 1.
      destruct (ensureEach configs w1) as [[[]|e] w2]; [|discriminate]. reflexivity. }
    rewrite Heq. cbn [fst snd trace add_event]. split; [done | apply last_snoc].
  - intros e He.
    pose proof (preserves_fetched_throw_getModelConfigs w e He) as Hf.
    assert (Heq : downloadModels w
                  = (Throw "Failed to prepare ML models",
                     add_event (Log error "Model download process failed")
                       (snd (getModelConfigs w)))).
    { unfold downloadModels. unfold try_catch at 1. unfold bind at 1.
      destruct (getModelConfigs w) as [[configs|e'] w1]; [discriminate|]. reflexivity. }
    rewrite Heq. cbn [fst snd]. split; [done|].
    rewrite (proj2 (proj2 (proj2 (proj2 fetched_ignoresBookkeeping)))). exact Hf.
Qed.
End UploadExtras.

(** Without network no model can be had; [downloadModels] completes. *)
Example downloadModels_offlineWorld :
  fst (ensureModelAvailable (P := samplePlatform) transcription offlineWorld) = Ok None ∧
  fst (ensureModelAvailable (P := samplePlatform) summarization offlineWorld) = Ok None ∧
  fst (downloadModels (P := samplePlatform) offlineWorld) = Ok tt ∧
  fst (downloadModels (P := samplePlatform) blockedWorld)
  = Throw "Failed to prepare ML models".
Proof. repeat split; vm_compute; reflexivity. Qed.

Lemma ensureModelAvailable_first_download_witness :
  JsMap.get "whisper-small" (cacheIndex roomyLoaded) = None ∧
  files roomyLoaded !! "/app/models/whisper-small.bin" = None ∧
  fst (ensureModelAvailable (P := samplePlatform) transcription roomyLoaded)
  = Ok (Some (ModelConfig.with_localPath
                "/app/model-cache/sha256(whisper-small-1.0.0)-whisper-small.bin"
                whisperConfig)) ∧
  fetched (snd (ensureModelAvailable (P := samplePlatform) transcription roomyLoaded))
  = [ModelConfig.url whisperConfig].
Proof.
  assert (H1 : find (fun config => ModelType_eqb (ModelConfig.type config) transcription)
                 (modelConfigs roomyLoaded) = Some whisperConfig)
    by (vm_compute; reflexivity).
  assert (H2 : JsMap.get (ModelConfig.name whisperConfig) (cacheIndex roomyLoaded) = None)
    by (vm_compute; reflexivity).
  assert (H3 : files roomyLoaded !! ModelConfig.localPath whisperConfig = None)
    by (vm_compute; reflexivity).
  assert (H4 : enoughSpace roomyLoaded (ModelConfig.requiredDiskSpace whisperConfig) = true)
    by (vm_compute; reflexivity).
  assert (H5 : network (env roomyLoaded) (ModelConfig.url whisperConfig)
               = Resolved true "OK" (Some (mkBlob (400 * 1024 * 1024) "digest")))
    by (vm_compute; reflexivity).
  assert (H6 : canWrite roomyLoaded (ModelConfig.localPath whisperConfig) = true)
    by (vm_compute; reflexivity).
  assert (H7 : canWrite roomyLoaded
                 (cachedPathOf (P := samplePlatform) (ModelConfig.name whisperConfig)
                    (ModelConfig.localPath whisperConfig)
                    (ModelConfig.version whisperConfig)) = true)
    by (vm_compute; reflexivity).
  assert (H8 : truthy (cachedPathOf (P := samplePlatform) (ModelConfig.name whisperConfig)
                         (ModelConfig.localPath whisperConfig)
                         (ModelConfig.version whisperConfig)) = true)
    by (vm_compute; reflexivity).
  split; [exact H2|]. split; [exact H3|].
  pose proof (ensureModelAvailable_first_download (P := samplePlatform) transcription
                roomyLoaded whisperConfig "OK" (mkBlob (400 * 1024 * 1024) "digest")
                H1 H2 H3 H4 H5 H6 H7 H8) as H.
  split; [exact (proj1 H)|]. exact (proj2 (proj2 (proj2 H))).
Defined.
